(** * The RMRK 1.0.0 consolidator

    A shallow embedding of [src/tools/consolidator/consolidator.ts] and of
    [src/tools/consolidator/interactions/mint.ts], and the properties of the
    consolidation engine proved over it.

    The engine is an object with mutable fields that talks to a storage
    adapter.  Both are modelled by explicit state passing: a computation
    takes the world (the instance's fields, the adapter's store, the console)
    and returns a completion (a value or a thrown error) with the new
    world.  [await] is sequencing: the engine awaits every call before it
    goes on.

    The file has the model first (the values, the data, what the two files
    import, the adapter, the two files themselves), then a sample instance
    to run it on, then the predicates the properties are stated with, then
    the lemmas and the properties. *)

From Stdlib Require Import ZArith List String Ascii Bool Lia DecimalString.
Import ListNotations.

Local Open Scope string_scope.
Local Open Scope list_scope.
Local Open Scope Z_scope.

Set Implicit Arguments.

(** ** JavaScript values used by the engine *)

(** How a call ends: with a value, or with a thrown [Error] of which only the
    [message] is ever read ([catch (e) { ... e.message ... }]). *)
Inductive completion (A : Type) : Type :=
| Normal (a : A)
| Throw (message : string).

Arguments Normal {A} a.
Arguments Throw {A} message.

(** A template literal: the pieces joined. *)
Definition template (pieces : list string) : string := String.concat "" pieces.

Module JS.

(** Strings are sequences of code units; [s.length]. *)
Definition length (s : string) : Z := Z.of_nat (String.length s).

(** [s.substring(start)]: a negative [start] counts as 0, one past the end
    as the end. *)
Definition substring (start : Z) (s : string) : string :=
  String.substring (Z.to_nat start) (String.length s) s.

(** [s.substr(start, length)]: a negative [start] counts from the end, a
    negative [length] gives the empty string. *)
Definition substr (start len : Z) (s : string) : string :=
  let from := if start <? 0 then Z.max (length s + start) 0 else start in
  String.substring (Z.to_nat from) (Z.to_nat len) s.

End JS.

(** ** The data model *)

(** [OP_TYPES] of [tools/constants]: the eight operation kinds. *)
Inductive OP_TYPES : Type :=
| BUY | LIST | MINT | MINTNFT | SEND | EMOTE | CHANGEISSUER | CONSUME.

(** One entry of the log ([./remark]). *)
Record Remark : Type := mkRemark {
  block : Z;
  caller : string;
  interaction_type : string;
  remark : string
}.

(** [type InvalidCall]. *)
Record InvalidCall : Type := mkInvalidCall {
  ic_message : string;
  ic_caller : string;
  ic_block : Z;
  ic_object_id : string;
  ic_op_type : string
}.

(** [type InteractionChanges = Partial<Record<OP_TYPES, string>>[]]: every
    entry the engine pushes is an object with a single key. *)
Definition InteractionChanges : Type := list (OP_TYPES * string).

Section Consolidated.

(** Types of [rmrk1.0.0] that the consolidated records mention. *)
Variables Reactionmap Change NFTMetadata CollectionMetadata : Type.

(** [interface NFTConsolidated]. *)
Record NFTConsolidated : Type := mkNFTConsolidated {
  nft_id : string;
  nft_block : Z;
  nft_collection : string;
  nft_name : string;
  nft_instance : string;
  nft_transferable : Z;
  nft_sn : string;
  nft_metadata : option string;
  nft_data : option string;
  nft_forsale : Z;
  nft_reactions : Reactionmap;
  nft_changes : list Change;
  nft_owner : string;
  nft_loadedMetadata : option NFTMetadata;
  nft_burned : string;
  nft_updatedAtBlock : option Z
}.

(** [interface CollectionConsolidated]. *)
Record CollectionConsolidated : Type := mkCollectionConsolidated {
  col_block : Z;
  col_name : string;
  col_max : Z;
  col_issuer : string;
  col_symbol : string;
  col_id : string;
  col_metadata : string;
  col_changes : list Change;
  col_loadedMetadata : option CollectionMetadata;
  col_updatedAtBlock : option Z
}.

End Consolidated.

(** ** What the engine imports

    The classes of [rmrk1.0.0], the entity parsers, the validation rules of
    [./interactions/*], the conversions of [./utils] and the address helpers
    of [@polkadot] are imported by the two files and are not part of them.
    They are taken as they are used there: what the engine calls inside a
    [try] block, or what throws in the two files themselves, gives a
    completion; what it calls outside any [try] block (the parsers, which
    answer with a string when they fail, the accessors, the conversions) is
    a function. *)

(** [X.fromRemark(...)] returns the entity or a string that says why not
    ([typeof x === "string"]). *)
Inductive parsed (A : Type) : Type :=
| Entity (a : A)
| Dead (reason : string).

Arguments Entity {A} a.
Arguments Dead {A} reason.

(** A [Uint8Array]. *)
Definition Uint8Array : Type := list Byte.byte.

Class Rmrk : Type := {
  Reactionmap : Type;
  Change : Type;
  NFTMetadata : Type;
  CollectionMetadata : Type;
  Collection : Type;
  NFT : Type;
  Send : Type;
  List : Type;
  Consume : Type;
  Buy : Type;
  Emote : Type;
  ChangeIssuer : Type;
  (** the string value of each member of the enum *)
  op_value : OP_TYPES -> string;
  (** [collection.id], [collection.symbol], [nft.getId()], [nft.collection] *)
  Collection_id : Collection -> string;
  Collection_symbol : Collection -> string;
  getId : NFT -> string;
  NFT_collection : NFT -> string;
  (** [entity.id] of the six request entities *)
  Send_id : Send -> string;
  List_id : List -> string;
  Consume_id : Consume -> string;
  Buy_id : Buy -> string;
  Emote_id : Emote -> string;
  ChangeIssuer_id : ChangeIssuer -> string;
  (** parsers *)
  Collection_fromRemark : string -> Z -> parsed Collection;
  NFT_fromRemark : string -> Z -> parsed NFT;
  Send_fromRemark : string -> parsed Send;
  List_fromRemark : string -> parsed List;
  Consume_fromRemark : string -> parsed Consume;
  Buy_fromRemark : string -> parsed Buy;
  Emote_fromRemark : string -> parsed Emote;
  getChangeIssuerEntity : Remark -> completion ChangeIssuer;
  (** [Collection.generateId(pubkey, symbol)] *)
  generateId : string -> string -> completion string;
  (** [decodeAddress] of [@polkadot/keyring], [u8aToHex] of [@polkadot/util] *)
  decodeAddress : string -> completion Uint8Array;
  u8aToHex : Uint8Array -> string;
  (** [./utils] *)
  consolidatedCollectionToInstance :
    option (CollectionConsolidated Change CollectionMetadata) -> option Collection;
  consolidatedNFTtoInstance :
    option (NFTConsolidated Reactionmap Change NFTMetadata) -> option NFT;
  (** The validation rules throw, or change the instance they are given in
      place.  [validateMintNFT] gives how it ended and the item as the call
      left it (the item is read in the [catch] block too); the others give
      the instance as the call left it when they return. *)
  validateMintNFT : Remark -> NFT -> option Collection -> completion unit * NFT;
  sendInteraction : Remark -> Send -> option NFT -> completion (option NFT);
  listForSaleInteraction : Remark -> List -> option NFT -> completion (option NFT);
  consumeInteraction : Remark -> Consume -> option NFT -> completion (option NFT);
  buyInteraction : Remark -> Buy -> option NFT -> option Z -> completion (option NFT);
  emoteInteraction : Remark -> Emote -> option NFT -> bool -> completion (option NFT);
  changeIssuerInteraction :
    Remark -> ChangeIssuer -> option Collection -> completion (option Collection)
}.

Section Adapter.

Context {P : Rmrk}.

Definition NFTConsolidated' : Type := NFTConsolidated Reactionmap Change NFTMetadata.
Definition CollectionConsolidated' : Type := CollectionConsolidated Change CollectionMetadata.

(** ** The storage adapter ([IConsolidatorAdapter])

    The methods the engine calls, with their arguments. *)
Inductive Method : Type :=
| getCollectionById (id : string)
| getNFTById (id : string)
| getNFTByIdUnique (id : string)
| updateCollectionMint (collection : Collection)
| updateCollectionIssuer (collection : Collection)
    (consolidatedCollection : CollectionConsolidated') (updatedAtBlock : Z)
| updateNFTMint (nft : NFT) (updatedAtBlock : Z)
| updateNFTSend (nft : NFT) (consolidatedNFT : NFTConsolidated') (updatedAtBlock : Z)
| updateNFTList (nft : NFT) (consolidatedNFT : NFTConsolidated') (updatedAtBlock : Z)
| updateNFTConsume (nft : NFT) (consolidatedNFT : NFTConsolidated') (updatedAtBlock : Z)
| updateNFTBuy (nft : NFT) (consolidatedNFT : NFTConsolidated') (updatedAtBlock : Z)
| updateNFTEmote (nft : NFT) (consolidatedNFT : NFTConsolidated') (updatedAtBlock : Z)
| getAllNFTs
| getAllCollections.

(** What a method resolves to; what the [update*] methods resolve to is
    never read. *)
Definition Response (m : Method) : Type :=
  match m with
  | getCollectionById _ => option CollectionConsolidated'
  | getNFTById _ | getNFTByIdUnique _ => option NFTConsolidated'
  | getAllNFTs => list NFTConsolidated'
  | getAllCollections => list CollectionConsolidated'
  | _ => unit
  end.

(** An adapter over a store [DB]: every method may read and write the store
    and may throw.  The two bulk readers are optional members. *)
Record IConsolidatorAdapter (DB : Type) : Type := {
  invoke : forall m : Method, DB -> completion (Response m) * DB;
  has_getAllNFTs : bool;
  has_getAllCollections : bool
}.

End Adapter.

(** ** The engine's state *)

Section State.

Context {P : Rmrk}.

(** The fields of [class Consolidator], [dbAdapter] apart. *)
Record Consolidator : Type := mkConsolidator {
  invalidCalls : list InvalidCall;
  collections : list Collection;
  nfts : list NFT;
  ss58Format : option Z;
  emitEmoteChanges : bool;
  emitInteractionChanges : bool;
  interactionChanges : InteractionChanges
}.

(** [constructor(ss58Format?, dbAdapter?, emitEmoteChanges?,
    emitInteractionChanges?)]; [if (ss58Format)] fails on 0 as on
    [undefined], [x || false] is [false] on [undefined].  The adapter is the
    one a run is given ([dbAdapter || new InMemoryAdapter()]: the default one
    is not part of the two files). *)
Definition new_Consolidator (ss58Format : option Z)
  (emitEmoteChanges emitInteractionChanges : option bool) : Consolidator :=
  {| ss58Format :=
       match ss58Format with
       | Some n => if n =? 0 then None else Some n
       | None => None
       end;
     emitEmoteChanges := match emitEmoteChanges with Some b => b | None => false end;
     emitInteractionChanges :=
       match emitInteractionChanges with Some b => b | None => false end;
     interactionChanges := [];
     invalidCalls := [];
     collections := [];
     nfts := [] |}.

(** [this.invalidCalls.push(e)] and the three other pushes. *)
Definition push_invalidCalls (e : InvalidCall) (c : Consolidator) : Consolidator :=
  mkConsolidator (invalidCalls c ++ [e]) (collections c) (nfts c) (ss58Format c)
    (emitEmoteChanges c) (emitInteractionChanges c) (interactionChanges c).

Definition push_collections (e : Collection) (c : Consolidator) : Consolidator :=
  mkConsolidator (invalidCalls c) (collections c ++ [e]) (nfts c) (ss58Format c)
    (emitEmoteChanges c) (emitInteractionChanges c) (interactionChanges c).

Definition push_nfts (e : NFT) (c : Consolidator) : Consolidator :=
  mkConsolidator (invalidCalls c) (collections c) (nfts c ++ [e]) (ss58Format c)
    (emitEmoteChanges c) (emitInteractionChanges c) (interactionChanges c).

Definition push_interactionChanges (e : OP_TYPES * string) (c : Consolidator) : Consolidator :=
  mkConsolidator (invalidCalls c) (collections c) (nfts c) (ss58Format c)
    (emitEmoteChanges c) (emitInteractionChanges c) (interactionChanges c ++ [e]).

(** [type ConsolidatorReturnType]. *)
Record ConsolidatorReturnType : Type := mkConsolidatorReturnType {
  rt_nfts : list NFTConsolidated';
  rt_collections : list CollectionConsolidated';
  rt_invalid : list InvalidCall;
  rt_changes : option InteractionChanges;
  rt_lastBlock : option Z
}.

Variable DB : Type.

(** What a run can read and write: the instance, the adapter's store, and the
    console.  [calls] lists the adapter methods invoked so far, oldest first;
    nothing reads it, it is there to state which calls were made. *)
Record World : Type := mkWorld {
  this : Consolidator;
  store : DB;
  calls : list Method;
  console : list string
}.

(** A computation of the engine. *)
Definition M (A : Type) : Type := World -> completion A * World.

Definition ret {A : Type} (a : A) : M A := fun w => (Normal a, w).

Definition bind {A B : Type} (m : M A) (k : A -> M B) : M B :=
  fun w =>
    match m w with
    | (Normal a, w') => k a w'
    | (Throw e, w') => (Throw e, w')
    end.

(** What a pure call that may throw does to the computation. *)
Definition lift {A : Type} (c : completion A) : M A := fun w => (c, w).

(** [try { body } catch (e) { handler(e.message) }]. *)
Definition try_catch {A : Type} (body : M A) (handler : string -> M A) : M A :=
  fun w =>
    match body w with
    | (Normal a, w') => (Normal a, w')
    | (Throw e, w') => handler e w'
    end.

(** Reading a field of [this], and changing [this]. *)
Definition get {A : Type} (field : Consolidator -> A) : M A :=
  fun w => (Normal (field (this w)), w).

Definition update (f : Consolidator -> Consolidator) : M unit :=
  fun w => (Normal tt, mkWorld (f (this w)) (store w) (calls w) (console w)).

(** [console.error(line)]. *)
Definition console_error (line : string) : M unit :=
  fun w => (Normal tt, mkWorld (this w) (store w) (calls w) (console w ++ [line])).

(** [await this.dbAdapter.m(...)]. *)
Definition dbAdapter (adapter : IConsolidatorAdapter DB) (m : Method) : M (Response m) :=
  fun w =>
    let (c, db) := invoke adapter m (store w) in
    (c, mkWorld (this w) db (calls w ++ [m]) (console w)).

End State.

Arguments World {P} DB.
Arguments M {P} DB A.
Arguments ret {P DB A} a.
Arguments get {P DB A} field.
Arguments update {P DB} f.
Arguments lift {P DB A} c.
Arguments console_error {P DB} line.

Notation "x <- m ;; k" := (bind m (fun x => k))
  (at level 61, m at next level, right associativity).
Notation "m ;; k" := (bind m (fun _ => k))
  (at level 61, right associativity).

(** ** [interactions/mint.ts] *)

Section Mint.

Context {P : Rmrk}.

Definition getCollectionFromRemark (rmk : Remark) : completion Collection :=
  match Collection_fromRemark (remark rmk) (block rmk) with
  | Dead collection =>
      Throw (template ["["; op_value MINT; "] Dead before instantiation: "; collection])
  | Entity collection => Normal collection
  end.

Definition validateMintIds (collection : Collection) (rmk : Remark) : completion unit :=
  match decodeAddress (caller rmk) with
  | Throw e => Throw e
  | Normal pubkey =>
      let pubkeyString := u8aToHex pubkey in
      let pubkeyStart := JS.substr 2 8 pubkeyString in
      let pubkeyEnd := JS.substring (JS.length pubkeyString - 8) pubkeyString in
      match generateId (u8aToHex pubkey) (Collection_symbol collection) with
      | Throw e => Throw e
      | Normal id =>
          let idStart := JS.substr 0 8 id in
          let idEnd := JS.substring (JS.length pubkeyString - 8) id in
          if (idStart =? pubkeyStart)%string && (idEnd =? pubkeyEnd)%string
          then Throw (template ["Caller's pubkey "; u8aToHex pubkey; " ("; id;
                                ") does not match generated ID"])
          else Normal tt
      end
  end.

End Mint.

(** ** [consolidator.ts] *)

Section Engine.

Context {P : Rmrk} {DB : Type} (adapter : IConsolidatorAdapter DB).

Local Abbreviation dbAdapter := (dbAdapter adapter).

(** [updateInvalidCalls(op_type, remark).bind(this)], applied to
    [(object_id, message)]. *)
Definition updateInvalidCalls (op_type : OP_TYPES) (rmk : Remark)
  (object_id message : string) : M DB unit :=
  update (push_invalidCalls
            {| ic_op_type := op_value op_type;
               ic_block := block rmk;
               ic_caller := caller rmk;
               ic_object_id := object_id;
               ic_message := message |}).

(** [if (this.emitInteractionChanges) this.interactionChanges.push({ [op]: id })]. *)
Definition emitInteractionChange (op : OP_TYPES) (id : string) : M DB unit :=
  emit <- get emitInteractionChanges ;;
  if emit then update (push_interactionChanges (op, id)) else ret tt.

(** In every handler the [return false] (or [true]) that follows the last
    [try] statement is written as the last step of the [try] body: nothing
    stands between the two. *)
Definition mint (rmk : Remark) : M DB bool :=
  let invalidate := updateInvalidCalls MINT rmk in
  match getCollectionFromRemark rmk with
  | Throw e => invalidate (remark rmk) e ;; ret true
  | Normal collection =>
      existingCollection <- dbAdapter (getCollectionById (Collection_id collection)) ;;
      match existingCollection with
      | Some _ =>
          invalidate (Collection_id collection)
            (template ["["; op_value MINT; "] Attempt to mint already existing collection"]) ;;
          ret true
      | None =>
          try_catch
            (lift (validateMintIds collection rmk) ;;
             dbAdapter (updateCollectionMint collection) ;;
             update (push_collections collection) ;;
             emitInteractionChange MINT (Collection_id collection) ;;
             ret false)
            (fun e => invalidate (Collection_id collection) e ;; ret true)
      end
  end.

Definition mintNFT (rmk : Remark) : M DB bool :=
  let invalidate := updateInvalidCalls MINTNFT rmk in
  match NFT_fromRemark (remark rmk) (block rmk) with
  | Dead nft =>
      invalidate (remark rmk)
        (template ["["; op_value MINTNFT; "] Dead before instantiation: "; nft]) ;;
      ret true
  | Entity nft =>
      exists_ <- dbAdapter (getNFTByIdUnique (getId nft)) ;;
      match exists_ with
      | Some _ =>
          invalidate (getId nft)
            (template ["["; op_value MINTNFT; "] Attempt to mint already existing NFT"]) ;;
          ret true
      | None =>
          nftParentCollection <- dbAdapter (getCollectionById (NFT_collection nft)) ;;
          let collection :=
            match nftParentCollection with
            | Some c => consolidatedCollectionToInstance (Some c)
            | None => None
            end in
          let (validated, nft) := validateMintNFT rmk nft collection in
          try_catch
            (lift validated ;;
             dbAdapter (updateNFTMint nft (block rmk)) ;;
             update (push_nfts nft) ;;
             emitInteractionChange MINTNFT (getId nft) ;;
             ret false)
            (fun e => invalidate (getId nft) e ;; ret true)
      end
  end.

Definition send (rmk : Remark) : M DB bool :=
  let invalidate := updateInvalidCalls SEND rmk in
  match Send_fromRemark (remark rmk) with
  | Dead sendEntity =>
      invalidate (remark rmk)
        (template ["["; op_value SEND; "] Dead before instantiation: "; sendEntity]) ;;
      ret true
  | Entity sendEntity =>
      consolidatedNFT <- dbAdapter (getNFTByIdUnique (Send_id sendEntity)) ;;
      let nft := consolidatedNFTtoInstance consolidatedNFT in
      try_catch
        (nft <- lift (sendInteraction rmk sendEntity nft) ;;
         match nft, consolidatedNFT with
         | Some nft, Some consolidatedNFT =>
             dbAdapter (updateNFTSend nft consolidatedNFT (block rmk)) ;;
             emitInteractionChange SEND (getId nft)
         | _, _ => ret tt
         end ;;
         ret false)
        (fun e => invalidate (Send_id sendEntity) e ;; ret true)
  end.

(** [list]: the name of the type of lists is kept free. *)
Definition list_ (rmk : Remark) : M DB bool :=
  let invalidate := updateInvalidCalls LIST rmk in
  match List_fromRemark (remark rmk) with
  | Dead listEntity =>
      invalidate (remark rmk)
        (template ["["; op_value LIST; "] Dead before instantiation: "; listEntity]) ;;
      ret true
  | Entity listEntity =>
      consolidatedNFT <- dbAdapter (getNFTByIdUnique (List_id listEntity)) ;;
      let nft := consolidatedNFTtoInstance consolidatedNFT in
      try_catch
        (nft <- lift (listForSaleInteraction rmk listEntity nft) ;;
         match nft, consolidatedNFT with
         | Some nft, Some consolidatedNFT =>
             dbAdapter (updateNFTList nft consolidatedNFT (block rmk)) ;;
             emitInteractionChange LIST (getId nft)
         | _, _ => ret tt
         end ;;
         ret true)
        (fun e => invalidate (List_id listEntity) e ;; ret true)
  end.

Definition consume (rmk : Remark) : M DB bool :=
  let invalidate := updateInvalidCalls CONSUME rmk in
  match Consume_fromRemark (remark rmk) with
  | Dead consumeEntity =>
      invalidate (remark rmk)
        (template ["["; op_value CONSUME; "] Dead before instantiation: "; consumeEntity]) ;;
      ret true
  | Entity consumeEntity =>
      consolidatedNFT <- dbAdapter (getNFTByIdUnique (Consume_id consumeEntity)) ;;
      let nft := consolidatedNFTtoInstance consolidatedNFT in
      try_catch
        (nft <- lift (consumeInteraction rmk consumeEntity nft) ;;
         match nft, consolidatedNFT with
         | Some nft, Some consolidatedNFT =>
             dbAdapter (updateNFTConsume nft consolidatedNFT (block rmk)) ;;
             emitInteractionChange CONSUME (getId nft)
         | _, _ => ret tt
         end ;;
         ret true)
        (fun e => invalidate (Consume_id consumeEntity) e ;; ret true)
  end.

Definition buy (rmk : Remark) : M DB bool :=
  let invalidate := updateInvalidCalls BUY rmk in
  match Buy_fromRemark (remark rmk) with
  | Dead buyEntity =>
      invalidate (remark rmk)
        (template ["["; op_value BUY; "] Dead before instantiation: "; buyEntity]) ;;
      ret true
  | Entity buyEntity =>
      consolidatedNFT <- dbAdapter (getNFTByIdUnique (Buy_id buyEntity)) ;;
      let nft := consolidatedNFTtoInstance consolidatedNFT in
      format <- get ss58Format ;;
      try_catch
        (nft <- lift (buyInteraction rmk buyEntity nft format) ;;
         match nft, consolidatedNFT with
         | Some nft, Some consolidatedNFT =>
             dbAdapter (updateNFTBuy nft consolidatedNFT (block rmk)) ;;
             emitInteractionChange BUY (getId nft)
         | _, _ => ret tt
         end ;;
         ret true)
        (fun e => invalidate (Buy_id buyEntity) e ;; ret true)
  end.

(** [remark.block !== consolidatedNFT.updatedAtBlock]; a missing
    [updatedAtBlock] differs from every block. *)
Definition block_differs (b : Z) (updatedAtBlock : option Z) : bool :=
  match updatedAtBlock with
  | Some u => negb (b =? u)
  | None => true
  end.

Definition emote (rmk : Remark) : M DB bool :=
  let invalidate := updateInvalidCalls EMOTE rmk in
  match Emote_fromRemark (remark rmk) with
  | Dead emoteEntity =>
      invalidate (remark rmk)
        (template ["["; op_value EMOTE; "] Dead before instantiation: "; emoteEntity]) ;;
      ret true
  | Entity emoteEntity =>
      consolidatedNFT <- dbAdapter (getNFTById (Emote_id emoteEntity)) ;;
      let nft := consolidatedNFTtoInstance consolidatedNFT in
      emitEmote <- get emitEmoteChanges ;;
      try_catch
        (nft <- lift (emoteInteraction rmk emoteEntity nft emitEmote) ;;
         match nft, consolidatedNFT with
         | Some nft, Some consolidatedNFT =>
             if block_differs (block rmk) (nft_updatedAtBlock consolidatedNFT)
             then
               dbAdapter (updateNFTEmote nft consolidatedNFT (block rmk)) ;;
               emitInteractionChange EMOTE (getId nft)
             else ret tt
         | _, _ => ret tt
         end ;;
         ret false)
        (fun e => invalidate (Emote_id emoteEntity) e ;; ret true)
  end.

Definition changeIssuer (rmk : Remark) : M DB bool :=
  let invalidate := updateInvalidCalls CHANGEISSUER rmk in
  match getChangeIssuerEntity rmk with
  | Throw e => invalidate (remark rmk) e ;; ret true
  | Normal changeIssuerEntity =>
      consolidatedCollection <-
        dbAdapter (getCollectionById (ChangeIssuer_id changeIssuerEntity)) ;;
      let collection := consolidatedCollectionToInstance consolidatedCollection in
      try_catch
        (collection <- lift (changeIssuerInteraction rmk changeIssuerEntity collection) ;;
         match collection, consolidatedCollection with
         | Some collection, Some consolidatedCollection =>
             dbAdapter (updateCollectionIssuer collection consolidatedCollection
                          (block rmk)) ;;
             emitInteractionChange CHANGEISSUER (Collection_id collection)
         | _, _ => ret tt
         end ;;
         ret false)
        (fun e => invalidate (ChangeIssuer_id changeIssuerEntity) e ;; ret true)
  end.

(** How the [switch] statement of the loop body is left: by [continue], or
    by [break] (and by falling out of [default]), after which the loop body
    has nothing more to do. *)
Inductive flow : Type :=
| Continue
| Break.

Definition continue_if (b : bool) : flow := if b then Continue else Break.

(** [switch (remark.interaction_type) { case OP_TYPES.MINT: ... default: ... }];
    the cases are tried in the order written, with [===]. *)
Definition switch_interaction_type (rmk : Remark) : M DB flow :=
  let case op := (interaction_type rmk =? op_value op)%string in
  if case MINT then b <- mint rmk ;; ret (continue_if b)
  else if case MINTNFT then b <- mintNFT rmk ;; ret (continue_if b)
  else if case SEND then b <- send rmk ;; ret (continue_if b)
  else if case BUY then b <- buy rmk ;; ret (continue_if b)
  else if case CONSUME then b <- consume rmk ;; ret (continue_if b)
  else if case LIST then b <- list_ rmk ;; ret (continue_if b)
  else if case EMOTE then b <- emote rmk ;; ret (continue_if b)
  else if case CHANGEISSUER then b <- changeIssuer rmk ;; ret (continue_if b)
  else
    console_error
      (template ["Unable to process this remark - wrong type: "; interaction_type rmk]) ;;
    ret Break.

(** [for (const remark of remarks) { switch ... }]. *)
Fixpoint for_of (remarks : list Remark) : M DB unit :=
  match remarks with
  | [] => ret tt
  | rmk :: rest =>
      f <- switch_interaction_type rmk ;;
      match f with
      | Continue => for_of rest
      | Break => for_of rest
      end
  end.

(** [consolidate(rmrks?)].  The members of the result are evaluated in the
    order written; [invalid] and [changes] are the instance's own arrays, read
    here as they are when the method returns. *)
Definition consolidate (rmrks : option (list Remark)) : M DB ConsolidatorReturnType :=
  let remarks := match rmrks with Some l => l | None => [] end in
  for_of remarks ;;
  all_nfts <- (if has_getAllNFTs adapter then dbAdapter getAllNFTs else ret []) ;;
  all_collections <-
    (if has_getAllCollections adapter then dbAdapter getAllCollections else ret []) ;;
  invalid <- get invalidCalls ;;
  emit <- get emitInteractionChanges ;;
  changes <- get interactionChanges ;;
  ret {| rt_nfts := all_nfts;
         rt_collections := all_collections;
         rt_invalid := invalid;
         rt_changes := if emit then Some changes else None;
         rt_lastBlock := None |}.

End Engine.

(** ** A sample instance

    Small stand-ins for what the engine imports and a store kept in memory,
    to run the engine on concrete remarks.  Remarks are written
    [RMRK::OP::1.0.0::field::field...]. *)

Module Sample.

Definition Reactions : Type := list (string * list string).
Definition Coll : Type := CollectionConsolidated unit unit.
Definition Item : Type := NFTConsolidated Reactions unit unit.

(** The fields of a remark, cut at every [::]. *)
Fixpoint fields_from (cur s : string) : list string :=
  match s with
  | EmptyString => [cur]
  | String ":" (String ":" rest) => cur :: fields_from "" rest
  | String c rest => fields_from (cur ++ String c "") rest
  end.

Definition fields (s : string) : list string := fields_from "" s.

Definition show (z : Z) : string := NilZero.string_of_int (Z.to_int z).

Definition hex_digit (n : N) : ascii :=
  match n with
  | 0 => "0" | 1 => "1" | 2 => "2" | 3 => "3" | 4 => "4" | 5 => "5" | 6 => "6"
  | 7 => "7" | 8 => "8" | 9 => "9" | 10 => "a" | 11 => "b" | 12 => "c"
  | 13 => "d" | 14 => "e" | _ => "f"
  end%N%char.

Definition digit_of_hex (c : ascii) : N :=
  let n := N_of_ascii c in
  if (n <? 58)%N then n - 48 else n - 87.

Fixpoint hex_of_bytes (bs : list Byte.byte) : string :=
  match bs with
  | [] => ""
  | b :: rest =>
      let n := Byte.to_N b in
      String (hex_digit (n / 16)) (String (hex_digit (n mod 16)) (hex_of_bytes rest))
  end.

Fixpoint bytes_of_hex (s : string) : list Byte.byte :=
  match s with
  | String hi (String lo rest) =>
      match Byte.of_N (16 * digit_of_hex hi + digit_of_hex lo) with
      | Some b => b :: bytes_of_hex rest
      | None => []
      end
  | _ => []
  end.

Definition alice : string := "5GrwvaEF5zXb26Fz9rcQpDWS57CtERHpNehXCPcNoHGKutQY".
Definition bob : string := "5FHneW46xGXgs5mUiveU4sbTyGBzmstUspZC92UhjJM694ty".

Definition alice_key : string :=
  "d43593c715fdd31c61141abd04a99fd6822c8558854ccde39a5684e7a56da27d".
Definition bob_key : string :=
  "8eaf04151687736326c9fea17e25fc5287613693c912909cb226aa4794f26a48".

Definition decode (address : string) : completion Uint8Array :=
  if (address =? alice)%string then Normal (bytes_of_hex alice_key)
  else if (address =? bob)%string then Normal (bytes_of_hex bob_key)
  else Throw (template ["Decoding "; address; ": Invalid decoded address checksum"]).

(** An identifier made of the first ten hexadecimal digits of the key, its
    last eight, a dash and the symbol. *)
Definition generate (pubkey symbol : string) : completion string :=
  if String.prefix "0x" pubkey
  then Normal (template [JS.substr 2 10 pubkey;
                         JS.substring (JS.length pubkey - 8) pubkey; "-"; symbol])
  else Throw "This is not a valid pubkey, it does not start with 0x".

Definition collection_of (b : Z) (id symbol issuer : string) : Coll :=
  {| col_block := b; col_name := symbol; col_max := 0; col_issuer := issuer;
     col_symbol := symbol; col_id := id; col_metadata := ""; col_changes := [];
     col_loadedMetadata := None; col_updatedAtBlock := None |}.

Definition item_of (b : Z) (collection instance sn owner : string) (forsale : Z)
  (burned : string) (reactions : Reactions) (updatedAtBlock : option Z) : Item :=
  {| nft_id := template [show b; "-"; collection; "-"; instance; "-"; sn];
     nft_block := b; nft_collection := collection; nft_name := instance;
     nft_instance := instance; nft_transferable := 1; nft_sn := sn;
     nft_metadata := None; nft_data := None; nft_forsale := forsale;
     nft_reactions := reactions; nft_changes := []; nft_owner := owner;
     nft_loadedMetadata := None; nft_burned := burned;
     nft_updatedAtBlock := updatedAtBlock |}.

(** The item with some of its fields changed. *)
Definition item_with (n : Item) (owner : string) (forsale : Z) (burned : string)
  (reactions : Reactions) (updatedAtBlock : option Z) : Item :=
  {| nft_id := nft_id n; nft_block := nft_block n; nft_collection := nft_collection n;
     nft_name := nft_name n; nft_instance := nft_instance n;
     nft_transferable := nft_transferable n; nft_sn := nft_sn n;
     nft_metadata := nft_metadata n; nft_data := nft_data n; nft_forsale := forsale;
     nft_reactions := reactions; nft_changes := nft_changes n; nft_owner := owner;
     nft_loadedMetadata := nft_loadedMetadata n; nft_burned := burned;
     nft_updatedAtBlock := updatedAtBlock |}.

Definition collection_with (c : Coll) (issuer : string) (updatedAtBlock : option Z) : Coll :=
  {| col_block := col_block c; col_name := col_name c; col_max := col_max c;
     col_issuer := issuer; col_symbol := col_symbol c; col_id := col_id c;
     col_metadata := col_metadata c; col_changes := col_changes c;
     col_loadedMetadata := col_loadedMetadata c; col_updatedAtBlock := updatedAtBlock |}.

Definition names (op : OP_TYPES) : string :=
  match op with
  | BUY => "BUY" | LIST => "LIST" | MINT => "MINT" | MINTNFT => "MINTNFT"
  | SEND => "SEND" | EMOTE => "EMOTE" | CHANGEISSUER => "CHANGEISSUER"
  | CONSUME => "CONSUME"
  end.

Definition not_a_remark : string := "Invalid remark - does not match the standard".

Definition parse_collection (s : string) (b : Z) : parsed Coll :=
  match fields s with
  | ["RMRK"; "MINT"; "1.0.0"; id; symbol; issuer] => Entity (collection_of b id symbol issuer)
  | _ => Dead not_a_remark
  end.

Definition parse_item (s : string) (b : Z) : parsed Item :=
  match fields s with
  | ["RMRK"; "MINTNFT"; "1.0.0"; collection; instance; sn] =>
      Entity (item_of b collection instance sn "" 0 "" [] None)
  | _ => Dead not_a_remark
  end.

(** A request made of an item's or collection's id and one more field. *)
Definition parse_request (op s : string) : parsed (string * string) :=
  match fields s with
  | ["RMRK"; op'; "1.0.0"; id; extra] =>
      if (op' =? op)%string then Entity (id, extra) else Dead not_a_remark
  | _ => Dead not_a_remark
  end.

Definition parse_changeIssuer (rmk : Remark) : completion (string * string) :=
  match parse_request "CHANGEISSUER" (remark rmk) with
  | Entity e => Normal e
  | Dead reason => Throw (template ["[CHANGEISSUER] Dead before instantiation: "; reason])
  end.

(** The validation rules of the sample: the item must exist, must not be
    burned, and (when [owned]) must belong to the caller. *)
Definition check_item (op : string) (owned : bool) (rmk : Remark) (id : string)
  (nft : option Item) (change : Item -> Item) : completion (option Item) :=
  match nft with
  | None => Throw (template ["["; op; "] Attempting to use non-existant NFT "; id])
  | Some n =>
      if negb (nft_burned n =? "")%string
      then Throw (template ["["; op; "] Attempting to use burned NFT "; id])
      else if owned && negb (nft_owner n =? caller rmk)%string
      then Throw (template ["["; op; "] Attempting to use non-owned NFT "; id])
      else Normal (Some (change n))
  end.

Definition price (s : string) : Z :=
  match NilZero.int_of_string s with
  | Some i => Z.of_int i
  | None => 0
  end.

(** The caller joins or leaves those who reacted with [unicode]. *)
Fixpoint toggle (unicode who : string) (r : Reactions) : Reactions :=
  match r with
  | [] => [(unicode, [who])]
  | (u, l) :: rest =>
      if (u =? unicode)%string
      then (u, if existsb (String.eqb who) l
               then filter (fun a => negb (a =? who)%string) l
               else l ++ [who]) :: rest
      else (u, l) :: toggle unicode who rest
  end.

Definition validate_item (rmk : Remark) (nft : Item) (collection : option Coll)
  : completion unit * Item :=
  match collection with
  | None =>
      (Throw (template ["NFT referencing non-existant parent collection ";
                        nft_collection nft]), nft)
  | Some c =>
      let nft := item_with nft (col_issuer c) 0 "" [] None in
      if (caller rmk =? col_issuer c)%string
      then (Normal tt, nft)
      else (Throw (template ["Attempted issue of NFT in non-owned collection. Issuer: ";
                             col_issuer c; ", caller: "; caller rmk]), nft)
  end.

Definition change_issuer (rmk : Remark) (e : string * string) (collection : option Coll)
  : completion (option Coll) :=
  match collection with
  | None =>
      Throw (template ["This CHANGEISSUER remark is invalid - no such collection with ID ";
                       fst e; " found before block "; show (block rmk); "!"])
  | Some c =>
      if (caller rmk =? col_issuer c)%string
      then Normal (Some (collection_with c (snd e) (col_updatedAtBlock c)))
      else Throw (template ["Attempting to change issuer of collection "; fst e;
                            " when not issuer!"])
  end.

#[export] Instance rmrk : Rmrk := {|
  Reactionmap := Reactions;
  Change := unit;
  NFTMetadata := unit;
  CollectionMetadata := unit;
  Collection := Coll;
  NFT := Item;
  Send := string * string;
  List := string * string;
  Consume := string * string;
  Buy := string * string;
  Emote := string * string;
  ChangeIssuer := string * string;
  op_value := names;
  Collection_id := @col_id unit unit;
  Collection_symbol := @col_symbol unit unit;
  getId := @nft_id Reactions unit unit;
  NFT_collection := @nft_collection Reactions unit unit;
  Send_id := fst;
  List_id := fst;
  Consume_id := fst;
  Buy_id := fst;
  Emote_id := fst;
  ChangeIssuer_id := fst;
  Collection_fromRemark := parse_collection;
  NFT_fromRemark := parse_item;
  Send_fromRemark := parse_request "SEND";
  List_fromRemark := parse_request "LIST";
  Consume_fromRemark := parse_request "CONSUME";
  Buy_fromRemark := parse_request "BUY";
  Emote_fromRemark := parse_request "EMOTE";
  getChangeIssuerEntity := parse_changeIssuer;
  generateId := generate;
  decodeAddress := decode;
  u8aToHex := fun bs => ("0x" ++ hex_of_bytes bs)%string;
  consolidatedCollectionToInstance := fun c => c;
  consolidatedNFTtoInstance := fun n => n;
  validateMintNFT := validate_item;
  sendInteraction := fun rmk e nft =>
    check_item "SEND" true rmk (fst e) nft
      (fun n => item_with n (snd e) 0 (nft_burned n) (nft_reactions n) (nft_updatedAtBlock n));
  listForSaleInteraction := fun rmk e nft =>
    check_item "LIST" true rmk (fst e) nft
      (fun n => item_with n (nft_owner n) (price (snd e)) (nft_burned n) (nft_reactions n)
                  (nft_updatedAtBlock n));
  consumeInteraction := fun rmk e nft =>
    check_item "CONSUME" true rmk (fst e) nft
      (fun n => item_with n (nft_owner n) (nft_forsale n) (snd e) (nft_reactions n)
                  (nft_updatedAtBlock n));
  buyInteraction := fun rmk e nft _ =>
    match nft with
    | Some n =>
        if nft_forsale n =? 0
        then Throw (template ["[BUY] Attempting to buy not-for-sale NFT "; fst e])
        else check_item "BUY" false rmk (fst e) nft
               (fun n => item_with n (caller rmk) 0 (nft_burned n) (nft_reactions n)
                           (nft_updatedAtBlock n))
    | None => check_item "BUY" false rmk (fst e) nft (fun n => n)
    end;
  emoteInteraction := fun rmk e nft _ =>
    check_item "EMOTE" false rmk (fst e) nft
      (fun n => item_with n (nft_owner n) (nft_forsale n) (nft_burned n)
                  (toggle (snd e) (caller rmk) (nft_reactions n)) (nft_updatedAtBlock n));
  changeIssuerInteraction := change_issuer
|}.

(** *** A store kept in memory *)

Record Store : Type := mkStore {
  items : list Item;
  colls : list Coll
}.

Definition empty : Store := mkStore [] [].

(** The entry with that key, and the list with an entry put at its key. *)
Definition lookup {A : Type} (key : A -> string) (id : string) (l : list A) : option A :=
  find (fun x => (key x =? id)%string) l.

Definition put {A : Type} (key : A -> string) (a : A) (l : list A) : list A :=
  if existsb (fun x => (key x =? key a)%string) l
  then map (fun x => if (key x =? key a)%string then a else x) l
  else l ++ [a].

Definition stamped (n : Item) (b : Z) : Item :=
  item_with n (nft_owner n) (nft_forsale n) (nft_burned n) (nft_reactions n) (Some b).

Definition put_item (n : Item) (b : Z) (l : list Item) : list Item :=
  put (@nft_id Reactions unit unit) (stamped n b) l.

Definition put_collection (c : Coll) (l : list Coll) : list Coll :=
  put (@col_id unit unit) c l.

Definition find_item (id : string) (db : Store) : option Item :=
  lookup (@nft_id Reactions unit unit) id (items db).

Definition find_collection (id : string) (db : Store) : option Coll :=
  lookup (@col_id unit unit) id (colls db).

Definition serve (m : Method) : Store -> completion (Response m) * Store :=
  match m as m0 return Store -> completion (Response m0) * Store with
  | getCollectionById id => fun db => (Normal (find_collection id db), db)
  | getNFTById id => fun db => (Normal (find_item id db), db)
  | getNFTByIdUnique id => fun db => (Normal (find_item id db), db)
  | updateCollectionMint c =>
      fun db => (Normal tt, mkStore (items db) (put_collection c (colls db)))
  | updateCollectionIssuer c _ b =>
      fun db =>
        (Normal tt,
         mkStore (items db) (put_collection (collection_with c (col_issuer c) (Some b)) (colls db)))
  | updateNFTMint n b
  | updateNFTSend n _ b
  | updateNFTList n _ b
  | updateNFTConsume n _ b
  | updateNFTBuy n _ b
  | updateNFTEmote n _ b =>
      fun db => (Normal tt, mkStore (put_item n b (items db)) (colls db))
  | getAllNFTs => fun db => (Normal (items db), db)
  | getAllCollections => fun db => (Normal (colls db), db)
  end.

(** The store with its two bulk readers, and the same without them. *)
Definition memory : IConsolidatorAdapter Store :=
  {| invoke := serve; has_getAllNFTs := true; has_getAllCollections := true |}.

Definition write_only : IConsolidatorAdapter Store :=
  {| invoke := serve; has_getAllNFTs := false; has_getAllCollections := false |}.

(** A fresh world around a new instance. *)
Definition fresh (emitEmote emitInteraction : option bool) : World Store :=
  mkWorld (new_Consolidator None emitEmote emitInteraction) empty [] [].

Definition mint_dlep : Remark :=
  mkRemark 5 alice "MINT" "RMRK::MINT::1.0.0::d43593c715a56da27d-DLEP::DLEP::5GrwvaEF5zXb26Fz9rcQpDWS57CtERHpNehXCPcNoHGKutQY".

Definition mint_item1 : Remark :=
  mkRemark 6 alice "MINTNFT" "RMRK::MINTNFT::1.0.0::d43593c715a56da27d-DLEP::DLEP1::0000000000000001".

(** A remark of a kind the engine does not know. *)
Definition resadd : Remark :=
  mkRemark 7 alice "RESADD" "RMRK::RESADD::2.0.0::6-d43593c715a56da27d-DLEP-DLEP1-0000000000000001".

(** Bob reacts to the item, in the block of its mint and in a later one. *)
Definition emote_at (b : Z) : Remark :=
  mkRemark b bob "EMOTE" "RMRK::EMOTE::1.0.0::6-d43593c715a56da27d-DLEP-DLEP1-0000000000000001::1F389".

(** A remark that does not parse. *)
Definition mint_garbled : Remark := mkRemark 5 alice "MINT" "RMRK::MINT::1.0.0".

(** A symbol of 47 characters that ends with the last eight digits of
    Alice's key, and the mint of that collection by Alice. *)
Definition long_symbol : string := "CCCCCCCCCCCCCCCCCCCCCCCCCCCCCCCCCCCCCCCa56da27d".

Definition long_id : string := "d43593c715a56da27d-CCCCCCCCCCCCCCCCCCCCCCCCCCCCCCCCCCCCCCCa56da27d".

Definition mint_long : Remark :=
  mkRemark 5 alice "MINT"
    (template ["RMRK::MINT::1.0.0::"; long_id; "::"; long_symbol; "::"; alice]).

(** The item is listed for 100, and sent to Bob, by [who]. *)
Definition list_by (who : string) : Remark :=
  mkRemark 8 who "LIST" "RMRK::LIST::1.0.0::6-d43593c715a56da27d-DLEP-DLEP1-0000000000000001::100".

Definition send_by (who : string) : Remark :=
  mkRemark 8 who "SEND"
    (template ["RMRK::SEND::1.0.0::6-d43593c715a56da27d-DLEP-DLEP1-0000000000000001::"; bob]).

(** *** Sample runs *)

(** The snapshot a run returned (an empty one if it threw). *)
Definition snapshot_of (run : completion ConsolidatorReturnType * World Store)
  : ConsolidatorReturnType :=
  match fst run with
  | Normal snap => snap
  | Throw _ => mkConsolidatorReturnType [] [] [] None None
  end.

(** Two remarks, the second of which does not parse, on a new instance that
    emits the changes. *)
Definition garbled_snapshot : ConsolidatorReturnType :=
  Eval vm_compute in
    snapshot_of (consolidate memory (Some [mint_dlep; mint_garbled]) (fresh None (Some true))).

(** Two runs on one instance. *)
Definition first_snapshot : ConsolidatorReturnType :=
  Eval vm_compute in
    snapshot_of (consolidate memory (Some [mint_garbled; mint_dlep]) (fresh None (Some true))).

Definition second_snapshot : ConsolidatorReturnType :=
  Eval vm_compute in
    snapshot_of
      (consolidate memory (Some [mint_dlep; mint_item1])
         (snd (consolidate memory (Some [mint_garbled; mint_dlep]) (fresh None (Some true))))).

(** The world after the collection and one item were minted, the item as the
    store has it then, and as Bob's reaction leaves it. *)
Definition minted : World Store :=
  snd (consolidate memory (Some [mint_dlep; mint_item1]) (fresh None (Some true))).

Definition dlep : Coll := collection_of 5 "d43593c715a56da27d-DLEP" "DLEP" alice.

Definition dlep1 : Item :=
  item_of 6 "d43593c715a56da27d-DLEP" "DLEP1" "0000000000000001" alice 0 "" [] (Some 6).

Definition dlep1_reacted : Item :=
  item_of 6 "d43593c715a56da27d-DLEP" "DLEP1" "0000000000000001" alice 0 ""
    [("1F389", [bob])] (Some 6).

Definition reaction : string * string :=
  ("6-d43593c715a56da27d-DLEP-DLEP1-0000000000000001", "1F389").

(** Alice mints a collection whose symbol makes the two fragments agree. *)
Definition long_collection : Coll := collection_of 5 long_id long_symbol alice.

Definition alice_hex : string :=
  "0xd43593c715fdd31c61141abd04a99fd6822c8558854ccde39a5684e7a56da27d".

(** The item as its remark parses, before validation gives it an owner. *)
Definition dlep1_parsed : Item :=
  item_of 6 "d43593c715a56da27d-DLEP" "DLEP1" "0000000000000001" "" 0 "" [] None.

End Sample.

(** ** What the properties are stated with *)

Section Vocabulary.

Context {P : Rmrk} {DB : Type} (adapter : IConsolidatorAdapter DB).

(** The computation [m] takes every world to one that [R] relates to it. *)
Definition preserves (R : World DB -> World DB -> Prop) {A : Type} (m : M DB A) : Prop :=
  forall w, R w (snd (m w)).

(** [c'] is [c] with entries pushed on its four arrays. *)
Definition extends (c c' : Consolidator) : Prop :=
  (exists l, invalidCalls c' = invalidCalls c ++ l) /\
  (exists l, collections c' = collections c ++ l) /\
  (exists l, nfts c' = nfts c ++ l) /\
  (exists l, interactionChanges c' = interactionChanges c ++ l) /\
  ss58Format c' = ss58Format c /\
  emitEmoteChanges c' = emitEmoteChanges c /\
  emitInteractionChanges c' = emitInteractionChanges c.

(** The store after the methods [ms] were called one after the other. *)
Fixpoint run_methods (ms : list Method) (db : DB) : DB :=
  match ms with
  | [] => db
  | m :: rest => run_methods rest (snd (invoke adapter m db))
  end.

(** From [w] to [w'] the adapter was called with [ms], in that order, and
    nothing else touched the store. *)
Definition called (ms : list Method) (w w' : World DB) : Prop :=
  calls w' = calls w ++ ms /\ store w' = run_methods ms (store w).

Definition through_adapter (w w' : World DB) : Prop := exists ms, called ms w w'.

(** [rmrks || []]. *)
Definition remarks_of (rmrks : option (list Remark)) : list Remark :=
  match rmrks with
  | Some l => l
  | None => []
  end.

(** The bulk reader [m] if the adapter has it, else the empty array. *)
Definition read_all (has : bool) (m : Method) (empty : Response m) : M DB (Response m) :=
  if has then dbAdapter adapter m else ret empty.

(** The line written for a remark of an unknown kind. *)
Definition wrong_type (rmk : Remark) : string :=
  template ["Unable to process this remark - wrong type: "; interaction_type rmk].

(** No method of the adapter throws, whatever the store. *)
Definition adapter_never_throws : Prop :=
  forall (m : Method) (db : DB), exists r, fst (invoke adapter m db) = Normal r.

(** The computation completes normally from every world. *)
Definition returns {A : Type} (m : M DB A) : Prop :=
  forall w, exists a, fst (m w) = Normal a.

(** The handler [h] returns [true] whatever happened: the ledger is as it was
    (the operation went through) or has one more entry (it did not). *)
Definition always_true (h : Remark -> M DB bool) : Prop :=
  forall rmk w b w',
    h rmk w = (Normal b, w') ->
    b = true /\
    (invalidCalls (this w') = invalidCalls (this w) \/
     exists e, invalidCalls (this w') = invalidCalls (this w) ++ [e]).

(** The handler [h] returns [false] when the operation went through, [true]
    when it put an entry in the ledger. *)
Definition false_on_success (h : Remark -> M DB bool) : Prop :=
  forall rmk w b w',
    h rmk w = (Normal b, w') ->
    (b = false /\ invalidCalls (this w') = invalidCalls (this w)) \/
    (b = true /\ exists e, invalidCalls (this w') = invalidCalls (this w) ++ [e]).

(** The loop with the flags thrown away: every remark goes through the
    [switch], one after the other. *)
Definition dispatch_each (remarks : list Remark) : M DB unit :=
  fold_right (fun rmk rest => switch_interaction_type adapter rmk ;; rest) (ret tt) remarks.

(** The instance after [if (this.emitInteractionChanges) this.interactionChanges.push(e)]. *)
Definition with_change (e : OP_TYPES * string) (c : Consolidator) : Consolidator :=
  if emitInteractionChanges c then push_interactionChanges e c else c.

(** The two fragments of the generated id and of the key that
    [validateMintIds] compares, as it computes them. *)
Definition fragments_agree (pubkeyString id : string) : bool :=
  (JS.substr 0 8 id =? JS.substr 2 8 pubkeyString)%string &&
  (JS.substring (JS.length pubkeyString - 8) id
   =? JS.substring (JS.length pubkeyString - 8) pubkeyString)%string.

(** The error of [validateMintIds]. *)
Definition does_not_match (pubkeyString id : string) : string :=
  template ["Caller's pubkey "; pubkeyString; " ("; id; ") does not match generated ID"].

(** The adapter finds a collection, an item, of that id in the store. *)
Definition has_collection (db : DB) (id : string) : Prop :=
  exists c, fst (invoke adapter (getCollectionById id) db) = Normal (Some c).

Definition has_nft (db : DB) (id : string) : Prop :=
  exists n, fst (invoke adapter (getNFTByIdUnique id) db) = Normal (Some n).

(** What the engine relies on when it asks whether an entity exists: a mint
    that went through is found afterwards, and what is found stays found
    whatever is called next (the adapter has no method that deletes). *)
Record keeps_entities : Prop := {
  minted_collection_is_found :
    forall c db db',
      invoke adapter (updateCollectionMint c) db = (Normal tt, db') ->
      has_collection db' (Collection_id c);
  minted_nft_is_found :
    forall n b db db',
      invoke adapter (updateNFTMint n b) db = (Normal tt, db') ->
      has_nft db' (getId n);
  collection_stays :
    forall m db id, has_collection db id -> has_collection (snd (invoke adapter m db)) id;
  nft_stays :
    forall m db id, has_nft db id -> has_nft (snd (invoke adapter m db)) id
}.

(** The calls that persist a new collection, a new item, of that id. *)
Definition mints_collection (id : string) (m : Method) : bool :=
  match m with
  | updateCollectionMint c => (Collection_id c =? id)%string
  | _ => false
  end.

Definition mints_nft (id : string) (m : Method) : bool :=
  match m with
  | updateNFTMint n _ => (getId n =? id)%string
  | _ => false
  end.

Definition collection_is (id : string) (c : Collection) : bool := (Collection_id c =? id)%string.

Definition nft_is (id : string) (n : NFT) : bool := (getId n =? id)%string.

(** From [w] to [w'] no collection of that id was persisted or recorded on
    the instance. *)
Definition no_collection_minted (id : string) (w w' : World DB) : Prop :=
  exists ms cs,
    calls w' = calls w ++ ms /\ existsb (mints_collection id) ms = false /\
    collections (this w') = collections (this w) ++ cs /\
    existsb (collection_is id) cs = false.

Definition no_nft_minted (id : string) (w w' : World DB) : Prop :=
  exists ms ns,
    calls w' = calls w ++ ms /\ existsb (mints_nft id) ms = false /\
    nfts (this w') = nfts (this w) ++ ns /\
    existsb (nft_is id) ns = false.

(** [validateMintNFT] leaves the id of the item it checks as it is. *)
Definition validation_keeps_id : Prop :=
  forall rmk nft collection, getId (snd (validateMintNFT rmk nft collection)) = getId nft.

(** The entries the ledger gets for a mint of something that exists. *)
Definition already_existing_collection (rmk : Remark) (collection : Collection) : InvalidCall :=
  {| ic_op_type := op_value MINT;
     ic_block := block rmk;
     ic_caller := caller rmk;
     ic_object_id := Collection_id collection;
     ic_message :=
       template ["["; op_value MINT; "] Attempt to mint already existing collection"] |}.

Definition already_existing_nft (rmk : Remark) (nft : NFT) : InvalidCall :=
  {| ic_op_type := op_value MINTNFT;
     ic_block := block rmk;
     ic_caller := caller rmk;
     ic_object_id := getId nft;
     ic_message := template ["["; op_value MINTNFT; "] Attempt to mint already existing NFT"] |}.

End Vocabulary.

(** ** What is said of the ledger and of the calls of a run *)

Section Traces.

Context {P : Rmrk} {DB : Type} (adapter : IConsolidatorAdapter DB).

(** The entry that [updateInvalidCalls(op_type, remark)] pushes for
    [(object_id, message)]. *)
Definition invalid_entry (op_type : string) (rmk : Remark) (object_id message : string)
  : InvalidCall :=
  {| ic_op_type := op_type;
     ic_block := block rmk;
     ic_caller := caller rmk;
     ic_object_id := object_id;
     ic_message := message |}.

(** The entry [e] was made for the remark [rmk]: it has its block, its
    caller and its kind. *)
Definition entry_of (rmk : Remark) (e : InvalidCall) : Prop :=
  ic_block e = block rmk /\ ic_caller e = caller rmk /\ ic_op_type e = interaction_type rmk.

(** The entries are entries of some of the remarks, in the order of the
    remarks, one for a remark at most. *)
Inductive entries_of : list Remark -> list InvalidCall -> Prop :=
| entries_done : entries_of [] []
| entries_skip rmk rest l : entries_of rest l -> entries_of (rmk :: rest) l
| entries_keep rmk rest e l :
    entry_of rmk e -> entries_of rest l -> entries_of (rmk :: rest) (e :: l).

(** From [w] to [w'] the ledger got no entry, or one entry for [rmk] of
    that kind. *)
Definition recorded_at_most_once (op_type : string) (rmk : Remark) (w w' : World DB) : Prop :=
  invalidCalls (this w') = invalidCalls (this w) \/
  exists object_id message,
    invalidCalls (this w') = invalidCalls (this w) ++ [invalid_entry op_type rmk object_id message].

(** The methods that write, and the two that read everything. *)
Definition is_update (m : Method) : bool :=
  match m with
  | updateCollectionMint _ | updateCollectionIssuer _ _ _ | updateNFTMint _ _
  | updateNFTSend _ _ _ | updateNFTList _ _ _ | updateNFTConsume _ _ _
  | updateNFTBuy _ _ _ | updateNFTEmote _ _ _ => true
  | _ => false
  end.

Definition bulk_reader (m : Method) : bool :=
  match m with
  | getAllNFTs | getAllCollections => true
  | _ => false
  end.

Definition completed {A : Type} (c : completion A) : bool :=
  match c with
  | Normal _ => true
  | Throw _ => false
  end.

(** Of the calls [ms], made one after the other from the store [db], those
    that completed normally. *)
Fixpoint completed_calls (ms : list Method) (db : DB) : list Method :=
  match ms with
  | [] => []
  | m :: rest =>
      (if completed (fst (invoke adapter m db)) then [m] else [])
      ++ completed_calls rest (snd (invoke adapter m db))
  end.

(** Those that threw, with what they threw. *)
Fixpoint failures (ms : list Method) (db : DB) : list (Method * string) :=
  match ms with
  | [] => []
  | m :: rest =>
      match fst (invoke adapter m db) with
      | Throw e => [(m, e)]
      | Normal _ => []
      end ++ failures rest (snd (invoke adapter m db))
  end.

(** No read among the calls threw. *)
Definition reads_completed (ms : list Method) (db : DB) : bool :=
  forallb (fun f => is_update (fst f)) (failures ms db).

(** What the first update that threw, among the calls, threw. *)
Definition failed_update (ms : list Method) (db : DB) : option string :=
  match find (fun f => is_update (fst f)) (failures ms db) with
  | Some (_, e) => Some e
  | None => None
  end.

(** The collections and the items that the calls persist as new, and the
    change entries that go with the calls: [{ [OP]: id }] for the update of
    that operation on the entity of that id. *)
Definition minted_collections (ms : list Method) : list Collection :=
  flat_map (fun m => match m with updateCollectionMint c => [c] | _ => [] end) ms.

Definition minted_nfts (ms : list Method) : list NFT :=
  flat_map (fun m => match m with updateNFTMint n _ => [n] | _ => [] end) ms.

Definition change_of (m : Method) : list (OP_TYPES * string) :=
  match m with
  | updateCollectionMint c => [(MINT, Collection_id c)]
  | updateCollectionIssuer c _ _ => [(CHANGEISSUER, Collection_id c)]
  | updateNFTMint n _ => [(MINTNFT, getId n)]
  | updateNFTSend n _ _ => [(SEND, getId n)]
  | updateNFTList n _ _ => [(LIST, getId n)]
  | updateNFTConsume n _ _ => [(CONSUME, getId n)]
  | updateNFTBuy n _ _ => [(BUY, getId n)]
  | updateNFTEmote n _ _ => [(EMOTE, getId n)]
  | _ => []
  end.

Definition changes_of (ms : list Method) : InteractionChanges := flat_map change_of ms.

(** From [w] to [w'] the adapter was called with [ms], and the instance's
    arrays of collections, of items and of changes grew by what the calls
    that completed say. *)
Definition mirrors (ms : list Method) (w w' : World DB) : Prop :=
  called adapter ms w w' /\
  collections (this w') = collections (this w) ++ minted_collections (completed_calls ms (store w)) /\
  nfts (this w') = nfts (this w) ++ minted_nfts (completed_calls ms (store w)) /\
  interactionChanges (this w')
  = interactionChanges (this w)
    ++ (if emitInteractionChanges (this w) then changes_of (completed_calls ms (store w)) else []) /\
  emitInteractionChanges (this w') = emitInteractionChanges (this w).

(** How a run that made the calls [ms] from the world [w] ended: normally
    when every read completed; with what a read threw, that read being the
    last call, when one did not. *)
Definition ends_as_reads_do {A : Type} (ms : list Method) (w : World DB)
  (run : completion A * World DB) : Prop :=
  called adapter ms w (snd run) /\
  match fst run with
  | Normal _ => reads_completed ms (store w) = true
  | Throw e =>
      exists ms0 m,
        ms = ms0 ++ [m] /\ is_update m = false /\
        reads_completed ms0 (store w) = true /\
        fst (invoke adapter m (run_methods adapter ms0 (store w))) = Throw e
  end.

(** From [w] to [w'], by the calls [ms]: one update call at most, and the
    ledger as it was unless no update completed. *)
Definition applied_or_recorded (ms : list Method) (w w' : World DB) : Prop :=
  called adapter ms w w' /\
  (List.length (filter is_update ms) <= 1)%nat /\
  (invalidCalls (this w') = invalidCalls (this w) \/
   filter is_update (completed_calls ms (store w)) = []).

(** An update that threw among the calls [ms] of a remark left the remark
    in the ledger, with what it threw, and the handler returned [true]. *)
Definition failure_recorded {A : Type} (op_type : string) (rmk : Remark) (continue : A)
  (ms : list Method) (w : World DB) (run : completion A * World DB) : Prop :=
  called adapter ms w (snd run) /\
  match failed_update ms (store w) with
  | Some e =>
      fst run = Normal continue /\
      exists object_id,
        invalidCalls (this (snd run))
        = invalidCalls (this w) ++ [invalid_entry op_type rmk object_id e]
  | None => True
  end.

(** The remark reached the adapter, by a read first, or it is in the ledger
    word for word and the adapter was not called. *)
Definition looked_up_or_recorded (op_type : string) (rmk : Remark) (w w' : World DB) : Prop :=
  (exists m ms, calls w' = calls w ++ m :: ms /\ is_update m = false) \/
  (calls w' = calls w /\ store w' = store w /\
   exists message,
     invalidCalls (this w')
     = invalidCalls (this w) ++ [invalid_entry op_type rmk (remark rmk) message]).

(** The kinds the [switch] has a case for. *)
Definition known_kind (rmk : Remark) : bool :=
  existsb (fun op => (interaction_type rmk =? op_value op)%string)
    [MINT; MINTNFT; SEND; BUY; CONSUME; LIST; EMOTE; CHANGEISSUER].

(** What the engine has read when it calls [m].  [history] lists the calls
    made before [m], the latest first, each with the store it was made
    from.  An update of an entity comes right after the lookup of it and
    carries the record that the lookup returned; a mint comes right after
    the lookups that found nothing. *)
Definition reads_before_it_writes (history : list (Method * DB)) (m : Method) : Prop :=
  match m with
  | updateCollectionMint c =>
      exists db rest,
        history = (getCollectionById (Collection_id c), db) :: rest /\
        fst (invoke adapter (getCollectionById (Collection_id c)) db) = Normal None
  | updateCollectionIssuer _ consolidated _ =>
      exists id db rest,
        history = (getCollectionById id, db) :: rest /\
        fst (invoke adapter (getCollectionById id) db) = Normal (Some consolidated)
  | updateNFTMint _ _ =>
      exists parent db id db0 rest,
        history = (getCollectionById parent, db) :: (getNFTByIdUnique id, db0) :: rest /\
        fst (invoke adapter (getNFTByIdUnique id) db0) = Normal None
  | updateNFTSend _ consolidated _
  | updateNFTList _ consolidated _
  | updateNFTConsume _ consolidated _
  | updateNFTBuy _ consolidated _ =>
      exists id db rest,
        history = (getNFTByIdUnique id, db) :: rest /\
        fst (invoke adapter (getNFTByIdUnique id) db) = Normal (Some consolidated)
  | updateNFTEmote _ consolidated updatedAtBlock =>
      exists id db rest,
        history = (getNFTById id, db) :: rest /\
        fst (invoke adapter (getNFTById id) db) = Normal (Some consolidated) /\
        Some updatedAtBlock <> nft_updatedAtBlock consolidated
  | _ => True
  end.

(** Every call of [ms], made one after the other from the store [db] after
    the calls of [history], is made as said above. *)
Fixpoint reads_before_writes (history : list (Method * DB)) (ms : list Method) (db : DB)
  : Prop :=
  match ms with
  | [] => True
  | m :: rest =>
      reads_before_it_writes history m /\
      reads_before_writes ((m, db) :: history) rest (snd (invoke adapter m db))
  end.

Definition keeps_protocol (w w' : World DB) : Prop :=
  exists ms, called adapter ms w w' /\ reads_before_writes [] ms (store w).

(** Two worlds that differ in the list of the calls made so far at most. *)
Definition apart_from_calls (w1 w2 : World DB) : Prop :=
  this w1 = this w2 /\ store w1 = store w2 /\ console w1 = console w2.

(** The computation does not look at the calls made so far. *)
Definition ignores_calls {A : Type} (m : M DB A) : Prop :=
  forall w1 w2,
    apart_from_calls w1 w2 ->
    fst (m w1) = fst (m w2) /\ apart_from_calls (snd (m w1)) (snd (m w2)).

(** The two bulk readers leave the store as it is. *)
Definition bulk_readers_only_read : Prop :=
  forall db,
    snd (invoke adapter getAllNFTs db) = db /\ snd (invoke adapter getAllCollections db) = db.

(** The update [m] is what a handler makes of the remark [rmk] once the
    remark is parsed and the validation has accepted it: the update carries
    the instance as the validation left it and the block of the remark.
    [format] and [emitEmote] are the instance's [ss58Format] and
    [emitEmoteChanges]. *)
Definition validated (format : option Z) (emitEmote : bool) (rmk : Remark) (m : Method)
  : Prop :=
  match m with
  | updateCollectionMint collection =>
      getCollectionFromRemark rmk = Normal collection /\
      validateMintIds collection rmk = Normal tt
  | updateNFTMint nft updatedAtBlock =>
      exists parsed collection,
        NFT_fromRemark (remark rmk) (block rmk) = Entity parsed /\
        validateMintNFT rmk parsed collection = (Normal tt, nft) /\
        updatedAtBlock = block rmk
  | updateNFTSend nft consolidated updatedAtBlock =>
      exists e,
        Send_fromRemark (remark rmk) = Entity e /\
        sendInteraction rmk e (consolidatedNFTtoInstance (Some consolidated))
        = Normal (Some nft) /\
        updatedAtBlock = block rmk
  | updateNFTList nft consolidated updatedAtBlock =>
      exists e,
        List_fromRemark (remark rmk) = Entity e /\
        listForSaleInteraction rmk e (consolidatedNFTtoInstance (Some consolidated))
        = Normal (Some nft) /\
        updatedAtBlock = block rmk
  | updateNFTConsume nft consolidated updatedAtBlock =>
      exists e,
        Consume_fromRemark (remark rmk) = Entity e /\
        consumeInteraction rmk e (consolidatedNFTtoInstance (Some consolidated))
        = Normal (Some nft) /\
        updatedAtBlock = block rmk
  | updateNFTBuy nft consolidated updatedAtBlock =>
      exists e,
        Buy_fromRemark (remark rmk) = Entity e /\
        buyInteraction rmk e (consolidatedNFTtoInstance (Some consolidated)) format
        = Normal (Some nft) /\
        updatedAtBlock = block rmk
  | updateNFTEmote nft consolidated updatedAtBlock =>
      exists e,
        Emote_fromRemark (remark rmk) = Entity e /\
        emoteInteraction rmk e (consolidatedNFTtoInstance (Some consolidated)) emitEmote
        = Normal (Some nft) /\
        updatedAtBlock = block rmk
  | updateCollectionIssuer collection consolidated updatedAtBlock =>
      exists e,
        getChangeIssuerEntity rmk = Normal e /\
        changeIssuerInteraction rmk e (consolidatedCollectionToInstance (Some consolidated))
        = Normal (Some collection) /\
        updatedAtBlock = block rmk
  | _ => True
  end.

(** From [w] to [w'] the adapter was called with [ms], and each update
    among them was validated for the remark [rmk]. *)
Definition writes_what_was_validated (rmk : Remark) (w w' : World DB) : Prop :=
  exists ms,
    called adapter ms w w' /\
    Forall (validated (ss58Format (this w)) (emitEmoteChanges (this w)) rmk) ms.

(** The same for a sequence of remarks: each update was validated for one
    of them. *)
Definition writes_what_was_validated_of (remarks : list Remark) (w w' : World DB) : Prop :=
  exists ms,
    called adapter ms w w' /\
    Forall
      (fun m =>
         is_update m = true ->
         exists rmk,
           In rmk remarks /\
           validated (ss58Format (this w)) (emitEmoteChanges (this w)) rmk m)
      ms.

(** The kind of a remark: the first case of the [switch] that its
    [interaction_type] meets; and the handler of each kind. *)
Definition kind_of (rmk : Remark) : option OP_TYPES :=
  let case op := (interaction_type rmk =? op_value op)%string in
  if case MINT then Some MINT
  else if case MINTNFT then Some MINTNFT
  else if case SEND then Some SEND
  else if case BUY then Some BUY
  else if case CONSUME then Some CONSUME
  else if case LIST then Some LIST
  else if case EMOTE then Some EMOTE
  else if case CHANGEISSUER then Some CHANGEISSUER
  else None.

Definition handler (op : OP_TYPES) : Remark -> M DB bool :=
  match op with
  | MINT => mint adapter
  | MINTNFT => mintNFT adapter
  | SEND => send adapter
  | BUY => buy adapter
  | CONSUME => consume adapter
  | LIST => list_ adapter
  | EMOTE => emote adapter
  | CHANGEISSUER => changeIssuer adapter
  end.

(** The message for an entity that its parser gave up on. *)
Definition dead_before_instantiation (op : OP_TYPES) (reason : string) : string :=
  template ["["; op_value op; "] Dead before instantiation: "; reason].

(** What a request on an entity fails on, when it does: the parser's
    reason, on the text of the remark, or what the validation throws on
    the entity as the adapter has it in [db], on the id the request
    names. *)
Definition refusal {E X I : Type} (op : OP_TYPES) (rmk : Remark) (entity : parsed E)
  (id : E -> string) (lookup : E -> completion (option X))
  (validate : E -> option X -> completion I) : option (string * string) :=
  match entity with
  | Dead reason => Some (remark rmk, dead_before_instantiation op reason)
  | Entity e =>
      match lookup e with
      | Normal found =>
          match validate e found with
          | Throw message => Some (id e, message)
          | Normal _ => None
          end
      | Throw _ => None
      end
  end.

(** The parse failure or the validation failure of a remark of the kind
    [op], if it has one, on the instance [c] and the store [db]: the
    [object_id] and the [message] that the handler gives to [invalidate].
    (A mint of what the store has counts as one.) *)
Definition rejection (op : OP_TYPES) (rmk : Remark) (c : Consolidator) (db : DB)
  : option (string * string) :=
  let item id := fst (invoke adapter (getNFTByIdUnique id) db) in
  match op with
  | MINT =>
      match getCollectionFromRemark rmk with
      | Throw message => Some (remark rmk, message)
      | Normal collection =>
          match fst (invoke adapter (getCollectionById (Collection_id collection)) db) with
          | Normal (Some _) =>
              Some (Collection_id collection,
                    template ["["; op_value MINT;
                              "] Attempt to mint already existing collection"])
          | Normal None =>
              match validateMintIds collection rmk with
              | Throw message => Some (Collection_id collection, message)
              | Normal _ => None
              end
          | Throw _ => None
          end
      end
  | MINTNFT =>
      match NFT_fromRemark (remark rmk) (block rmk) with
      | Dead reason => Some (remark rmk, dead_before_instantiation MINTNFT reason)
      | Entity nft =>
          let (exists_, db1) := invoke adapter (getNFTByIdUnique (getId nft)) db in
          match exists_ with
          | Normal (Some _) =>
              Some (getId nft,
                    template ["["; op_value MINTNFT; "] Attempt to mint already existing NFT"])
          | Normal None =>
              match fst (invoke adapter (getCollectionById (NFT_collection nft)) db1) with
              | Normal nftParentCollection =>
                  let collection :=
                    match nftParentCollection with
                    | Some parent => consolidatedCollectionToInstance (Some parent)
                    | None => None
                    end in
                  let (validated, nft) := validateMintNFT rmk nft collection in
                  match validated with
                  | Throw message => Some (getId nft, message)
                  | Normal _ => None
                  end
              | Throw _ => None
              end
          | Throw _ => None
          end
      end
  | SEND =>
      refusal SEND rmk (Send_fromRemark (remark rmk)) Send_id
        (fun e => item (Send_id e))
        (fun e found => sendInteraction rmk e (consolidatedNFTtoInstance found))
  | LIST =>
      refusal LIST rmk (List_fromRemark (remark rmk)) List_id
        (fun e => item (List_id e))
        (fun e found => listForSaleInteraction rmk e (consolidatedNFTtoInstance found))
  | CONSUME =>
      refusal CONSUME rmk (Consume_fromRemark (remark rmk)) Consume_id
        (fun e => item (Consume_id e))
        (fun e found => consumeInteraction rmk e (consolidatedNFTtoInstance found))
  | BUY =>
      refusal BUY rmk (Buy_fromRemark (remark rmk)) Buy_id
        (fun e => item (Buy_id e))
        (fun e found =>
           buyInteraction rmk e (consolidatedNFTtoInstance found) (ss58Format c))
  | EMOTE =>
      refusal EMOTE rmk (Emote_fromRemark (remark rmk)) Emote_id
        (fun e => fst (invoke adapter (getNFTById (Emote_id e)) db))
        (fun e found =>
           emoteInteraction rmk e (consolidatedNFTtoInstance found) (emitEmoteChanges c))
  | CHANGEISSUER =>
      match getChangeIssuerEntity rmk with
      | Throw message => Some (remark rmk, message)
      | Normal e =>
          match fst (invoke adapter (getCollectionById (ChangeIssuer_id e)) db) with
          | Normal found =>
              match changeIssuerInteraction rmk e (consolidatedCollectionToInstance found) with
              | Throw message => Some (ChangeIssuer_id e, message)
              | Normal _ => None
              end
          | Throw _ => None
          end
      end
  end.

(** The entries that go to the ledger for a remark handled in the world
    [w], and for a sequence of remarks handled one after the other from
    [w]. *)
Definition rejected (rmk : Remark) (w : World DB) : list InvalidCall :=
  match kind_of rmk with
  | Some op =>
      match rejection op rmk (this w) (store w) with
      | Some (object_id, message) => [invalid_entry (op_value op) rmk object_id message]
      | None => []
      end
  | None => []
  end.

Fixpoint rejections (remarks : list Remark) (w : World DB) : list InvalidCall :=
  match remarks with
  | [] => []
  | rmk :: rest =>
      rejected rmk w ++ rejections rest (snd (switch_interaction_type adapter rmk w))
  end.

(** What a handler does with a remark, as to its rejection: a remark that
    has one is recorded with it, and nothing else of the instance changes,
    the handler answers [true] and no update is called; a remark that has
    none leaves the ledger as it is. *)
Definition records_rejection (op : OP_TYPES) (rmk : Remark) (w : World DB)
  (run : completion bool * World DB) : Prop :=
  match rejection op rmk (this w) (store w) with
  | Some (object_id, message) =>
      fst run = Normal true /\
      this (snd run)
      = push_invalidCalls (invalid_entry (op_value op) rmk object_id message) (this w) /\
      exists ms, calls (snd run) = calls w ++ ms /\ existsb is_update ms = false
  | None =>
      (exists b, fst run = Normal b) /\
      invalidCalls (this (snd run)) = invalidCalls (this w)
  end.

End Traces.

(** ** Adapters that fail

    The store of the sample behind adapters of which some methods throw. *)

Module Faults.

Import Sample.

Definition failing (broken : Method -> bool) (message : string) : IConsolidatorAdapter Store :=
  {| invoke := fun m db => if broken m then (Throw message, db) else serve m db;
     has_getAllNFTs := true;
     has_getAllCollections := true |}.

(** A store that cannot be written. *)
Definition read_only : IConsolidatorAdapter Store := failing is_update "The store is read-only".

(** A store whose items cannot be looked up. *)
Definition looks_up_an_item (m : Method) : bool :=
  match m with
  | getNFTById _ | getNFTByIdUnique _ => true
  | _ => false
  end.

Definition items_out_of_reach : IConsolidatorAdapter Store :=
  failing looks_up_an_item "The items are out of reach".

(** The ledger after Alice's mint of the collection on the store that
    cannot be written. *)
Definition read_only_ledger : list InvalidCall :=
  Eval vm_compute in
    rt_invalid (snapshot_of (consolidate read_only (Some [mint_dlep]) (fresh None None))).

End Faults.

(** ** Remarks that are rejected

    One remark of each kind, none of which can go through on an empty
    store: a mint that does not parse, an item whose collection is not
    there, and six requests on an item or a collection that is not
    there. *)

Module Refusals.

Import Sample.

Definition request (b : Z) (who kind id extra : string) : Remark :=
  mkRemark b who kind (template ["RMRK::"; kind; "::1.0.0::"; id; "::"; extra]).

Definition all_refused : list Remark :=
  [ mint_garbled;
    mint_item1;
    send_by bob;
    list_by bob;
    request 9 bob "CONSUME" (fst reaction) "spent";
    request 9 bob "BUY" (fst reaction) "";
    emote_at 9;
    request 9 bob "CHANGEISSUER" "d43593c715a56da27d-DLEP" bob ].

Definition refused_ledger : list InvalidCall :=
  Eval vm_compute in rejections memory all_refused (fresh None None).

End Refusals.


(** ** JavaScript strings on examples *)

Example substr_hex : JS.substr 2 8 "0x0123456789abcdef" = "01234567"%string.
Proof. reflexivity. Qed.

Example substring_tail : JS.substring (JS.length "0x0123456789abcdef" - 8) "0x0123456789abcdef" = "89abcdef"%string.
Proof. reflexivity. Qed.

Example substring_past_end : JS.substring 58 "0123456789abcdef01-DLEP" = ""%string.
Proof. reflexivity. Qed.

(** ** How the engine changes the world

    A relation between worlds that is reflexive and transitive and that the
    six elementary changes respect (the four pushes, a line on the console, a
    call to the adapter) is respected by every handler, by the loop and by
    [consolidate]: the engine changes nothing in another way. *)

Section Frame.

Context {P : Rmrk} {DB : Type} (adapter : IConsolidatorAdapter DB).

Variable R : World DB -> World DB -> Prop.

Hypothesis R_refl : forall w, R w w.
Hypothesis R_trans : forall a b c, R a b -> R b c -> R a c.
Hypothesis R_invalidCalls :
  forall e w, R w (mkWorld (push_invalidCalls e (this w)) (store w) (calls w) (console w)).
Hypothesis R_collections :
  forall e w, R w (mkWorld (push_collections e (this w)) (store w) (calls w) (console w)).
Hypothesis R_nfts :
  forall e w, R w (mkWorld (push_nfts e (this w)) (store w) (calls w) (console w)).
Hypothesis R_interactionChanges :
  forall e w,
    R w (mkWorld (push_interactionChanges e (this w)) (store w) (calls w) (console w)).
Hypothesis R_console :
  forall line w, R w (mkWorld (this w) (store w) (calls w) (console w ++ [line])).
Hypothesis R_call :
  forall m w,
    R w (mkWorld (this w) (snd (invoke adapter m (store w))) (calls w ++ [m]) (console w)).

Lemma preserves_ret A (a : A) : preserves R (ret a).
Proof. intro w. apply R_refl. Qed.

Lemma preserves_lift A (c : completion A) : preserves R (lift c).
Proof. intro w. apply R_refl. Qed.

Lemma preserves_get A (f : Consolidator -> A) : preserves R (get f).
Proof. intro w. apply R_refl. Qed.

Lemma preserves_bind A B (m : M DB A) (k : A -> M DB B) :
  preserves R m -> (forall a, preserves R (k a)) -> preserves R (bind m k).
Proof.
  intros Hm Hk w. unfold bind. specialize (Hm w).
  destruct (m w) as [[a|e] w1]; simpl in *.
  - eapply R_trans; [exact Hm|]. apply Hk.
  - exact Hm.
Qed.

Lemma preserves_try_catch A (body : M DB A) (handler : string -> M DB A) :
  preserves R body -> (forall e, preserves R (handler e)) -> preserves R (try_catch body handler).
Proof.
  intros Hm Hk w. unfold try_catch. specialize (Hm w).
  destruct (body w) as [[a|e] w1]; simpl in *.
  - exact Hm.
  - eapply R_trans; [exact Hm|]. apply Hk.
Qed.

Lemma preserves_call m : preserves R (dbAdapter adapter m).
Proof.
  intro w. unfold dbAdapter. pose proof (R_call m w) as H.
  destruct (invoke adapter m (store w)) as [c db]. exact H.
Qed.

Lemma preserves_console line : preserves R (console_error line).
Proof. intro w. apply R_console. Qed.

Lemma preserves_updateInvalidCalls op rmk object_id message :
  preserves R (updateInvalidCalls op rmk object_id message).
Proof. intro w. apply R_invalidCalls. Qed.

Lemma preserves_push_collections e : preserves R (update (push_collections e)).
Proof. intro w. apply R_collections. Qed.

Lemma preserves_push_nfts e : preserves R (update (push_nfts e)).
Proof. intro w. apply R_nfts. Qed.

Lemma preserves_emitInteractionChange op id : preserves R (emitInteractionChange op id).
Proof.
  apply preserves_bind; [apply preserves_get|].
  intros [|]; [|apply preserves_ret]. intro w. apply R_interactionChanges.
Qed.

(** Walks a handler's body: one rule per construct. *)
Ltac frame_step :=
  first
    [ apply preserves_ret
    | apply preserves_lift
    | apply preserves_get
    | apply preserves_call
    | apply preserves_console
    | apply preserves_updateInvalidCalls
    | apply preserves_push_collections
    | apply preserves_push_nfts
    | apply preserves_emitInteractionChange
    | apply preserves_bind; [ | intros ?]
    | apply preserves_try_catch; [ | intros ?]
    | match goal with
      | |- preserves R (match ?x with _ => _ end) => destruct x
      end ].

Ltac frame := cbv zeta; repeat frame_step.

Lemma mint_preserves rmk : preserves R (mint adapter rmk).
Proof. unfold mint. frame. Qed.

Lemma mintNFT_preserves rmk : preserves R (mintNFT adapter rmk).
Proof. unfold mintNFT. frame. Qed.

Lemma send_preserves rmk : preserves R (send adapter rmk).
Proof. unfold send. frame. Qed.

Lemma list_preserves rmk : preserves R (list_ adapter rmk).
Proof. unfold list_. frame. Qed.

Lemma consume_preserves rmk : preserves R (consume adapter rmk).
Proof. unfold consume. frame. Qed.

Lemma buy_preserves rmk : preserves R (buy adapter rmk).
Proof. unfold buy. frame. Qed.

Lemma emote_preserves rmk : preserves R (emote adapter rmk).
Proof. unfold emote. frame. Qed.

Lemma changeIssuer_preserves rmk : preserves R (changeIssuer adapter rmk).
Proof. unfold changeIssuer. frame. Qed.

Lemma switch_preserves rmk : preserves R (switch_interaction_type adapter rmk).
Proof.
  unfold switch_interaction_type. cbv zeta.
  repeat match goal with
         | |- preserves R (if ?c then _ else _) => destruct c
         end;
    (apply preserves_bind;
     [ first [ apply mint_preserves | apply mintNFT_preserves | apply send_preserves
             | apply buy_preserves | apply consume_preserves | apply list_preserves
             | apply emote_preserves | apply changeIssuer_preserves
             | apply preserves_console ]
     | intros ?; apply preserves_ret ]).
Qed.

Lemma for_of_preserves remarks : preserves R (for_of adapter remarks).
Proof.
  induction remarks as [|rmk rest IH]; simpl.
  - apply preserves_ret.
  - apply preserves_bind; [apply switch_preserves|]. intros []; exact IH.
Qed.

Lemma consolidate_preserves rmrks : preserves R (consolidate adapter rmrks).
Proof.
  unfold consolidate. cbv zeta.
  apply preserves_bind; [apply for_of_preserves|]. intros _. frame.
Qed.

End Frame.

(** ** The instance's arrays only grow, its options never change *)

Section Grows.

Context {P : Rmrk} {DB : Type} (adapter : IConsolidatorAdapter DB).

Lemma extends_refl c : extends c c.
Proof.
  unfold extends. repeat split; try (exists []; symmetry; apply app_nil_r).
Qed.

Lemma extends_trans a b c : extends a b -> extends b c -> extends a c.
Proof.
  unfold extends.
  intros [[l1 H1] [[l2 H2] [[l3 H3] [[l4 H4] [H5 [H6 H7]]]]]]
         [[k1 K1] [[k2 K2] [[k3 K3] [[k4 K4] [K5 [K6 K7]]]]]].
  repeat split; try congruence.
  - exists (l1 ++ k1). rewrite K1, H1. symmetry; apply app_assoc.
  - exists (l2 ++ k2). rewrite K2, H2. symmetry; apply app_assoc.
  - exists (l3 ++ k3). rewrite K3, H3. symmetry; apply app_assoc.
  - exists (l4 ++ k4). rewrite K4, H4. symmetry; apply app_assoc.
Qed.

Ltac extends_push :=
  intros; unfold extends; simpl;
  repeat split;
  first [ eexists; reflexivity | exists []; symmetry; apply app_nil_r ].

Lemma consolidate_extends rmrks (w : World DB) :
  extends (this w) (this (snd (consolidate adapter rmrks w))).
Proof.
  apply (consolidate_preserves adapter (fun w w' => extends (this w) (this w'))).
  - intro. apply extends_refl.
  - intros a b c. apply extends_trans.
  - extends_push.
  - extends_push.
  - extends_push.
  - extends_push.
  - intros. apply extends_refl.
  - intros. apply extends_refl.
Qed.

(** ** The store changes through the adapter's methods only *)

Lemma run_methods_app ms1 ms2 db :
  run_methods adapter (ms1 ++ ms2) db = run_methods adapter ms2 (run_methods adapter ms1 db).
Proof. revert db. induction ms1 as [|m ms1 IH]; intro db; simpl; [reflexivity | apply IH]. Qed.

Lemma through_adapter_refl w : through_adapter adapter w w.
Proof. exists []. split; [symmetry; apply app_nil_r | reflexivity]. Qed.

Lemma through_adapter_trans a b c :
  through_adapter adapter a b -> through_adapter adapter b c -> through_adapter adapter a c.
Proof.
  intros [ms1 [H1 H2]] [ms2 [K1 K2]]. exists (ms1 ++ ms2). split.
  - rewrite K1, H1. symmetry; apply app_assoc.
  - rewrite K2, H2. symmetry; apply run_methods_app.
Qed.

Lemma through_adapter_same (w w' : World DB) :
  store w' = store w -> calls w' = calls w -> through_adapter adapter w w'.
Proof.
  intros Hs Hc. exists []. split; [rewrite Hc; symmetry; apply app_nil_r | exact Hs].
Qed.

Lemma for_of_through_adapter remarks (w : World DB) :
  through_adapter adapter w (snd (for_of adapter remarks w)).
Proof.
  apply (for_of_preserves adapter (through_adapter adapter)).
  - apply through_adapter_refl.
  - apply through_adapter_trans.
  - intros. apply through_adapter_same; reflexivity.
  - intros. apply through_adapter_same; reflexivity.
  - intros. apply through_adapter_same; reflexivity.
  - intros. apply through_adapter_same; reflexivity.
  - intros. apply through_adapter_same; reflexivity.
  - intros m w0. exists [m]. split; reflexivity.
Qed.

End Grows.

(** Case analysis on the scrutinee of an innermost [match] of the goal. *)
Ltac case_innermost :=
  match goal with
  | |- context [match ?x with _ => _ end] =>
      lazymatch x with
      | context [match _ with _ => _ end] => fail
      | _ => destruct x eqn:?; try discriminate
      end
  end.

(** ** The snapshot *)

Section Snapshot.

Context {P : Rmrk} {DB : Type} (adapter : IConsolidatorAdapter DB).

Lemma consolidate_unfold rmrks :
  consolidate adapter rmrks =
  (for_of adapter (remarks_of rmrks) ;;
   all_nfts <- read_all adapter (has_getAllNFTs adapter) getAllNFTs [] ;;
   all_collections <- read_all adapter (has_getAllCollections adapter) getAllCollections [] ;;
   invalid <- get invalidCalls ;;
   emit <- get emitInteractionChanges ;;
   changes <- get interactionChanges ;;
   ret {| rt_nfts := all_nfts;
          rt_collections := all_collections;
          rt_invalid := invalid;
          rt_changes := if emit then Some changes else None;
          rt_lastBlock := None |}).
Proof. reflexivity. Qed.

(** What the snapshot holds beside the two sets, in terms of the instance as
    [consolidate] leaves it. *)
Lemma consolidate_result rmrks w snap w' :
  consolidate adapter rmrks w = (Normal snap, w') ->
  rt_invalid snap = invalidCalls (this w') /\
  rt_changes snap =
    (if emitInteractionChanges (this w') then Some (interactionChanges (this w')) else None) /\
  rt_lastBlock snap = None.
Proof.
  rewrite consolidate_unfold. unfold bind, get, ret, read_all.
  repeat case_innermost; intro H; inversion H; subst; simpl; auto; congruence.
Qed.

End Snapshot.

(** ** Properties of the result assembler and of the dispatch *)

Section Assembler.

Context {P : Rmrk} {DB : Type} (adapter : IConsolidatorAdapter DB).

(** C10. Whatever the input, [undefined] and the empty sequence included, the
    snapshot that [consolidate] returns has no [lastBlock] (nothing assigns
    the field), and it has [changes] exactly when [emitInteractionChanges]
    was passed as [true] to the constructor. *)
Theorem snapshot_lastBlock_and_changes
  (ss58 : option Z) (emitEmote emitInteraction : option bool)
  (w : World DB) (rmrks : option (list Remark)) snap w' :
  this w = new_Consolidator ss58 emitEmote emitInteraction ->
  consolidate adapter rmrks w = (Normal snap, w') ->
  rt_lastBlock snap = None /\
  (rt_changes snap <> None <-> emitInteraction = Some true).
Proof.
  intros Hnew Hrun.
  destruct (consolidate_result adapter rmrks w Hrun) as [_ [Hch Hlast]].
  split; [exact Hlast|].
  pose proof (consolidate_extends adapter rmrks w) as Hext.
  rewrite Hrun in Hext. simpl in Hext.
  destruct Hext as [_ [_ [_ [_ [_ [_ Hflag]]]]]].
  rewrite Hch, Hflag, Hnew. simpl.
  destruct emitInteraction as [[|]|]; split; intro H;
    first [ reflexivity | discriminate | congruence ].
Qed.

(** C9. The ledger of invalid calls and the change log belong to the
    instance and are only pushed on: when [consolidate] is called twice on
    the same instance, the second snapshot holds every invalid call of the
    first, followed by those of the second run, and likewise for the changes
    when they are emitted. *)
Theorem second_run_keeps_first_run_entries
  (rmrks1 rmrks2 : option (list Remark)) (w w1 w2 : World DB) snap1 snap2 :
  consolidate adapter rmrks1 w = (Normal snap1, w1) ->
  consolidate adapter rmrks2 w1 = (Normal snap2, w2) ->
  (exists before, rt_invalid snap1 = invalidCalls (this w) ++ before) /\
  (exists more, rt_invalid snap2 = rt_invalid snap1 ++ more) /\
  (emitInteractionChanges (this w) = true ->
   exists changes1 more,
     rt_changes snap1 = Some changes1 /\ rt_changes snap2 = Some (changes1 ++ more)).
Proof.
  intros Hrun1 Hrun2.
  destruct (consolidate_result adapter rmrks1 w Hrun1) as [Hi1 [Hc1 _]].
  destruct (consolidate_result adapter rmrks2 w1 Hrun2) as [Hi2 [Hc2 _]].
  pose proof (consolidate_extends adapter rmrks1 w) as E1.
  pose proof (consolidate_extends adapter rmrks2 w1) as E2.
  rewrite Hrun1 in E1. rewrite Hrun2 in E2. simpl in E1, E2.
  destruct E1 as [[l1 A1] [_ [_ [[k1 B1] [_ [_ F1]]]]]].
  destruct E2 as [[l2 A2] [_ [_ [[k2 B2] [_ [_ F2]]]]]].
  split; [exists l1; congruence|].
  split; [exists l2; congruence|].
  intro Hemit. exists (interactionChanges (this w1)), k2.
  rewrite Hc1, Hc2, F2, F1, Hemit, B2. split; reflexivity.
Qed.

(** C6. Once the loop has gone through the sequence and left the world [w1]:
    without the bulk readers the snapshot has no item and no collection, and
    still the ledger and (if emitted) the change log; with them its items and
    collections are what [getAllNFTs] and then [getAllCollections] return on
    the store as the loop left it. *)
Theorem snapshot_sets_from_bulk_readers (rmrks : option (list Remark)) (w w1 : World DB) :
  for_of adapter (remarks_of rmrks) w = (Normal tt, w1) ->
  let changes :=
    if emitInteractionChanges (this w1) then Some (interactionChanges (this w1)) else None in
  (has_getAllNFTs adapter = false -> has_getAllCollections adapter = false ->
   consolidate adapter rmrks w =
   (Normal (mkConsolidatorReturnType [] [] (invalidCalls (this w1)) changes None), w1)) /\
  (has_getAllNFTs adapter = true -> has_getAllCollections adapter = true ->
   forall all_nfts db2 all_collections db3,
     invoke adapter getAllNFTs (store w1) = (Normal all_nfts, db2) ->
     invoke adapter getAllCollections db2 = (Normal all_collections, db3) ->
     consolidate adapter rmrks w =
     (Normal (mkConsolidatorReturnType all_nfts all_collections (invalidCalls (this w1))
                changes None),
      mkWorld (this w1) db3 (calls w1 ++ [getAllNFTs; getAllCollections]) (console w1))).
Proof.
  intros Hloop changes. subst changes. split.
  - intros Hn Hc. rewrite consolidate_unfold. unfold bind, read_all, get, ret.
    rewrite Hloop, Hn, Hc. destruct w1; reflexivity.
  - intros Hn Hc all_nfts db2 all_collections db3 Hnfts Hcolls.
    rewrite consolidate_unfold. unfold bind, read_all, get, ret, dbAdapter.
    rewrite Hloop, Hn, Hc, Hnfts. simpl. rewrite Hcolls. simpl.
    rewrite <- app_assoc. reflexivity.
Qed.

(** C3. A remark whose [interaction_type] is none of the eight kinds is
    skipped: the [switch] writes one line on the console and changes nothing
    else (no invalid call is recorded, no adapter method is called), and
    the loop goes on with the remarks that follow. *)
Theorem unknown_type_is_skipped (rmk : Remark) (rest : list Remark) (w : World DB) :
  (forall op, interaction_type rmk <> op_value op) ->
  let w' := mkWorld (this w) (store w) (calls w) (console w ++ [wrong_type rmk]) in
  switch_interaction_type adapter rmk w = (Normal Break, w') /\
  for_of adapter (rmk :: rest) w = for_of adapter rest w'.
Proof.
  intros Hunknown w'.
  assert (Hswitch : switch_interaction_type adapter rmk w = (Normal Break, w')).
  { unfold switch_interaction_type.
    repeat match goal with
           | |- context [(interaction_type rmk =? op_value ?op)%string] =>
               let E := fresh "E" in
               destruct (String.eqb_spec (interaction_type rmk) (op_value op)) as [E|E];
               [exfalso; exact (Hunknown op E)|]
           end.
    reflexivity. }
  split; [exact Hswitch|].
  simpl. unfold bind at 1. rewrite Hswitch. reflexivity.
Qed.

End Assembler.

(** ** What the handlers return *)

Section Returns.

Context {P : Rmrk} {DB : Type} (adapter : IConsolidatorAdapter DB).

Local Abbreviation returns := (@returns P DB).

Lemma returns_ret A (a : A) : returns (ret a).
Proof. intro w. exists a. reflexivity. Qed.

Lemma returns_get A (f : Consolidator -> A) : returns (get f).
Proof. intro w. eexists. reflexivity. Qed.

Lemma returns_update f : returns (update (DB := DB) f).
Proof. intro w. exists tt. reflexivity. Qed.

Lemma returns_console line : returns (console_error (DB := DB) line).
Proof. intro w. exists tt. reflexivity. Qed.

Lemma returns_bind A B (m : M DB A) (k : A -> M DB B) :
  returns m -> (forall a, returns (k a)) -> returns (bind m k).
Proof.
  intros Hm Hk w. unfold bind. destruct (Hm w) as [a Ha].
  destruct (m w) as [[a'|e] w1]; simpl in Ha; [|discriminate]. apply Hk.
Qed.

(** A [try] statement whose [catch] block completes normally does so too:
    what its body throws goes no further. *)
Lemma returns_try_catch A (body : M DB A) (handler : string -> M DB A) :
  (forall e, returns (handler e)) -> returns (try_catch body handler).
Proof.
  intros Hk w. unfold try_catch.
  destruct (body w) as [[a|e] w1]; [exists a; reflexivity | apply Hk].
Qed.

Lemma returns_updateInvalidCalls op rmk object_id message :
  returns (updateInvalidCalls (DB := DB) op rmk object_id message).
Proof. apply returns_update. Qed.

Section Total.

Hypothesis Htotal : adapter_never_throws adapter.

Lemma returns_call m : returns (dbAdapter adapter m).
Proof.
  intro w. unfold dbAdapter. destruct (Htotal m (store w)) as [r Hr].
  destruct (invoke adapter m (store w)) as [c db]. exists r. exact Hr.
Qed.

Ltac returns_step :=
  first
    [ apply returns_ret
    | apply returns_get
    | apply returns_call
    | apply returns_console
    | apply returns_updateInvalidCalls
    | apply returns_try_catch; intros ?
    | apply returns_bind; [ | intros ?]
    | match goal with
      | |- returns (match ?x with _ => _ end) => destruct x
      end ].

Ltac handler_returns := cbv zeta; repeat returns_step.

Lemma mint_returns rmk : returns (mint adapter rmk).
Proof. unfold mint. handler_returns. Qed.

Lemma mintNFT_returns rmk : returns (mintNFT adapter rmk).
Proof. unfold mintNFT. handler_returns. Qed.

Lemma send_returns rmk : returns (send adapter rmk).
Proof. unfold send. handler_returns. Qed.

Lemma list_returns rmk : returns (list_ adapter rmk).
Proof. unfold list_. handler_returns. Qed.

Lemma consume_returns rmk : returns (consume adapter rmk).
Proof. unfold consume. handler_returns. Qed.

Lemma buy_returns rmk : returns (buy adapter rmk).
Proof. unfold buy. handler_returns. Qed.

Lemma emote_returns rmk : returns (emote adapter rmk).
Proof. unfold emote. handler_returns. Qed.

Lemma changeIssuer_returns rmk : returns (changeIssuer adapter rmk).
Proof. unfold changeIssuer. handler_returns. Qed.

Lemma switch_returns rmk : returns (switch_interaction_type adapter rmk).
Proof.
  unfold switch_interaction_type. cbv zeta.
  repeat match goal with
         | |- returns (if ?c then _ else _) => destruct c
         end;
    (apply returns_bind;
     [ first [ apply mint_returns | apply mintNFT_returns | apply send_returns
             | apply buy_returns | apply consume_returns | apply list_returns
             | apply emote_returns | apply changeIssuer_returns
             | apply returns_console ]
     | intros ?; apply returns_ret ]).
Qed.

Lemma for_of_returns remarks : returns (for_of adapter remarks).
Proof.
  induction remarks as [|rmk rest IH]; simpl.
  - apply returns_ret.
  - apply returns_bind; [apply switch_returns|]. intros []; exact IH.
Qed.

Lemma consolidate_returns rmrks : returns (consolidate adapter rmrks).
Proof.
  unfold consolidate. cbv zeta.
  apply returns_bind; [apply for_of_returns|]. intros _. handler_returns.
Qed.

End Total.

End Returns.

(** Runs a handler symbolically: every [match] of the goal is split. *)
(** Unfolds the engine's combinators as far as they go. *)
Ltac step_engine :=
  repeat first
    [ progress unfold bind, try_catch, ret, lift, get, update, updateInvalidCalls,
        emitInteractionChange, dbAdapter
    | progress cbn [fst snd this store calls console] ].

Ltac run_handler :=
  repeat first
    [ progress unfold bind, try_catch, ret, lift, get, update, updateInvalidCalls,
        emitInteractionChange, dbAdapter
    | progress cbn [fst snd this store calls console]
    | case_innermost ].

Section Flags.

Context {P : Rmrk} {DB : Type} (adapter : IConsolidatorAdapter DB).

Ltac flag_cases :=
  intros rmk w b w'; run_handler;
  intro H; inversion H; subst; simpl; eauto.

Lemma list_always_true : always_true (list_ adapter).
Proof. unfold always_true, list_. flag_cases. Qed.

Lemma buy_always_true : always_true (buy adapter).
Proof. unfold always_true, buy. flag_cases. Qed.

Lemma consume_always_true : always_true (consume adapter).
Proof. unfold always_true, consume. flag_cases. Qed.

Lemma mint_false_on_success : false_on_success (mint adapter).
Proof. unfold false_on_success, mint. flag_cases. Qed.

Lemma mintNFT_false_on_success : false_on_success (mintNFT adapter).
Proof. unfold false_on_success, mintNFT. flag_cases. Qed.

Lemma send_false_on_success : false_on_success (send adapter).
Proof. unfold false_on_success, send. flag_cases. Qed.

Lemma emote_false_on_success : false_on_success (emote adapter).
Proof. unfold false_on_success, emote. flag_cases. Qed.

Lemma changeIssuer_false_on_success : false_on_success (changeIssuer adapter).
Proof. unfold false_on_success, changeIssuer. flag_cases. Qed.

(** C4. [list], [buy] and [consume] return [true] whether the operation went
    through or was recorded as invalid; [mint], [mintNFT], [send], [emote]
    and [changeIssuer] return [false] when it went through.  The difference
    changes nothing in the run: the loop passes every remark of the sequence
    to the [switch], whatever was returned for the remarks before it. *)
Theorem continue_flag_has_no_effect :
  (always_true (list_ adapter) /\ always_true (buy adapter) /\
   always_true (consume adapter)) /\
  (false_on_success (mint adapter) /\ false_on_success (mintNFT adapter) /\
   false_on_success (send adapter) /\ false_on_success (emote adapter) /\
   false_on_success (changeIssuer adapter)) /\
  (forall remarks w, for_of adapter remarks w = dispatch_each adapter remarks w).
Proof.
  split; [|split].
  - auto using list_always_true, buy_always_true, consume_always_true.
  - repeat split;
      auto using mint_false_on_success, mintNFT_false_on_success, send_false_on_success,
        emote_false_on_success, changeIssuer_false_on_success.
  - induction remarks as [|rmk rest IH]; intro w; simpl; [reflexivity|].
    unfold bind. destruct (switch_interaction_type adapter rmk w) as [[[]|e] w1];
      auto.
Qed.

End Flags.

(** ** Emote and mint *)

Section EmoteMint.

Context {P : Rmrk} {DB : Type} (adapter : IConsolidatorAdapter DB).

Lemma block_differs_true b u : block_differs b u = true <-> Some b <> u.
Proof.
  unfold block_differs. destruct u as [u|].
  - destruct (Z.eqb_spec b u) as [E|E]; simpl; split; intro H.
    + discriminate.
    + exfalso. apply H. rewrite E. reflexivity.
    + intro K. apply E. congruence.
    + reflexivity.
  - split; [discriminate | reflexivity].
Qed.

(** C5. An EMOTE remark that parses, on an item the adapter has and that the
    validation accepts: when the remark's block is not the item's
    [updatedAtBlock], the adapter's [updateNFTEmote] is called and (the
    changes being emitted) the change entry is pushed; when it is, the
    handler calls nothing but the lookup, the store stays as the lookup left
    it and no change entry is pushed.  The comparison reads
    [updatedAtBlock] only. *)
Theorem emote_applies_when_block_differs
  (rmk : Remark) (w : World DB) (emoteEntity : Emote)
  (consolidatedNFT : NFTConsolidated') (db1 : DB) (nft : NFT) :
  Emote_fromRemark (remark rmk) = Entity emoteEntity ->
  invoke adapter (getNFTById (Emote_id emoteEntity)) (store w)
  = (Normal (Some consolidatedNFT), db1) ->
  emoteInteraction rmk emoteEntity (consolidatedNFTtoInstance (Some consolidatedNFT))
    (emitEmoteChanges (this w)) = Normal (Some nft) ->
  let lookup := getNFTById (Emote_id emoteEntity) in
  let apply := updateNFTEmote nft consolidatedNFT (block rmk) in
  (Some (block rmk) <> nft_updatedAtBlock consolidatedNFT ->
   forall db2,
     invoke adapter apply db1 = (Normal tt, db2) ->
     emote adapter rmk w
     = (Normal false,
        mkWorld (with_change (EMOTE, getId nft) (this w)) db2
          (calls w ++ [lookup; apply]) (console w))) /\
  (Some (block rmk) = nft_updatedAtBlock consolidatedNFT ->
   emote adapter rmk w
   = (Normal false, mkWorld (this w) db1 (calls w ++ [lookup]) (console w))).
Proof.
  intros Hparse Hget Hvalid lookup apply. subst lookup apply. split.
  - intros Hdiff db2 Hput. apply block_differs_true in Hdiff.
    unfold emote. rewrite Hparse. cbv zeta.
    step_engine. rewrite Hget. step_engine. rewrite Hvalid, Hdiff.
    step_engine. rewrite Hput. step_engine.
    unfold with_change. rewrite <- app_assoc.
    destruct (emitInteractionChanges (this w)); reflexivity.
  - intro Hsame.
    assert (Hdiff : block_differs (block rmk) (nft_updatedAtBlock consolidatedNFT) = false).
    { destruct (block_differs (block rmk) (nft_updatedAtBlock consolidatedNFT)) eqn:E;
        [|reflexivity].
      apply block_differs_true in E. contradiction. }
    unfold emote. rewrite Hparse. cbv zeta.
    step_engine. rewrite Hget. step_engine. rewrite Hvalid, Hdiff. reflexivity.
Qed.

Lemma validateMintIds_throws_on_agreement collection rmk pubkey id :
  decodeAddress (caller rmk) = Normal pubkey ->
  generateId (u8aToHex pubkey) (Collection_symbol collection) = Normal id ->
  validateMintIds collection rmk =
  if fragments_agree (u8aToHex pubkey) id
  then Throw (does_not_match (u8aToHex pubkey) id)
  else Normal tt.
Proof.
  intros Hkey Hid. unfold validateMintIds. rewrite Hkey, Hid. reflexivity.
Qed.

(** C1, as the code has it: for a MINT remark that parses, of a collection
    the store does not have, the handler records the invalid call "does not
    match generated ID" on the collection's id and persists nothing exactly
    when the fragments of the generated id and of the caller's key are EQUAL,
    and it persists the collection when they differ: the comparison of
    [validateMintIds] is the reverse of what its message says. *)
Theorem mint_rejects_matching_fragments
  (rmk : Remark) (w : World DB) (collection : Collection) (db1 : DB)
  (pubkey : Uint8Array) (id : string) :
  getCollectionFromRemark rmk = Normal collection ->
  invoke adapter (getCollectionById (Collection_id collection)) (store w)
  = (Normal None, db1) ->
  decodeAddress (caller rmk) = Normal pubkey ->
  generateId (u8aToHex pubkey) (Collection_symbol collection) = Normal id ->
  let lookup := getCollectionById (Collection_id collection) in
  let rejected :=
    {| ic_op_type := op_value MINT;
       ic_block := block rmk;
       ic_caller := caller rmk;
       ic_object_id := Collection_id collection;
       ic_message := does_not_match (u8aToHex pubkey) id |} in
  (fragments_agree (u8aToHex pubkey) id = true ->
   mint adapter rmk w
   = (Normal true,
      mkWorld (push_invalidCalls rejected (this w)) db1 (calls w ++ [lookup]) (console w))) /\
  (fragments_agree (u8aToHex pubkey) id = false ->
   forall db2,
     invoke adapter (updateCollectionMint collection) db1 = (Normal tt, db2) ->
     mint adapter rmk w
     = (Normal false,
        mkWorld
          (with_change (MINT, Collection_id collection)
             (push_collections collection (this w)))
          db2 (calls w ++ [lookup; updateCollectionMint collection]) (console w))).
Proof.
  intros Hparse Hget Hkey Hid lookup rejected. subst lookup rejected.
  pose proof (validateMintIds_throws_on_agreement collection rmk Hkey Hid) as Hvalid.
  split.
  - intro Hagree. rewrite Hagree in Hvalid.
    unfold mint. rewrite Hparse. cbv zeta.
    step_engine. rewrite Hget. step_engine. rewrite Hvalid. reflexivity.
  - intros Hdiffer db2 Hput. rewrite Hdiffer in Hvalid.
    unfold mint. rewrite Hparse. cbv zeta.
    step_engine. rewrite Hget. step_engine. rewrite Hvalid.
    step_engine. rewrite Hput. step_engine.
    unfold with_change. rewrite <- app_assoc.
    cbn [emitInteractionChanges push_collections].
    destruct (emitInteractionChanges (this w)); reflexivity.
Qed.

End EmoteMint.

(** ** Replaying a mint *)

Section Replay.

Context {P : Rmrk} {DB : Type} (adapter : IConsolidatorAdapter DB).

Lemma no_collection_minted_trans id (a b c : World DB) :
  no_collection_minted id a b -> no_collection_minted id b c -> no_collection_minted id a c.
Proof.
  intros [ms1 [cs1 [H1 [H2 [H3 H4]]]]] [ms2 [cs2 [K1 [K2 [K3 K4]]]]].
  exists (ms1 ++ ms2), (cs1 ++ cs2). rewrite K1, H1, K3, H3, !existsb_app, H2, K2, H4, K4.
  rewrite <- !app_assoc. auto.
Qed.

Lemma no_nft_minted_trans id (a b c : World DB) :
  no_nft_minted id a b -> no_nft_minted id b c -> no_nft_minted id a c.
Proof.
  intros [ms1 [cs1 [H1 [H2 [H3 H4]]]]] [ms2 [cs2 [K1 [K2 [K3 K4]]]]].
  exists (ms1 ++ ms2), (cs1 ++ cs2). rewrite K1, H1, K3, H3, !existsb_app, H2, K2, H4, K4.
  rewrite <- !app_assoc. auto.
Qed.

Lemma has_collection_absent db id db' :
  has_collection adapter db id -> invoke adapter (getCollectionById id) db = (Normal None, db') -> False.
Proof. intros [c Hc] H. rewrite H in Hc. discriminate. Qed.

Lemma has_nft_absent db id db' :
  has_nft adapter db id -> invoke adapter (getNFTByIdUnique id) db = (Normal None, db') -> False.
Proof. intros [c Hc] H. rewrite H in Hc. discriminate. Qed.

(** A goal [no_*_minted id w w'] on a world given by its four fields. *)
Ltac show_none_minted :=
  unfold no_collection_minted, no_nft_minted;
  cbn [fst snd this store calls console invalidCalls collections nfts
       push_invalidCalls push_collections push_nfts push_interactionChanges];
  eexists; eexists;
  split; [first [rewrite <- ?app_assoc; reflexivity | symmetry; apply app_nil_r]|];
  split;
    [cbn [existsb mints_collection mints_nft orb app]; rewrite ?orb_false_r;
     first [reflexivity | assumption]|];
  split; [first [rewrite <- ?app_assoc; reflexivity | symmetry; apply app_nil_r]|];
  cbn [existsb orb app]; unfold collection_is, nft_is; rewrite ?orb_false_r;
  first [reflexivity | assumption].

Lemma mint_no_collection_minted id rmk w :
  has_collection adapter (store w) id -> no_collection_minted id w (snd (mint adapter rmk w)).
Proof.
  intro Hhas. unfold mint. run_handler; try solve [show_none_minted].
  all: assert (Hid : (Collection_id a =? id)%string = false)
    by (destruct (String.eqb_spec (Collection_id a) id) as [E|E]; [|reflexivity];
        exfalso; rewrite E in *; eapply has_collection_absent; eauto).
  all: show_none_minted.
Qed.

Lemma mintNFT_no_nft_minted id rmk w :
  validation_keeps_id ->
  has_nft adapter (store w) id -> no_nft_minted id w (snd (mintNFT adapter rmk w)).
Proof.
  intros Hkeep Hhas. unfold mintNFT. run_handler; try solve [show_none_minted].
  all: assert (Hid : (getId a =? id)%string = false)
    by (destruct (String.eqb_spec (getId a) id) as [E|E]; [|reflexivity];
        exfalso; rewrite E in *; eapply has_nft_absent; eauto).
  all: match goal with
       | H : validateMintNFT ?r ?x ?c = (_, ?y) |- _ =>
           let K := fresh "K" in
           pose proof (Hkeep r x c) as K; rewrite H in K; cbn [snd] in K;
           rewrite <- K in Hid
       end.
  all: show_none_minted.
Qed.

Ltac none_minted h := intros; unfold h; run_handler; show_none_minted.

Lemma mintNFT_no_collection_minted id rmk w :
  no_collection_minted id w (snd (mintNFT adapter rmk w)).
Proof. none_minted (@mintNFT). Qed.

Lemma send_no_collection_minted id rmk w :
  no_collection_minted id w (snd (send adapter rmk w)).
Proof. none_minted (@send). Qed.

Lemma list_no_collection_minted id rmk w :
  no_collection_minted id w (snd (list_ adapter rmk w)).
Proof. none_minted (@list_). Qed.

Lemma consume_no_collection_minted id rmk w :
  no_collection_minted id w (snd (consume adapter rmk w)).
Proof. none_minted (@consume). Qed.

Lemma buy_no_collection_minted id rmk w :
  no_collection_minted id w (snd (buy adapter rmk w)).
Proof. none_minted (@buy). Qed.

Lemma emote_no_collection_minted id rmk w :
  no_collection_minted id w (snd (emote adapter rmk w)).
Proof. none_minted (@emote). Qed.

Lemma changeIssuer_no_collection_minted id rmk w :
  no_collection_minted id w (snd (changeIssuer adapter rmk w)).
Proof. none_minted (@changeIssuer). Qed.

Lemma mint_no_nft_minted id rmk w :
  no_nft_minted id w (snd (mint adapter rmk w)).
Proof. none_minted (@mint). Qed.

Lemma send_no_nft_minted id rmk w :
  no_nft_minted id w (snd (send adapter rmk w)).
Proof. none_minted (@send). Qed.

Lemma list_no_nft_minted id rmk w :
  no_nft_minted id w (snd (list_ adapter rmk w)).
Proof. none_minted (@list_). Qed.

Lemma consume_no_nft_minted id rmk w :
  no_nft_minted id w (snd (consume adapter rmk w)).
Proof. none_minted (@consume). Qed.

Lemma buy_no_nft_minted id rmk w :
  no_nft_minted id w (snd (buy adapter rmk w)).
Proof. none_minted (@buy). Qed.

Lemma emote_no_nft_minted id rmk w :
  no_nft_minted id w (snd (emote adapter rmk w)).
Proof. none_minted (@emote). Qed.

Lemma changeIssuer_no_nft_minted id rmk w :
  no_nft_minted id w (snd (changeIssuer adapter rmk w)).
Proof. none_minted (@changeIssuer). Qed.

(** The world a handler leaves is the world the [switch] leaves. *)
Lemma snd_flag (h : M DB bool) w :
  snd ((b <- h ;; ret (continue_if b)) w) = snd (h w).
Proof. unfold bind, ret. destruct (h w) as [[b|e] w1]; reflexivity. Qed.

Lemma switch_no_collection_minted id rmk w :
  has_collection adapter (store w) id ->
  no_collection_minted id w (snd (switch_interaction_type adapter rmk w)).
Proof.
  intro Hhas. unfold switch_interaction_type. cbv zeta.
  repeat match goal with
         | |- context [if ?c then _ else _] => destruct c
         end;
    rewrite ?snd_flag;
    auto using mint_no_collection_minted, mintNFT_no_collection_minted,
      send_no_collection_minted, list_no_collection_minted, consume_no_collection_minted,
      buy_no_collection_minted, emote_no_collection_minted,
      changeIssuer_no_collection_minted.
  step_engine. unfold console_error. show_none_minted.
Qed.

Lemma switch_no_nft_minted id rmk w :
  validation_keeps_id ->
  has_nft adapter (store w) id ->
  no_nft_minted id w (snd (switch_interaction_type adapter rmk w)).
Proof.
  intros Hkeep Hhas. unfold switch_interaction_type. cbv zeta.
  repeat match goal with
         | |- context [if ?c then _ else _] => destruct c
         end;
    rewrite ?snd_flag;
    auto using mint_no_nft_minted, mintNFT_no_nft_minted,
      send_no_nft_minted, list_no_nft_minted, consume_no_nft_minted,
      buy_no_nft_minted, emote_no_nft_minted, changeIssuer_no_nft_minted.
  step_engine. unfold console_error. show_none_minted.
Qed.

Lemma switch_through_adapter rmk w :
  through_adapter adapter w (snd (switch_interaction_type adapter rmk w)).
Proof.
  apply (switch_preserves adapter (through_adapter adapter)).
  - apply through_adapter_refl.
  - apply through_adapter_trans.
  - intros. apply through_adapter_same; reflexivity.
  - intros. apply through_adapter_same; reflexivity.
  - intros. apply through_adapter_same; reflexivity.
  - intros. apply through_adapter_same; reflexivity.
  - intros. apply through_adapter_same; reflexivity.
  - intros m w0. exists [m]. split; reflexivity.
Qed.

Section Lawful.

Hypothesis Hlaw : keeps_entities adapter.

Lemma has_collection_through id w w' :
  through_adapter adapter w w' -> has_collection adapter (store w) id -> has_collection adapter (store w') id.
Proof.
  intros [ms [_ Hs]]. rewrite Hs. generalize (store w). clear Hs.
  induction ms as [|m ms IH]; intros db H; simpl; [exact H|].
  apply IH. apply (collection_stays Hlaw). exact H.
Qed.

Lemma has_nft_through id w w' :
  through_adapter adapter w w' -> has_nft adapter (store w) id -> has_nft adapter (store w') id.
Proof.
  intros [ms [_ Hs]]. rewrite Hs. generalize (store w). clear Hs.
  induction ms as [|m ms IH]; intros db H; simpl; [exact H|].
  apply IH. apply (nft_stays Hlaw). exact H.
Qed.

Lemma for_of_no_collection_minted id remarks w :
  has_collection adapter (store w) id ->
  no_collection_minted id w (snd (for_of adapter remarks w)).
Proof.
  revert w. induction remarks as [|rmk rest IH]; intros w Hhas.
  - simpl. unfold ret. show_none_minted.
  - pose proof (@switch_no_collection_minted id rmk w Hhas) as Hstep.
    pose proof (@has_collection_through id _ _ (switch_through_adapter rmk w) Hhas) as Hnext.
    simpl. unfold bind.
    destruct (switch_interaction_type adapter rmk w) as [[[]|e] w1]; simpl in *;
      [ | | exact Hstep];
      (eapply no_collection_minted_trans; [exact Hstep | apply IH; exact Hnext]).
Qed.

Lemma for_of_no_nft_minted id remarks w :
  validation_keeps_id ->
  has_nft adapter (store w) id ->
  no_nft_minted id w (snd (for_of adapter remarks w)).
Proof.
  intro Hkeep. revert w. induction remarks as [|rmk rest IH]; intros w Hhas.
  - simpl. unfold ret. show_none_minted.
  - pose proof (@switch_no_nft_minted id rmk w Hkeep Hhas) as Hstep.
    pose proof (@has_nft_through id _ _ (switch_through_adapter rmk w) Hhas) as Hnext.
    simpl. unfold bind.
    destruct (switch_interaction_type adapter rmk w) as [[[]|e] w1]; simpl in *;
      [ | | exact Hstep];
      (eapply no_nft_minted_trans; [exact Hstep | apply IH; exact Hnext]).
Qed.

End Lawful.

(** The loop over a sequence in two parts. *)
Lemma for_of_app remarks1 remarks2 w :
  for_of adapter (remarks1 ++ remarks2) w =
  match for_of adapter remarks1 w with
  | (Normal _, w1) => for_of adapter remarks2 w1
  | (Throw e, w1) => (Throw e, w1)
  end.
Proof.
  revert w. induction remarks1 as [|rmk rest IH]; intro w; simpl; [reflexivity|].
  unfold bind. destruct (switch_interaction_type adapter rmk w) as [[[]|e] w1];
    first [apply IH | reflexivity].
Qed.

Lemma for_of_cons rmk rest w f w1 :
  switch_interaction_type adapter rmk w = (Normal f, w1) ->
  for_of adapter (rmk :: rest) w = for_of adapter rest w1.
Proof. intro H. simpl. unfold bind. rewrite H. destruct f; reflexivity. Qed.

(** What [mint] did when it returns [false]: the lookup found nothing and
    the collection was persisted and recorded. *)
Lemma mint_applied rmk collection w w1 :
  getCollectionFromRemark rmk = Normal collection ->
  mint adapter rmk w = (Normal false, w1) ->
  exists db1 db2,
    invoke adapter (getCollectionById (Collection_id collection)) (store w)
    = (Normal None, db1) /\
    invoke adapter (updateCollectionMint collection) db1 = (Normal tt, db2) /\
    w1 = mkWorld (with_change (MINT, Collection_id collection)
                    (push_collections collection (this w)))
           db2
           (calls w ++ [getCollectionById (Collection_id collection);
                        updateCollectionMint collection])
           (console w).
Proof.
  intros Hparse. unfold mint. rewrite Hparse. run_handler; intro H; inversion H; subst.
  all: match goal with
       | H1 : invoke _ (getCollectionById _) _ = (_, ?d1),
         H2 : invoke _ (updateCollectionMint _) _ = (_, ?d2) |- _ =>
           exists d1, d2
       end.
  all: repeat split; try assumption.
  all: try match goal with
       | H : invoke _ (updateCollectionMint _) _ = (Normal ?u, _) |- _ =>
           destruct u; exact H
       end.
  all: unfold with_change; cbn [emitInteractionChanges push_collections];
    rewrite <- app_assoc;
    match goal with
    | H : emitInteractionChanges _ = _ |- _ =>
        cbn [emitInteractionChanges push_collections] in H; rewrite H
    end; reflexivity.
Qed.

(** What [mintNFT] did when it returns [false]. *)
Lemma mintNFT_applied rmk nft w w1 :
  NFT_fromRemark (remark rmk) (block rmk) = Entity nft ->
  mintNFT adapter rmk w = (Normal false, w1) ->
  exists db1 parent db2 db3 validated,
    invoke adapter (getNFTByIdUnique (getId nft)) (store w) = (Normal None, db1) /\
    invoke adapter (getCollectionById (NFT_collection nft)) db1 = (Normal parent, db2) /\
    validated = snd (validateMintNFT rmk nft
                       match parent with
                       | Some c => consolidatedCollectionToInstance (Some c)
                       | None => None
                       end) /\
    invoke adapter (updateNFTMint validated (block rmk)) db2 = (Normal tt, db3) /\
    w1 = mkWorld (with_change (MINTNFT, getId validated) (push_nfts validated (this w)))
           db3
           (calls w ++ [getNFTByIdUnique (getId nft);
                        getCollectionById (NFT_collection nft);
                        updateNFTMint validated (block rmk)])
           (console w).
Proof.
  intros Hparse. unfold mintNFT. rewrite Hparse. run_handler; intro H; inversion H; subst.
  all: match goal with
       | H1 : invoke _ (getNFTByIdUnique _) _ = (_, ?d1),
         H2 : invoke _ (getCollectionById _) _ = (Normal ?p, ?d2),
         H3 : invoke _ (updateNFTMint ?n _) _ = (_, ?d3) |- _ =>
           exists d1, p, d2, d3, n
       end.
  all: repeat split; try assumption.
  all: try match goal with
       | H : validateMintNFT _ _ _ = _ |- _ = snd _ => rewrite H; reflexivity
       end.
  all: try match goal with
       | H : invoke _ (updateNFTMint _ _) _ = (Normal ?u, _) |- _ =>
           destruct u; exact H
       end.
  all: unfold with_change; cbn [emitInteractionChanges push_nfts];
    rewrite <- !app_assoc;
    match goal with
    | H : emitInteractionChanges _ = _ |- _ =>
        cbn [emitInteractionChanges push_nfts] in H; rewrite H
    end; reflexivity.
Qed.

Lemma mint_duplicate rmk collection w c db1 :
  getCollectionFromRemark rmk = Normal collection ->
  invoke adapter (getCollectionById (Collection_id collection)) (store w)
  = (Normal (Some c), db1) ->
  mint adapter rmk w
  = (Normal true,
     mkWorld (push_invalidCalls (already_existing_collection rmk collection) (this w))
       db1 (calls w ++ [getCollectionById (Collection_id collection)]) (console w)).
Proof.
  intros Hparse Hget. unfold mint. rewrite Hparse. cbv zeta. step_engine.
  rewrite Hget. reflexivity.
Qed.

Lemma mintNFT_duplicate rmk nft w n db1 :
  NFT_fromRemark (remark rmk) (block rmk) = Entity nft ->
  invoke adapter (getNFTByIdUnique (getId nft)) (store w) = (Normal (Some n), db1) ->
  mintNFT adapter rmk w
  = (Normal true,
     mkWorld (push_invalidCalls (already_existing_nft rmk nft) (this w))
       db1 (calls w ++ [getNFTByIdUnique (getId nft)]) (console w)).
Proof.
  intros Hparse Hget. unfold mintNFT. rewrite Hparse. cbv zeta. step_engine.
  rewrite Hget. reflexivity.
Qed.

Lemma switch_MINT rmk :
  interaction_type rmk = op_value MINT ->
  switch_interaction_type adapter rmk = (b <- mint adapter rmk ;; ret (continue_if b)).
Proof.
  intro H. unfold switch_interaction_type. cbv zeta. rewrite H, String.eqb_refl. reflexivity.
Qed.

Lemma switch_MINTNFT rmk :
  op_value MINT <> op_value MINTNFT ->
  interaction_type rmk = op_value MINTNFT ->
  switch_interaction_type adapter rmk = (b <- mintNFT adapter rmk ;; ret (continue_if b)).
Proof.
  intros Hne H. unfold switch_interaction_type. cbv zeta. rewrite H, String.eqb_refl.
  destruct (String.eqb_spec (op_value MINTNFT) (op_value MINT)) as [E|E];
    [exfalso; apply Hne; symmetry; exact E | reflexivity].
Qed.

Lemma existsb_false_filter A (f : A -> bool) l : existsb f l = false -> filter f l = [].
Proof.
  induction l as [|x l IH]; simpl; [reflexivity|].
  destruct (f x); simpl; [discriminate | exact IH].
Qed.

(** After the loop [consolidate] reads the two sets, if it can, and touches
    nothing of the instance. *)
Lemma consolidate_after_loop rmrks w w3 :
  adapter_never_throws adapter ->
  for_of adapter (remarks_of rmrks) w = (Normal tt, w3) ->
  exists snap w' ms,
    consolidate adapter rmrks w = (Normal snap, w') /\
    this w' = this w3 /\
    called adapter ms w3 w' /\
    (forall id, existsb (mints_collection id) ms = false /\ existsb (mints_nft id) ms = false).
Proof.
  intros Htotal Hloop.
  destruct (consolidate_returns Htotal rmrks w) as [snap Hsnap].
  destruct (consolidate adapter rmrks w) as [c w'] eqn:Hrun. simpl in Hsnap. subst c.
  exists snap, w'. revert Hrun. rewrite consolidate_unfold. unfold bind at 1.
  rewrite Hloop. unfold read_all. run_handler; intro H; inversion H; subst.
  all: eexists; split; [reflexivity|]; split; [reflexivity|]; split;
    [ unfold called; cbn [calls store]; split;
      [ first [rewrite <- ?app_assoc; reflexivity | symmetry; apply app_nil_r]
      | cbn [run_methods app];
        repeat match goal with
               | H : invoke _ _ _ = _ |- _ => rewrite H; clear H; cbn [snd]
               end;
        reflexivity ]
    | intro id; split; reflexivity ].
Qed.

Lemma for_of_extends remarks (w : World DB) :
  extends (this w) (this (snd (for_of adapter remarks w))).
Proof.
  apply (for_of_preserves adapter (fun w w' => extends (this w) (this w'))).
  - intro. apply extends_refl.
  - intros a b c. apply extends_trans.
  - intros; unfold extends; simpl; repeat split;
      first [eexists; reflexivity | exists []; symmetry; apply app_nil_r].
  - intros; unfold extends; simpl; repeat split;
      first [eexists; reflexivity | exists []; symmetry; apply app_nil_r].
  - intros; unfold extends; simpl; repeat split;
      first [eexists; reflexivity | exists []; symmetry; apply app_nil_r].
  - intros; unfold extends; simpl; repeat split;
      first [eexists; reflexivity | exists []; symmetry; apply app_nil_r].
  - intros. apply extends_refl.
  - intros. apply extends_refl.
Qed.

Lemma with_change_fields e c :
  invalidCalls (with_change e c) = invalidCalls c /\
  collections (with_change e c) = collections c /\
  nfts (with_change e c) = nfts c.
Proof. unfold with_change. destruct (emitInteractionChanges c); simpl; auto. Qed.

Lemma has_collection_run_methods id ms db :
  keeps_entities adapter -> has_collection adapter db id -> has_collection adapter (run_methods adapter ms db) id.
Proof.
  intro Hlaw. revert db. induction ms as [|m ms IH]; intros db H; simpl; [exact H|].
  apply IH. apply (collection_stays Hlaw). exact H.
Qed.

Lemma has_nft_run_methods id ms db :
  keeps_entities adapter -> has_nft adapter db id -> has_nft adapter (run_methods adapter ms db) id.
Proof.
  intro Hlaw. revert db. induction ms as [|m ms IH]; intros db H; simpl; [exact H|].
  apply IH. apply (nft_stays Hlaw). exact H.
Qed.

Lemma replayed_mint_collection pre rmk mid post w0 w1 collection :
  keeps_entities adapter -> adapter_never_throws adapter ->
  interaction_type rmk = op_value MINT ->
  getCollectionFromRemark rmk = Normal collection ->
  let w := snd (for_of adapter pre w0) in
  mint adapter rmk w = (Normal false, w1) ->
  exists snap w' from_mid from_post ms cs,
    consolidate adapter (Some (pre ++ rmk :: mid ++ rmk :: post)) w0 = (Normal snap, w') /\
    invalidCalls (this (snd (for_of adapter mid w1))) = invalidCalls (this w) ++ from_mid /\
    rt_invalid snap
    = invalidCalls (this w) ++ from_mid ++ [already_existing_collection rmk collection]
      ++ from_post /\
    calls w' = calls w ++ ms /\
    List.length (filter (mints_collection (Collection_id collection)) ms) = 1%nat /\
    collections (this w') = collections (this w) ++ cs /\
    List.length (filter (collection_is (Collection_id collection)) cs) = 1%nat /\
    has_collection adapter (store w') (Collection_id collection).
Proof.
  intros Hlaw Htotal Htype Hparse.
  destruct (for_of_returns Htotal pre w0) as [[] Hpre_ok].
  destruct (for_of adapter pre w0) as [c0 w] eqn:Hpre. simpl in Hpre_ok. subst c0.
  cbn [snd]. intro Happlied.
  destruct (@mint_applied rmk collection w w1 Hparse Happlied) as [db1 [db2 [Hget [Hput Hw1]]]].
  assert (Hhas1 : has_collection adapter (store w1) (Collection_id collection)).
  { rewrite Hw1. simpl. exact (@minted_collection_is_found _ _ _ Hlaw collection db1 db2 Hput). }
  destruct (for_of_returns Htotal mid w1) as [[] Hmid_ok].
  pose proof (@for_of_no_collection_minted Hlaw (Collection_id collection) mid w1 Hhas1) as Hquiet.
  pose proof (@has_collection_through Hlaw (Collection_id collection) _ _
                (for_of_through_adapter adapter mid w1) Hhas1) as Hhas2.
  pose proof (for_of_extends mid w1) as Hext.
  destruct (for_of adapter mid w1) as [c2 w2] eqn:Hmid. simpl in Hmid_ok, Hquiet, Hhas2, Hext.
  subst c2.
  assert (Hhas3 : has_collection adapter
                    (snd (invoke adapter (getCollectionById (Collection_id collection)) (store w2)))
                    (Collection_id collection))
    by (apply (@collection_stays _ _ _ Hlaw); exact Hhas2).
  destruct Hhas2 as [c Hc].
  destruct (invoke adapter (getCollectionById (Collection_id collection)) (store w2))
    as [r db3] eqn:Hget2.
  simpl in Hc, Hhas3. subst r.
  pose proof (@mint_duplicate rmk collection w2 c db3 Hparse Hget2) as Hdup.
  set (w3 := mkWorld (push_invalidCalls (already_existing_collection rmk collection) (this w2))
               db3 (calls w2 ++ [getCollectionById (Collection_id collection)]) (console w2)) in *.
  destruct (for_of_returns Htotal post w3) as [[] Hpost_ok].
  pose proof (@for_of_no_collection_minted Hlaw (Collection_id collection) post w3 Hhas3)
    as Hquiet'.
  pose proof (@has_collection_through Hlaw (Collection_id collection) _ _
                (for_of_through_adapter adapter post w3) Hhas3) as Hhas4.
  pose proof (for_of_extends post w3) as Hext'.
  destruct (for_of adapter post w3) as [c4 w4] eqn:Hpost.
  simpl in Hpost_ok, Hquiet', Hhas4, Hext'. subst c4.
  assert (Hloop : for_of adapter (remarks_of (Some (pre ++ rmk :: mid ++ rmk :: post))) w0
                  = (Normal tt, w4)).
  { cbn [remarks_of]. rewrite for_of_app, Hpre.
    rewrite (@for_of_cons rmk (mid ++ rmk :: post) w Break w1)
      by (rewrite (switch_MINT rmk Htype); unfold bind, ret; rewrite Happlied; reflexivity).
    rewrite for_of_app, Hmid.
    rewrite (@for_of_cons rmk post w2 Continue w3)
      by (rewrite (switch_MINT rmk Htype); unfold bind, ret; rewrite Hdup; reflexivity).
    exact Hpost. }
  destruct (@consolidate_after_loop (Some (pre ++ rmk :: mid ++ rmk :: post)) w0 w4 Htotal Hloop)
    as [snap [w' [ms_tail [Hrun [Hthis [[Hcalls Hstore] Htail]]]]]].
  destruct (@consolidate_result P DB adapter _ _ _ _ Hrun) as [Hinv _].
  destruct Hquiet as [ms_mid [cs_mid [Q1 [Q2 [Q3 Q4]]]]].
  destruct Hquiet' as [ms_post [cs_post [Q1' [Q2' [Q3' Q4']]]]].
  destruct Hext as [[from_mid E1] _].
  destruct Hext' as [[from_post E1'] _].
  destruct (with_change_fields (MINT, Collection_id collection)
              (push_collections collection (this w))) as [F1 [F2 _]].
  assert (Hinv1 : invalidCalls (this w1) = invalidCalls (this w)).
  { rewrite Hw1. cbn [this]. rewrite F1. reflexivity. }
  assert (Hcol1 : collections (this w1) = collections (this w) ++ [collection]).
  { rewrite Hw1. cbn [this]. rewrite F2. reflexivity. }
  exists snap, w', from_mid, from_post,
    ([getCollectionById (Collection_id collection); updateCollectionMint collection] ++ ms_mid
     ++ [getCollectionById (Collection_id collection)] ++ ms_post ++ ms_tail),
    ([collection] ++ cs_mid ++ cs_post).
  split; [exact Hrun|].
  split; [cbn [snd]; rewrite E1, Hinv1; reflexivity|].
  split.
  { rewrite Hinv, Hthis, E1'. unfold w3. simpl. rewrite E1, Hinv1, <- !app_assoc. reflexivity. }
  split.
  { rewrite Hcalls, Q1'. unfold w3. simpl. rewrite Q1, Hw1. simpl.
    rewrite <- !app_assoc. reflexivity. }
  split.
  { rewrite !filter_app, (@existsb_false_filter _ _ _ Q2), (@existsb_false_filter _ _ _ Q2'),
      (@existsb_false_filter _ _ _ (proj1 (Htail (Collection_id collection)))).
    simpl. rewrite String.eqb_refl. reflexivity. }
  split.
  { rewrite Hthis, Q3'. unfold w3. simpl. rewrite Q3, Hcol1, <- !app_assoc. reflexivity. }
  split.
  { rewrite !filter_app, (@existsb_false_filter _ _ _ Q4), (@existsb_false_filter _ _ _ Q4').
    simpl. unfold collection_is. rewrite String.eqb_refl. reflexivity. }
  rewrite Hstore. apply has_collection_run_methods; [exact Hlaw | exact Hhas4].
Qed.

Lemma replayed_mint_nft pre rmk mid post w0 w1 nft :
  keeps_entities adapter -> adapter_never_throws adapter -> validation_keeps_id ->
  op_value MINT <> op_value MINTNFT ->
  interaction_type rmk = op_value MINTNFT ->
  NFT_fromRemark (remark rmk) (block rmk) = Entity nft ->
  let w := snd (for_of adapter pre w0) in
  mintNFT adapter rmk w = (Normal false, w1) ->
  exists snap w' from_mid from_post ms ns,
    consolidate adapter (Some (pre ++ rmk :: mid ++ rmk :: post)) w0 = (Normal snap, w') /\
    invalidCalls (this (snd (for_of adapter mid w1))) = invalidCalls (this w) ++ from_mid /\
    rt_invalid snap
    = invalidCalls (this w) ++ from_mid ++ [already_existing_nft rmk nft] ++ from_post /\
    calls w' = calls w ++ ms /\
    List.length (filter (mints_nft (getId nft)) ms) = 1%nat /\
    nfts (this w') = nfts (this w) ++ ns /\
    List.length (filter (nft_is (getId nft)) ns) = 1%nat /\
    has_nft adapter (store w') (getId nft).
Proof.
  intros Hlaw Htotal Hkeep Hops Htype Hparse.
  destruct (for_of_returns Htotal pre w0) as [[] Hpre_ok].
  destruct (for_of adapter pre w0) as [c0 w] eqn:Hpre. simpl in Hpre_ok. subst c0.
  cbn [snd]. intro Happlied.
  destruct (@mintNFT_applied rmk nft w w1 Hparse Happlied)
    as [db1 [parent [db2 [db3 [validated [Hget [Hparent [Hvalid [Hput Hw1]]]]]]]]].
  assert (Hsame : getId validated = getId nft) by (rewrite Hvalid; apply Hkeep).
  assert (Hhas1 : has_nft adapter (store w1) (getId nft)).
  { rewrite Hw1. simpl. rewrite <- Hsame.
    exact (@minted_nft_is_found _ _ _ Hlaw validated (block rmk) db2 db3 Hput). }
  destruct (for_of_returns Htotal mid w1) as [[] Hmid_ok].
  pose proof (@for_of_no_nft_minted Hlaw (getId nft) mid w1 Hkeep Hhas1) as Hquiet.
  pose proof (@has_nft_through Hlaw (getId nft) _ _ (for_of_through_adapter adapter mid w1) Hhas1)
    as Hhas2.
  pose proof (for_of_extends mid w1) as Hext.
  destruct (for_of adapter mid w1) as [c2 w2] eqn:Hmid. simpl in Hmid_ok, Hquiet, Hhas2, Hext.
  subst c2.
  assert (Hhas3 : has_nft adapter
                    (snd (invoke adapter (getNFTByIdUnique (getId nft)) (store w2))) (getId nft))
    by (apply (@nft_stays _ _ _ Hlaw); exact Hhas2).
  destruct Hhas2 as [n Hn].
  destruct (invoke adapter (getNFTByIdUnique (getId nft)) (store w2)) as [r db4] eqn:Hget2.
  simpl in Hn, Hhas3. subst r.
  pose proof (@mintNFT_duplicate rmk nft w2 n db4 Hparse Hget2) as Hdup.
  set (w3 := mkWorld (push_invalidCalls (already_existing_nft rmk nft) (this w2))
               db4 (calls w2 ++ [getNFTByIdUnique (getId nft)]) (console w2)) in *.
  destruct (for_of_returns Htotal post w3) as [[] Hpost_ok].
  pose proof (@for_of_no_nft_minted Hlaw (getId nft) post w3 Hkeep Hhas3) as Hquiet'.
  pose proof (@has_nft_through Hlaw (getId nft) _ _ (for_of_through_adapter adapter post w3) Hhas3)
    as Hhas4.
  pose proof (for_of_extends post w3) as Hext'.
  destruct (for_of adapter post w3) as [c4 w4] eqn:Hpost.
  simpl in Hpost_ok, Hquiet', Hhas4, Hext'. subst c4.
  assert (Hloop : for_of adapter (remarks_of (Some (pre ++ rmk :: mid ++ rmk :: post))) w0
                  = (Normal tt, w4)).
  { cbn [remarks_of]. rewrite for_of_app, Hpre.
    rewrite (@for_of_cons rmk (mid ++ rmk :: post) w Break w1)
      by (rewrite (switch_MINTNFT rmk Hops Htype); unfold bind, ret; rewrite Happlied;
          reflexivity).
    rewrite for_of_app, Hmid.
    rewrite (@for_of_cons rmk post w2 Continue w3)
      by (rewrite (switch_MINTNFT rmk Hops Htype); unfold bind, ret; rewrite Hdup;
          reflexivity).
    exact Hpost. }
  destruct (@consolidate_after_loop (Some (pre ++ rmk :: mid ++ rmk :: post)) w0 w4 Htotal Hloop)
    as [snap [w' [ms_tail [Hrun [Hthis [[Hcalls Hstore] Htail]]]]]].
  destruct (@consolidate_result P DB adapter _ _ _ _ Hrun) as [Hinv _].
  destruct Hquiet as [ms_mid [ns_mid [Q1 [Q2 [Q3 Q4]]]]].
  destruct Hquiet' as [ms_post [ns_post [Q1' [Q2' [Q3' Q4']]]]].
  destruct Hext as [[from_mid E1] _].
  destruct Hext' as [[from_post E1'] _].
  destruct (with_change_fields (MINTNFT, getId validated) (push_nfts validated (this w)))
    as [F1 [_ F3]].
  assert (Hinv1 : invalidCalls (this w1) = invalidCalls (this w)).
  { rewrite Hw1. cbn [this]. rewrite F1. reflexivity. }
  assert (Hnfts1 : nfts (this w1) = nfts (this w) ++ [validated]).
  { rewrite Hw1. cbn [this]. rewrite F3. reflexivity. }
  exists snap, w', from_mid, from_post,
    ([getNFTByIdUnique (getId nft); getCollectionById (NFT_collection nft);
      updateNFTMint validated (block rmk)] ++ ms_mid
     ++ [getNFTByIdUnique (getId nft)] ++ ms_post ++ ms_tail),
    ([validated] ++ ns_mid ++ ns_post).
  split; [exact Hrun|].
  split; [cbn [snd]; rewrite E1, Hinv1; reflexivity|].
  split.
  { rewrite Hinv, Hthis, E1'. unfold w3. simpl. rewrite E1, Hinv1, <- !app_assoc. reflexivity. }
  split.
  { rewrite Hcalls, Q1'. unfold w3. simpl. rewrite Q1, Hw1. simpl.
    rewrite <- !app_assoc. reflexivity. }
  split.
  { rewrite !filter_app, (@existsb_false_filter _ _ _ Q2), (@existsb_false_filter _ _ _ Q2'),
      (@existsb_false_filter _ _ _ (proj2 (Htail (getId nft)))).
    simpl. rewrite Hsame, String.eqb_refl. reflexivity. }
  split.
  { rewrite Hthis, Q3'. unfold w3. simpl. rewrite Q3, Hnfts1, <- !app_assoc. reflexivity. }
  split.
  { rewrite !filter_app, (@existsb_false_filter _ _ _ Q4), (@existsb_false_filter _ _ _ Q4').
    simpl. unfold nft_is. rewrite Hsame, String.eqb_refl. reflexivity. }
  rewrite Hstore. apply has_nft_run_methods; [exact Hlaw | exact Hhas4].
Qed.


End Replay.

(** ** The ledger, the instance and the calls of a run

    What follows is read off the handlers one branch at a time: a handler
    is run on an arbitrary remark and world, every [match] of it is split,
    and what is said of the run is checked on the world each branch ends
    in. *)

(** Rewrites with what the adapter answered in this branch of the run. *)
Ltac answers :=
  repeat match goal with
         | H : invoke _ ?m ?db = _ |- context [invoke _ ?m ?db] => rewrite H
         end.

(** Evaluates what is said of the calls on the calls of this branch. *)
Ltac replay :=
  repeat first
    [ progress answers
    | progress unfold failed_update, reads_completed
    | progress cbn [fst snd app run_methods completed completed_calls failures find forallb
                    filter is_update andb List.length] ].

(** The calls of a world given by its fields are the calls before and more. *)
Ltac trace :=
  cbn [fst snd this store calls console];
  first [rewrite <- ?app_assoc; reflexivity | symmetry; apply app_nil_r].

(** *** The ledger follows the remarks *)

Section Ledger.

Context {P : Rmrk} {DB : Type} (adapter : IConsolidatorAdapter DB).

Ltac at_most_once h :=
  intros; unfold h; run_handler; unfold recorded_at_most_once;
  cbn [this invalidCalls push_invalidCalls push_collections push_nfts push_interactionChanges];
  first [left; reflexivity | right; eexists; eexists; reflexivity].

Lemma mint_recorded rmk w :
  recorded_at_most_once (op_value MINT) rmk w (snd (mint adapter rmk w)).
Proof. at_most_once (@mint). Qed.

Lemma mintNFT_recorded rmk w :
  recorded_at_most_once (op_value MINTNFT) rmk w (snd (mintNFT adapter rmk w)).
Proof. at_most_once (@mintNFT). Qed.

Lemma send_recorded rmk w :
  recorded_at_most_once (op_value SEND) rmk w (snd (send adapter rmk w)).
Proof. at_most_once (@send). Qed.

Lemma list_recorded rmk w :
  recorded_at_most_once (op_value LIST) rmk w (snd (list_ adapter rmk w)).
Proof. at_most_once (@list_). Qed.

Lemma consume_recorded rmk w :
  recorded_at_most_once (op_value CONSUME) rmk w (snd (consume adapter rmk w)).
Proof. at_most_once (@consume). Qed.

Lemma buy_recorded rmk w :
  recorded_at_most_once (op_value BUY) rmk w (snd (buy adapter rmk w)).
Proof. at_most_once (@buy). Qed.

Lemma emote_recorded rmk w :
  recorded_at_most_once (op_value EMOTE) rmk w (snd (emote adapter rmk w)).
Proof. at_most_once (@emote). Qed.

Lemma changeIssuer_recorded rmk w :
  recorded_at_most_once (op_value CHANGEISSUER) rmk w (snd (changeIssuer adapter rmk w)).
Proof. at_most_once (@changeIssuer). Qed.

Lemma switch_recorded rmk w :
  recorded_at_most_once (interaction_type rmk) rmk w
    (snd (switch_interaction_type adapter rmk w)).
Proof.
  unfold switch_interaction_type. cbv zeta.
  repeat match goal with
         | |- context [(interaction_type rmk =? ?v)%string] =>
             destruct (String.eqb_spec (interaction_type rmk) v) as [->|?]
         end;
    rewrite ?snd_flag;
    auto using mint_recorded, mintNFT_recorded, send_recorded, list_recorded,
      consume_recorded, buy_recorded, emote_recorded, changeIssuer_recorded.
  left. reflexivity.
Qed.

Lemma entries_of_none remarks : entries_of remarks [].
Proof. induction remarks; constructor; assumption. Qed.

Lemma for_of_recorded remarks w :
  exists l,
    invalidCalls (this (snd (for_of adapter remarks w))) = invalidCalls (this w) ++ l /\
    entries_of remarks l.
Proof.
  revert w. induction remarks as [|rmk rest IH]; intro w.
  - exists []. split; [symmetry; apply app_nil_r | constructor].
  - pose proof (switch_recorded rmk w) as Hstep. simpl. unfold bind.
    destruct (switch_interaction_type adapter rmk w) as [[f|e] w1]; cbn [snd] in Hstep.
    + destruct (IH w1) as [l [Hl Hof]].
      assert (Hrest : exists l,
                 invalidCalls (this (snd (for_of adapter rest w1)))
                 = invalidCalls (this w) ++ l /\ entries_of (rmk :: rest) l).
      { destruct Hstep as [Hsame | [object_id [message Hone]]].
        - exists l. rewrite Hl, Hsame. split; [reflexivity | constructor; exact Hof].
        - exists (invalid_entry (interaction_type rmk) rmk object_id message :: l).
          rewrite Hl, Hone, <- app_assoc. split; [reflexivity|].
          constructor; [repeat split | exact Hof]. }
      destruct f; exact Hrest.
    + cbn [snd]. destruct Hstep as [Hsame | [object_id [message Hone]]].
      * exists []. rewrite Hsame. split; [symmetry; apply app_nil_r | apply entries_of_none].
      * exists [invalid_entry (interaction_type rmk) rmk object_id message].
        split; [exact Hone|]. constructor; [repeat split | apply entries_of_none].
Qed.

(** After the loop [consolidate] leaves the instance as it is. *)
Lemma consolidate_keeps_instance rmrks w :
  this (snd (consolidate adapter rmrks w)) = this (snd (for_of adapter (remarks_of rmrks) w)).
Proof.
  rewrite consolidate_unfold. unfold bind at 1.
  destruct (for_of adapter (remarks_of rmrks) w) as [[[]|e] w1]; [|reflexivity].
  unfold read_all. run_handler; reflexivity.
Qed.

(** X1. The ledger follows the remarks: what a run of [consolidate] adds to
    the ledger, whether it returns or throws, are entries for remarks of
    the sequence, in the order of the sequence and one for a remark at
    most, each with the block, the caller and the kind of its remark; and
    the snapshot's [invalid], when there is a snapshot, is the ledger so
    extended. *)
Theorem ledger_follows_remarks (rmrks : option (list Remark)) (w : World DB) :
  exists l,
    invalidCalls (this (snd (consolidate adapter rmrks w))) = invalidCalls (this w) ++ l /\
    entries_of (remarks_of rmrks) l /\
    (List.length l <= List.length (remarks_of rmrks))%nat /\
    forall snap,
      fst (consolidate adapter rmrks w) = Normal snap ->
      rt_invalid snap = invalidCalls (this w) ++ l.
Proof.
  destruct (for_of_recorded (remarks_of rmrks) w) as [l [Hl Hof]].
  exists l. rewrite consolidate_keeps_instance. split; [exact Hl|]. split; [exact Hof|]. split.
  - clear Hl. induction Hof; simpl; lia.
  - intros snap Hsnap.
    destruct (consolidate adapter rmrks w) as [c w'] eqn:Hrun. simpl in Hsnap. subst c.
    destruct (consolidate_result adapter rmrks w Hrun) as [Hinv _].
    pose proof (consolidate_keeps_instance rmrks w) as K. rewrite Hrun in K. cbn [snd] in K.
    rewrite Hinv, K. exact Hl.
Qed.

End Ledger.

(** *** The instance mirrors the adapter *)

Section Mirror.

Context {P : Rmrk} {DB : Type} (adapter : IConsolidatorAdapter DB).

Lemma completed_calls_app ms1 ms2 db :
  completed_calls adapter (ms1 ++ ms2) db
  = completed_calls adapter ms1 db
    ++ completed_calls adapter ms2 (run_methods adapter ms1 db).
Proof.
  revert db. induction ms1 as [|m ms1 IH]; intro db; simpl; [reflexivity|].
  rewrite IH, app_assoc. reflexivity.
Qed.

Lemma mirrors_refl w : mirrors adapter [] w w.
Proof.
  unfold mirrors, called. simpl. rewrite !app_nil_r.
  destruct (emitInteractionChanges (this w)); rewrite ?app_nil_r; auto.
Qed.

Lemma mirrors_trans ms1 ms2 (a b c : World DB) :
  mirrors adapter ms1 a b -> mirrors adapter ms2 b c -> mirrors adapter (ms1 ++ ms2) a c.
Proof.
  intros [[H1 H2] [H3 [H4 [H5 H6]]]] [[K1 K2] [K3 [K4 [K5 K6]]]].
  rewrite H6 in K5. rewrite H2 in K2, K3, K4, K5.
  unfold mirrors, called.
  rewrite completed_calls_app.
  unfold minted_collections, minted_nfts, changes_of in *. rewrite !flat_map_app.
  rewrite K1, H1, K2, K3, H3, K4, H4, K5, H5, K6, H6, run_methods_app, <- !app_assoc.
  destruct (emitInteractionChanges (this a)); rewrite ?app_nil_r; auto 10.
Qed.

(** A goal [exists ms, mirrors ms w w'] on a world given by its fields. *)
Ltac show_mirrors :=
  unfold mirrors, called;
  cbn [fst snd this store calls console invalidCalls collections nfts interactionChanges
       emitInteractionChanges push_invalidCalls push_collections push_nfts
       push_interactionChanges];
  eexists;
  split; [split; [first [rewrite <- ?app_assoc; reflexivity | symmetry; apply app_nil_r]|]|];
  cbn [run_methods completed_calls app];
  repeat first
    [ progress answers
    | progress cbn [fst snd completed app minted_collections minted_nfts changes_of
                    change_of flat_map] ];
  repeat match goal with
         | H : emitInteractionChanges _ = _ |- _ =>
             cbn [emitInteractionChanges push_collections push_nfts] in H;
             rewrite H; clear H
         end;
  try match goal with
      | |- context [if emitInteractionChanges ?c then _ else _] =>
          destruct (emitInteractionChanges c)
      end;
  rewrite ?app_nil_r; auto 10.

Ltac handler_mirrors h := intros; unfold h; run_handler; show_mirrors.

Lemma mint_mirrors rmk w : exists ms, mirrors adapter ms w (snd (mint adapter rmk w)).
Proof. handler_mirrors (@mint). Qed.

Lemma mintNFT_mirrors rmk w : exists ms, mirrors adapter ms w (snd (mintNFT adapter rmk w)).
Proof. handler_mirrors (@mintNFT). Qed.

Lemma send_mirrors rmk w : exists ms, mirrors adapter ms w (snd (send adapter rmk w)).
Proof. handler_mirrors (@send). Qed.

Lemma list_mirrors rmk w : exists ms, mirrors adapter ms w (snd (list_ adapter rmk w)).
Proof. handler_mirrors (@list_). Qed.

Lemma consume_mirrors rmk w : exists ms, mirrors adapter ms w (snd (consume adapter rmk w)).
Proof. handler_mirrors (@consume). Qed.

Lemma buy_mirrors rmk w : exists ms, mirrors adapter ms w (snd (buy adapter rmk w)).
Proof. handler_mirrors (@buy). Qed.

Lemma emote_mirrors rmk w : exists ms, mirrors adapter ms w (snd (emote adapter rmk w)).
Proof. handler_mirrors (@emote). Qed.

Lemma changeIssuer_mirrors rmk w :
  exists ms, mirrors adapter ms w (snd (changeIssuer adapter rmk w)).
Proof. handler_mirrors (@changeIssuer). Qed.

Lemma switch_mirrors rmk w :
  exists ms, mirrors adapter ms w (snd (switch_interaction_type adapter rmk w)).
Proof.
  unfold switch_interaction_type. cbv zeta.
  repeat match goal with
         | |- context [if ?c then _ else _] => destruct c
         end;
    rewrite ?snd_flag;
    auto using mint_mirrors, mintNFT_mirrors, send_mirrors, list_mirrors, consume_mirrors,
      buy_mirrors, emote_mirrors, changeIssuer_mirrors.
  step_engine. unfold console_error. show_mirrors.
Qed.

Lemma for_of_mirrors remarks w :
  exists ms, mirrors adapter ms w (snd (for_of adapter remarks w)).
Proof.
  revert w. induction remarks as [|rmk rest IH]; intro w.
  - exists []. apply mirrors_refl.
  - destruct (switch_mirrors rmk w) as [ms1 H1]. simpl. unfold bind.
    destruct (switch_interaction_type adapter rmk w) as [[f|e] w1]; cbn [snd] in H1.
    + destruct (IH w1) as [ms2 H2]. exists (ms1 ++ ms2).
      destruct f; exact (mirrors_trans H1 H2).
    + exists ms1. exact H1.
Qed.

Lemma consolidate_mirrors rmrks w :
  exists ms, mirrors adapter ms w (snd (consolidate adapter rmrks w)).
Proof.
  destruct (for_of_mirrors (remarks_of rmrks) w) as [ms1 H1].
  rewrite consolidate_unfold. unfold bind at 1.
  destruct (for_of adapter (remarks_of rmrks) w) as [[[]|e] w1]; cbn [snd] in H1;
    [|exists ms1; exact H1].
  assert (H2 : exists ms,
             mirrors adapter ms w1
               (snd ((all_nfts <- read_all adapter (has_getAllNFTs adapter) getAllNFTs [] ;;
                      all_collections <-
                        read_all adapter (has_getAllCollections adapter) getAllCollections [] ;;
                      invalid <- get invalidCalls ;;
                      emit <- get emitInteractionChanges ;;
                      changes <- get interactionChanges ;;
                      ret {| rt_nfts := all_nfts;
                             rt_collections := all_collections;
                             rt_invalid := invalid;
                             rt_changes := if emit then Some changes else None;
                             rt_lastBlock := None |}) w1)))
    by (unfold read_all; run_handler; show_mirrors).
  destruct H2 as [ms2 H2]. exists (ms1 ++ ms2). exact (mirrors_trans H1 H2).
Qed.

(** X2. The instance mirrors the adapter: what [consolidate] pushes on the
    instance's [collections] and [nfts] are the collections and the items of
    the [updateCollectionMint] and [updateNFTMint] calls that completed, in
    the order of the calls; and what it pushes on the change log, when the
    changes are emitted, is one entry for every update call that completed,
    with the operation of the call and the id of the entity it was given;
    nothing is pushed when they are not emitted.  A snapshot, when there is
    one, has the change log so extended. *)
Theorem instance_mirrors_completed_updates (rmrks : option (list Remark)) (w : World DB) :
  let run := consolidate adapter rmrks w in
  exists ms,
    let done := completed_calls adapter ms (store w) in
    let changes :=
      interactionChanges (this w)
      ++ (if emitInteractionChanges (this w) then changes_of done else []) in
    calls (snd run) = calls w ++ ms /\
    store (snd run) = run_methods adapter ms (store w) /\
    collections (this (snd run)) = collections (this w) ++ minted_collections done /\
    nfts (this (snd run)) = nfts (this w) ++ minted_nfts done /\
    interactionChanges (this (snd run)) = changes /\
    forall snap,
      fst run = Normal snap ->
      rt_changes snap = (if emitInteractionChanges (this w) then Some changes else None).
Proof.
  intro run. destruct (consolidate_mirrors rmrks w) as [ms [[H1 H2] [H3 [H4 [H5 H6]]]]].
  exists ms. subst run. cbv zeta. repeat split; try assumption.
  intros snap Hsnap.
  destruct (consolidate adapter rmrks w) as [c w'] eqn:Hrun. simpl in Hsnap. subst c.
  destruct (consolidate_result adapter rmrks w Hrun) as [_ [Hch _]].
  cbn [snd] in *. rewrite Hch, H6, H5. reflexivity.
Qed.

End Mirror.

(** *** A remark is not both applied and recorded *)

Section Atomic.

Context {P : Rmrk} {DB : Type} (adapter : IConsolidatorAdapter DB).

Ltac show_applied_or_recorded :=
  unfold applied_or_recorded, called;
  eexists; split; [split; [trace | cbn [snd store]; replay; reflexivity]|];
  cbn [fst snd this invalidCalls push_invalidCalls push_collections push_nfts
       push_interactionChanges];
  replay; split; [lia|]; first [left; reflexivity | right; reflexivity].

Ltac handler_applied_or_recorded h := intros; unfold h; run_handler; show_applied_or_recorded.

Lemma mint_applied_or_recorded rmk w :
  exists ms, applied_or_recorded adapter ms w (snd (mint adapter rmk w)).
Proof. handler_applied_or_recorded (@mint). Qed.

Lemma mintNFT_applied_or_recorded rmk w :
  exists ms, applied_or_recorded adapter ms w (snd (mintNFT adapter rmk w)).
Proof. handler_applied_or_recorded (@mintNFT). Qed.

Lemma send_applied_or_recorded rmk w :
  exists ms, applied_or_recorded adapter ms w (snd (send adapter rmk w)).
Proof. handler_applied_or_recorded (@send). Qed.

Lemma list_applied_or_recorded rmk w :
  exists ms, applied_or_recorded adapter ms w (snd (list_ adapter rmk w)).
Proof. handler_applied_or_recorded (@list_). Qed.

Lemma consume_applied_or_recorded rmk w :
  exists ms, applied_or_recorded adapter ms w (snd (consume adapter rmk w)).
Proof. handler_applied_or_recorded (@consume). Qed.

Lemma buy_applied_or_recorded rmk w :
  exists ms, applied_or_recorded adapter ms w (snd (buy adapter rmk w)).
Proof. handler_applied_or_recorded (@buy). Qed.

Lemma emote_applied_or_recorded rmk w :
  exists ms, applied_or_recorded adapter ms w (snd (emote adapter rmk w)).
Proof. handler_applied_or_recorded (@emote). Qed.

Lemma changeIssuer_applied_or_recorded rmk w :
  exists ms, applied_or_recorded adapter ms w (snd (changeIssuer adapter rmk w)).
Proof. handler_applied_or_recorded (@changeIssuer). Qed.

(** X3. One remark, one update at most: for every remark the [switch] makes
    at most one update call; and a remark that is put in the ledger has
    changed nothing through the adapter: no update completed for it (none
    was called, or the one that was called threw). *)
Theorem remark_is_not_both_applied_and_recorded (rmk : Remark) (w : World DB) :
  let w' := snd (switch_interaction_type adapter rmk w) in
  exists ms,
    calls w' = calls w ++ ms /\
    store w' = run_methods adapter ms (store w) /\
    (List.length (filter is_update ms) <= 1)%nat /\
    (invalidCalls (this w') = invalidCalls (this w) \/
     filter is_update (completed_calls adapter ms (store w)) = []).
Proof.
  intro w'. subst w'.
  assert (H : exists ms,
             applied_or_recorded adapter ms w (snd (switch_interaction_type adapter rmk w))).
  { unfold switch_interaction_type. cbv zeta.
    repeat match goal with
           | |- context [if ?c then _ else _] => destruct c
           end;
      rewrite ?snd_flag;
      auto using mint_applied_or_recorded, mintNFT_applied_or_recorded,
        send_applied_or_recorded, list_applied_or_recorded, consume_applied_or_recorded,
        buy_applied_or_recorded, emote_applied_or_recorded, changeIssuer_applied_or_recorded.
    step_engine. unfold console_error. show_applied_or_recorded. }
  destruct H as [ms [[H1 H2] [H3 H4]]]. exists ms. auto.
Qed.

Ltac show_failure_recorded :=
  unfold failure_recorded, called;
  eexists; split; [split; [trace | cbn [snd store]; replay; reflexivity]|];
  cbn [fst snd this invalidCalls push_invalidCalls push_collections push_nfts
       push_interactionChanges];
  replay; first [exact I | split; [reflexivity | eexists; reflexivity]].

Ltac handler_failure_recorded h := intros; unfold h; run_handler; show_failure_recorded.

Lemma mint_failure_recorded rmk w :
  exists ms, failure_recorded adapter (op_value MINT) rmk true ms w (mint adapter rmk w).
Proof. handler_failure_recorded (@mint). Qed.

Lemma mintNFT_failure_recorded rmk w :
  exists ms, failure_recorded adapter (op_value MINTNFT) rmk true ms w (mintNFT adapter rmk w).
Proof. handler_failure_recorded (@mintNFT). Qed.

Lemma send_failure_recorded rmk w :
  exists ms, failure_recorded adapter (op_value SEND) rmk true ms w (send adapter rmk w).
Proof. handler_failure_recorded (@send). Qed.

Lemma list_failure_recorded rmk w :
  exists ms, failure_recorded adapter (op_value LIST) rmk true ms w (list_ adapter rmk w).
Proof. handler_failure_recorded (@list_). Qed.

Lemma consume_failure_recorded rmk w :
  exists ms, failure_recorded adapter (op_value CONSUME) rmk true ms w (consume adapter rmk w).
Proof. handler_failure_recorded (@consume). Qed.

Lemma buy_failure_recorded rmk w :
  exists ms, failure_recorded adapter (op_value BUY) rmk true ms w (buy adapter rmk w).
Proof. handler_failure_recorded (@buy). Qed.

Lemma emote_failure_recorded rmk w :
  exists ms, failure_recorded adapter (op_value EMOTE) rmk true ms w (emote adapter rmk w).
Proof. handler_failure_recorded (@emote). Qed.

Lemma changeIssuer_failure_recorded rmk w :
  exists ms,
    failure_recorded adapter (op_value CHANGEISSUER) rmk true ms w (changeIssuer adapter rmk w).
Proof. handler_failure_recorded (@changeIssuer). Qed.

Lemma failure_recorded_flag op_type rmk ms w (h : M DB bool) :
  failure_recorded adapter op_type rmk true ms w (h w) ->
  failure_recorded adapter op_type rmk Continue ms w ((b <- h ;; ret (continue_if b)) w).
Proof.
  unfold failure_recorded, bind, ret. intros [Hc H]. 
  destruct (h w) as [[b|e] w1]; cbn [fst snd] in *; (split; [exact Hc|]);
    destruct (failed_update adapter ms (store w)); try exact I;
    destruct H as [Hb H]; [|discriminate].
  inversion Hb; subst. split; [reflexivity | exact H].
Qed.

(** X4. An update that throws is caught: when the update call of a remark
    throws, the [switch] does not throw; the remark is put in the ledger,
    as one entry with the message of what the update threw, and the loop
    goes on. *)
Theorem failed_update_is_recorded (rmk : Remark) (w : World DB) :
  let run := switch_interaction_type adapter rmk w in
  exists ms,
    calls (snd run) = calls w ++ ms /\
    store (snd run) = run_methods adapter ms (store w) /\
    forall e,
      failed_update adapter ms (store w) = Some e ->
      fst run = Normal Continue /\
      exists object_id,
        invalidCalls (this (snd run))
        = invalidCalls (this w) ++ [invalid_entry (interaction_type rmk) rmk object_id e].
Proof.
  intro run. subst run.
  assert (H : exists ms,
             failure_recorded adapter (interaction_type rmk) rmk Continue ms w
               (switch_interaction_type adapter rmk w)).
  { unfold switch_interaction_type. cbv zeta.
    repeat match goal with
           | |- context [(interaction_type rmk =? ?v)%string] =>
               destruct (String.eqb_spec (interaction_type rmk) v) as [->|?]
           end;
      try (match goal with
           | |- exists ms, failure_recorded _ ?op _ _ ms _ ((b <- ?h ;; _) _) =>
               let H := fresh in
               assert (H : exists ms, failure_recorded adapter op rmk true ms w (h w))
                 by auto using mint_failure_recorded, mintNFT_failure_recorded,
                      send_failure_recorded, list_failure_recorded, consume_failure_recorded,
                      buy_failure_recorded, emote_failure_recorded,
                      changeIssuer_failure_recorded;
               destruct H as [ms H]; exists ms; apply failure_recorded_flag; exact H
           end).
    step_engine. unfold console_error. show_failure_recorded. }
  destruct H as [ms [[H1 H2] H3]]. exists ms.
  split; [exact H1|]. split; [exact H2|].
  intros e He. rewrite He in H3. exact H3.
Qed.

End Atomic.

(** *** What the adapter throws *)

Section Errors.

Context {P : Rmrk} {DB : Type} (adapter : IConsolidatorAdapter DB).

Lemma failures_app ms1 ms2 db :
  failures adapter (ms1 ++ ms2) db
  = failures adapter ms1 db ++ failures adapter ms2 (run_methods adapter ms1 db).
Proof.
  revert db. induction ms1 as [|m ms1 IH]; intro db; simpl; [reflexivity|].
  rewrite IH, app_assoc. reflexivity.
Qed.

Lemma reads_completed_app ms1 ms2 db :
  reads_completed adapter (ms1 ++ ms2) db
  = reads_completed adapter ms1 db && reads_completed adapter ms2 (run_methods adapter ms1 db).
Proof. unfold reads_completed. rewrite failures_app, forallb_app. reflexivity. Qed.

Lemma ends_as_reads_do_nil A (a : A) w : ends_as_reads_do adapter [] w (Normal a, w).
Proof. repeat split. simpl. symmetry. apply app_nil_r. Qed.

Lemma ends_as_reads_do_then A B ms1 ms2 w (a : A) w1 (run : completion B * World DB) :
  ends_as_reads_do adapter ms1 w (Normal a, w1) ->
  ends_as_reads_do adapter ms2 w1 run ->
  ends_as_reads_do adapter (ms1 ++ ms2) w run.
Proof.
  intros [[H1 H2] H3] [[K1 K2] K3]. cbn [fst snd] in *.
  split; [split|].
  - rewrite K1, H1. symmetry. apply app_assoc.
  - rewrite K2, H2. symmetry. apply run_methods_app.
  - rewrite H2 in K3. destruct (fst run) as [b|e].
    + rewrite reads_completed_app, H3, K3. reflexivity.
    + destruct K3 as [ms0 [m [E [U [C T]]]]]. exists (ms1 ++ ms0), m.
      rewrite E, app_assoc, reads_completed_app, H3, C, run_methods_app. auto.
Qed.

Ltac show_ends :=
  unfold ends_as_reads_do, called;
  eexists; split; [split; [trace | cbn [snd store]; replay; reflexivity]|];
  cbn [fst];
  first
    [ solve [replay; reflexivity]
    | exists [];
      eexists; split; [reflexivity|]; split; [reflexivity|]; split; replay; reflexivity
    | eexists; eexists; split; [reflexivity|]; split; [reflexivity|]; split; replay;
      reflexivity ].

Ltac handler_ends h := intros; unfold h; run_handler; show_ends.

Lemma mint_ends rmk w : exists ms, ends_as_reads_do adapter ms w (mint adapter rmk w).
Proof. handler_ends (@mint). Qed.

Lemma mintNFT_ends rmk w : exists ms, ends_as_reads_do adapter ms w (mintNFT adapter rmk w).
Proof. handler_ends (@mintNFT). Qed.

Lemma send_ends rmk w : exists ms, ends_as_reads_do adapter ms w (send adapter rmk w).
Proof. handler_ends (@send). Qed.

Lemma list_ends rmk w : exists ms, ends_as_reads_do adapter ms w (list_ adapter rmk w).
Proof. handler_ends (@list_). Qed.

Lemma consume_ends rmk w : exists ms, ends_as_reads_do adapter ms w (consume adapter rmk w).
Proof. handler_ends (@consume). Qed.

Lemma buy_ends rmk w : exists ms, ends_as_reads_do adapter ms w (buy adapter rmk w).
Proof. handler_ends (@buy). Qed.

Lemma emote_ends rmk w : exists ms, ends_as_reads_do adapter ms w (emote adapter rmk w).
Proof. handler_ends (@emote). Qed.

Lemma changeIssuer_ends rmk w :
  exists ms, ends_as_reads_do adapter ms w (changeIssuer adapter rmk w).
Proof. handler_ends (@changeIssuer). Qed.

Lemma ends_as_reads_do_flag ms w (h : M DB bool) :
  ends_as_reads_do adapter ms w (h w) ->
  ends_as_reads_do adapter ms w ((b <- h ;; ret (continue_if b)) w).
Proof. unfold bind, ret. destruct (h w) as [[b|e] w1]; exact (fun H => H). Qed.

Lemma switch_ends rmk w :
  exists ms, ends_as_reads_do adapter ms w (switch_interaction_type adapter rmk w).
Proof.
  unfold switch_interaction_type. cbv zeta.
  repeat match goal with
         | |- context [if ?c then _ else _] => destruct c
         end;
    try (match goal with
         | |- exists ms, ends_as_reads_do _ ms _ ((b <- ?h ;; _) _) =>
             let H := fresh in
             assert (H : exists ms, ends_as_reads_do adapter ms w (h w))
               by auto using mint_ends, mintNFT_ends, send_ends, list_ends, consume_ends,
                    buy_ends, emote_ends, changeIssuer_ends;
             destruct H as [ms H]; exists ms; apply ends_as_reads_do_flag; exact H
         end).
  step_engine. unfold console_error. show_ends.
Qed.

Lemma for_of_ends remarks w :
  exists ms, ends_as_reads_do adapter ms w (for_of adapter remarks w).
Proof.
  revert w. induction remarks as [|rmk rest IH]; intro w.
  - exists []. apply ends_as_reads_do_nil.
  - destruct (switch_ends rmk w) as [ms1 H1]. simpl. unfold bind.
    destruct (switch_interaction_type adapter rmk w) as [[f|e] w1].
    + destruct (IH w1) as [ms2 H2]. exists (ms1 ++ ms2).
      destruct f; exact (ends_as_reads_do_then H1 H2).
    + exists ms1. exact H1.
Qed.

Lemma failed_read_is_seen ms0 m e db :
  is_update m = false ->
  fst (invoke adapter m (run_methods adapter ms0 db)) = Throw e ->
  reads_completed adapter (ms0 ++ [m]) db = false.
Proof.
  intros Hread Hthrow. rewrite reads_completed_app. unfold reads_completed at 2.
  cbn [failures]. rewrite Hthrow. cbn [app forallb fst]. rewrite Hread.
  apply andb_false_r.
Qed.

(** X5. [consolidate] throws what a read of the adapter throws, and nothing
    else: a run returns a snapshot exactly when every read it made
    completed, whatever its updates threw; and a run that throws has made
    its last call to a read (a lookup of one of the handlers, or one of the
    two bulk readers), which threw that very error.  (The parsers, the
    accessors and the conversions that the handlers call outside their [try]
    blocks are functions here and throw nothing.) *)
Theorem consolidate_ends_as_reads_do (rmrks : option (list Remark)) (w : World DB) :
  let run := consolidate adapter rmrks w in
  exists ms,
    calls (snd run) = calls w ++ ms /\
    store (snd run) = run_methods adapter ms (store w) /\
    ((exists snap, fst run = Normal snap) <-> reads_completed adapter ms (store w) = true) /\
    forall e,
      fst run = Throw e ->
      exists ms0 m,
        ms = ms0 ++ [m] /\ is_update m = false /\
        fst (invoke adapter m (run_methods adapter ms0 (store w))) = Throw e.
Proof.
  intro run. subst run.
  assert (H : exists ms, ends_as_reads_do adapter ms w (consolidate adapter rmrks w)).
  { destruct (for_of_ends (remarks_of rmrks) w) as [ms1 H1].
    rewrite consolidate_unfold. unfold bind at 1.
    destruct (for_of adapter (remarks_of rmrks) w) as [[[]|e] w1]; [|exists ms1; exact H1].
    match goal with
    | |- exists ms, ends_as_reads_do _ ms _ (?tail w1) =>
        assert (H2 : exists ms, ends_as_reads_do adapter ms w1 (tail w1))
          by (unfold read_all; run_handler; show_ends)
    end.
    destruct H2 as [ms2 H2]. exists (ms1 ++ ms2). exact (ends_as_reads_do_then H1 H2). }
  destruct H as [ms [[H1 H2] H3]]. exists ms.
  split; [exact H1|]. split; [exact H2|].
  destruct (fst (consolidate adapter rmrks w)) as [snap|e0].
  - split; [split; [intros _; exact H3 | intros _; exists snap; reflexivity]|].
    intros e K. discriminate.
  - destruct H3 as [ms0 [m [E [U [_ T]]]]]. split.
    + split; [intros [snap K]; discriminate|].
      rewrite E, (failed_read_is_seen ms0 m (store w) U T). discriminate.
    + intros e K. inversion K. subst. exists ms0, m. auto.
Qed.

End Errors.

(** *** Reads come before writes *)

Section Protocol.

Context {P : Rmrk} {DB : Type} (adapter : IConsolidatorAdapter DB).

Lemma reads_before_it_writes_later history more m :
  reads_before_it_writes adapter history m ->
  reads_before_it_writes adapter (history ++ more) m.
Proof.
  destruct m; cbn [reads_before_it_writes]; try exact (fun H => H).
  all: intro H;
    repeat match goal with
           | H : exists _, _ |- _ => destruct H
           | H : _ /\ _ |- _ => destruct H
           end;
    subst; cbn [app]; repeat eexists; eauto.
Qed.

Lemma reads_before_writes_later history more ms db :
  reads_before_writes adapter history ms db ->
  reads_before_writes adapter (history ++ more) ms db.
Proof.
  revert history db. induction ms as [|m ms IH]; intros history db; cbn [reads_before_writes];
    [exact (fun H => H)|].
  intros [H1 H2]. split; [apply reads_before_it_writes_later; exact H1|].
  exact (IH ((m, db) :: history) _ H2).
Qed.

Lemma reads_before_writes_app history ms1 ms2 db :
  reads_before_writes adapter history ms1 db ->
  reads_before_writes adapter [] ms2 (run_methods adapter ms1 db) ->
  reads_before_writes adapter history (ms1 ++ ms2) db.
Proof.
  revert history db. induction ms1 as [|m ms1 IH]; intros history db H1 H2.
  - exact (reads_before_writes_later [] history ms2 _ H2).
  - destruct H1 as [H H1]. split; [exact H|]. apply IH; assumption.
Qed.

Lemma keeps_protocol_refl w : keeps_protocol adapter w w.
Proof. exists []. repeat split. simpl. symmetry. apply app_nil_r. Qed.

Lemma keeps_protocol_trans a b c :
  keeps_protocol adapter a b -> keeps_protocol adapter b c -> keeps_protocol adapter a c.
Proof.
  intros [ms1 [[H1 H2] H3]] [ms2 [[K1 K2] K3]]. exists (ms1 ++ ms2). split; [split|].
  - rewrite K1, H1. symmetry. apply app_assoc.
  - rewrite K2, H2. symmetry. apply run_methods_app.
  - apply reads_before_writes_app; [exact H3 | rewrite <- H2; exact K3].
Qed.

Ltac show_protocol :=
  unfold keeps_protocol, called;
  eexists; split; [split; [trace | cbn [snd store]; replay; reflexivity]|];
  cbn [reads_before_writes reads_before_it_writes app]; replay;
  repeat match goal with
         | |- True => exact I
         | |- _ /\ _ => split
         | |- exists _, _ => eexists
         | |- Some _ <> _ => apply block_differs_true; assumption
         | |- _ = _ => first [reflexivity | replay; reflexivity]
         end.

Ltac handler_protocol h := intros; unfold h; run_handler; show_protocol.

Lemma mint_protocol rmk w : keeps_protocol adapter w (snd (mint adapter rmk w)).
Proof. handler_protocol (@mint). Qed.

Lemma mintNFT_protocol rmk w : keeps_protocol adapter w (snd (mintNFT adapter rmk w)).
Proof. handler_protocol (@mintNFT). Qed.

Lemma send_protocol rmk w : keeps_protocol adapter w (snd (send adapter rmk w)).
Proof. handler_protocol (@send). Qed.

Lemma list_protocol rmk w : keeps_protocol adapter w (snd (list_ adapter rmk w)).
Proof. handler_protocol (@list_). Qed.

Lemma consume_protocol rmk w : keeps_protocol adapter w (snd (consume adapter rmk w)).
Proof. handler_protocol (@consume). Qed.

Lemma buy_protocol rmk w : keeps_protocol adapter w (snd (buy adapter rmk w)).
Proof. handler_protocol (@buy). Qed.

Lemma emote_protocol rmk w : keeps_protocol adapter w (snd (emote adapter rmk w)).
Proof. handler_protocol (@emote). Qed.

Lemma changeIssuer_protocol rmk w : keeps_protocol adapter w (snd (changeIssuer adapter rmk w)).
Proof. handler_protocol (@changeIssuer). Qed.

Lemma switch_protocol rmk w :
  keeps_protocol adapter w (snd (switch_interaction_type adapter rmk w)).
Proof.
  unfold switch_interaction_type. cbv zeta.
  repeat match goal with
         | |- context [if ?c then _ else _] => destruct c
         end;
    rewrite ?snd_flag;
    auto using mint_protocol, mintNFT_protocol, send_protocol, list_protocol,
      consume_protocol, buy_protocol, emote_protocol, changeIssuer_protocol.
  step_engine. unfold console_error. show_protocol.
Qed.

Lemma for_of_protocol remarks w : keeps_protocol adapter w (snd (for_of adapter remarks w)).
Proof.
  revert w. induction remarks as [|rmk rest IH]; intro w.
  - apply keeps_protocol_refl.
  - pose proof (switch_protocol rmk w) as H1. simpl. unfold bind.
    destruct (switch_interaction_type adapter rmk w) as [[f|e] w1]; cbn [snd] in H1;
      [|exact H1].
    destruct f; exact (keeps_protocol_trans H1 (IH w1)).
Qed.

(** X6. The engine reads before it writes.  In every run of [consolidate],
    each update call comes right after the lookup of the entity it
    updates and is given the very record that the lookup returned
    ([updateNFTEmote] only when the block of the remark is not the record's
    [updatedAtBlock]); [updateCollectionMint] comes right after the lookup of
    the collection's id found nothing, and [updateNFTMint] right after the
    lookup of the parent collection, which follows a lookup of the item
    that found nothing. *)
Theorem updates_follow_their_lookups (rmrks : option (list Remark)) (w : World DB) :
  let w' := snd (consolidate adapter rmrks w) in
  exists ms,
    calls w' = calls w ++ ms /\
    store w' = run_methods adapter ms (store w) /\
    reads_before_writes adapter [] ms (store w).
Proof.
  intro w'. subst w'.
  assert (H : keeps_protocol adapter w (snd (consolidate adapter rmrks w))).
  { pose proof (for_of_protocol (remarks_of rmrks) w) as H1.
    rewrite consolidate_unfold. unfold bind at 1.
    destruct (for_of adapter (remarks_of rmrks) w) as [[[]|e] w1]; cbn [snd] in H1;
      [|exact H1].
    refine (keeps_protocol_trans H1 _).
    unfold read_all. run_handler; show_protocol. }
  destruct H as [ms [[H1 H2] H3]]. exists ms. auto.
Qed.

End Protocol.

(** *** Kinds, the console, and the ends of the loop *)

Section Kinds.

Context {P : Rmrk} {DB : Type} (adapter : IConsolidatorAdapter DB).

Ltac show_looked_up :=
  unfold looked_up_or_recorded;
  cbn [fst snd this store calls console invalidCalls push_invalidCalls];
  first
    [ right; split; [reflexivity|]; split; [reflexivity|]; eexists; reflexivity
    | left; eexists; eexists; split; [rewrite <- ?app_assoc; reflexivity | reflexivity] ].

Ltac handler_looked_up h := intros; unfold h; run_handler; show_looked_up.

Lemma mint_looked_up rmk w :
  looked_up_or_recorded (op_value MINT) rmk w (snd (mint adapter rmk w)).
Proof. handler_looked_up (@mint). Qed.

Lemma mintNFT_looked_up rmk w :
  looked_up_or_recorded (op_value MINTNFT) rmk w (snd (mintNFT adapter rmk w)).
Proof. handler_looked_up (@mintNFT). Qed.

Lemma send_looked_up rmk w :
  looked_up_or_recorded (op_value SEND) rmk w (snd (send adapter rmk w)).
Proof. handler_looked_up (@send). Qed.

Lemma list_looked_up rmk w :
  looked_up_or_recorded (op_value LIST) rmk w (snd (list_ adapter rmk w)).
Proof. handler_looked_up (@list_). Qed.

Lemma consume_looked_up rmk w :
  looked_up_or_recorded (op_value CONSUME) rmk w (snd (consume adapter rmk w)).
Proof. handler_looked_up (@consume). Qed.

Lemma buy_looked_up rmk w :
  looked_up_or_recorded (op_value BUY) rmk w (snd (buy adapter rmk w)).
Proof. handler_looked_up (@buy). Qed.

Lemma emote_looked_up rmk w :
  looked_up_or_recorded (op_value EMOTE) rmk w (snd (emote adapter rmk w)).
Proof. handler_looked_up (@emote). Qed.

Lemma changeIssuer_looked_up rmk w :
  looked_up_or_recorded (op_value CHANGEISSUER) rmk w (snd (changeIssuer adapter rmk w)).
Proof. handler_looked_up (@changeIssuer). Qed.

Ltac unchanged_console h := intros; unfold h; run_handler; reflexivity.

Lemma mint_console rmk w : console (snd (mint adapter rmk w)) = console w.
Proof. unchanged_console (@mint). Qed.

Lemma mintNFT_console rmk w : console (snd (mintNFT adapter rmk w)) = console w.
Proof. unchanged_console (@mintNFT). Qed.

Lemma send_console rmk w : console (snd (send adapter rmk w)) = console w.
Proof. unchanged_console (@send). Qed.

Lemma list_console rmk w : console (snd (list_ adapter rmk w)) = console w.
Proof. unchanged_console (@list_). Qed.

Lemma consume_console rmk w : console (snd (consume adapter rmk w)) = console w.
Proof. unchanged_console (@consume). Qed.

Lemma buy_console rmk w : console (snd (buy adapter rmk w)) = console w.
Proof. unchanged_console (@buy). Qed.

Lemma emote_console rmk w : console (snd (emote adapter rmk w)) = console w.
Proof. unchanged_console (@emote). Qed.

Lemma changeIssuer_console rmk w : console (snd (changeIssuer adapter rmk w)) = console w.
Proof. unchanged_console (@changeIssuer). Qed.

Lemma known_kind_of rmk op : interaction_type rmk = op_value op -> known_kind rmk = true.
Proof.
  intro H. unfold known_kind. apply existsb_exists. exists op. rewrite H, String.eqb_refl.
  split; [destruct op; simpl; auto 10 | reflexivity].
Qed.

Lemma switch_console rmk w :
  console (snd (switch_interaction_type adapter rmk w))
  = console w ++ (if known_kind rmk then [] else [wrong_type rmk]).
Proof.
  unfold switch_interaction_type, known_kind. cbv zeta. cbn [existsb].
  repeat match goal with
         | |- context [(interaction_type rmk =? ?v)%string] =>
             destruct (interaction_type rmk =? v)%string
         end;
    cbn [orb]; rewrite ?snd_flag, ?app_nil_r;
    auto using mint_console, mintNFT_console, send_console, list_console, consume_console,
      buy_console, emote_console, changeIssuer_console.
Qed.

(** X7. A remark of one of the eight kinds is not dropped without a trace:
    the adapter is asked about it (the first call is a read), or, when it
    is not, the remark is put in the ledger word for word, as an entry of
    its kind; and nothing is written on the console. *)
Theorem known_kind_is_looked_up_or_recorded (rmk : Remark) (op : OP_TYPES) (w : World DB) :
  interaction_type rmk = op_value op ->
  let w' := snd (switch_interaction_type adapter rmk w) in
  console w' = console w /\
  ((exists m ms, calls w' = calls w ++ m :: ms /\ is_update m = false) \/
   (calls w' = calls w /\ store w' = store w /\
    exists message,
      invalidCalls (this w')
      = invalidCalls (this w)
        ++ [invalid_entry (interaction_type rmk) rmk (remark rmk) message])).
Proof.
  intros Hkind w'. subst w'. split.
  - rewrite switch_console, (known_kind_of rmk op Hkind). apply app_nil_r.
  - change (looked_up_or_recorded (interaction_type rmk) rmk w
              (snd (switch_interaction_type adapter rmk w))).
    pose proof (known_kind_of rmk op Hkind) as Hknown. revert Hknown.
    unfold switch_interaction_type, known_kind. cbv zeta. cbn [existsb].
    repeat match goal with
           | |- context [(interaction_type rmk =? ?v)%string] =>
               destruct (String.eqb_spec (interaction_type rmk) v) as [->|?]
           end;
      cbn [orb]; intro Hknown; try discriminate; rewrite ?snd_flag;
      auto using mint_looked_up, mintNFT_looked_up, send_looked_up, list_looked_up,
        consume_looked_up, buy_looked_up, emote_looked_up, changeIssuer_looked_up.
Qed.

(** X8. What a loop that completes wrote on the console: one line for every
    remark of a kind the [switch] has no case for, in the order of the
    remarks, and nothing else. *)
Theorem console_lists_unknown_kinds (remarks : list Remark) (w w' : World DB) :
  for_of adapter remarks w = (Normal tt, w') ->
  console w' = console w ++ map wrong_type (filter (fun rmk => negb (known_kind rmk)) remarks).
Proof.
  revert w. induction remarks as [|rmk rest IH]; intros w H.
  - inversion H. symmetry. apply app_nil_r.
  - pose proof (switch_console rmk w) as Hstep. simpl in H. unfold bind in H.
    destruct (switch_interaction_type adapter rmk w) as [[f|e] w1]; [|discriminate].
    cbn [snd] in Hstep.
    assert (Hrest : for_of adapter rest w1 = (Normal tt, w')) by (destruct f; exact H).
    rewrite (IH w1 Hrest), Hstep. cbn [filter].
    destruct (known_kind rmk); cbn [negb map]; rewrite <- app_assoc; reflexivity.
Qed.

(** X9. The loop stops at the first remark whose handler throws:
    [consolidate] throws what the handler threw and leaves the world as the
    handler left it; the remarks that follow are not looked at, the bulk
    readers are not called, and what the remarks before did stays done (the
    instance's arrays have what they had, the store is what the calls made
    it). *)
Theorem consolidate_stops_at_the_first_throw
  (before : list Remark) (rmk : Remark) (rest : list Remark) (w w1 w2 : World DB) (e : string) :
  for_of adapter before w = (Normal tt, w1) ->
  switch_interaction_type adapter rmk w1 = (Throw e, w2) ->
  consolidate adapter (Some (before ++ rmk :: rest)) w = (Throw e, w2) /\
  extends (this w) (this w2) /\
  through_adapter adapter w w2.
Proof.
  intros Hbefore Hswitch.
  assert (Hloop : for_of adapter (before ++ rmk :: rest) w = (Throw e, w2)).
  { rewrite for_of_app, Hbefore. simpl. unfold bind. rewrite Hswitch. reflexivity. }
  split.
  - rewrite consolidate_unfold. unfold bind at 1. cbn [remarks_of]. rewrite Hloop. reflexivity.
  - pose proof (for_of_extends adapter (before ++ rmk :: rest) w) as He.
    pose proof (for_of_through_adapter adapter (before ++ rmk :: rest) w) as Ht.
    rewrite Hloop in He, Ht. split; assumption.
Qed.

(** X10. The options of an instance are those its constructor was given, for
    good: [ss58Format] is the number given unless that is 0, which counts
    as none; the two flags are on when [true] was given; and no run of
    [consolidate] changes any of the three. *)
Theorem options_are_fixed_at_construction
  (ss58 : option Z) (emitEmote emitInteraction : option bool)
  (rmrks : option (list Remark)) (w : World DB) :
  this w = new_Consolidator ss58 emitEmote emitInteraction ->
  let c := this (snd (consolidate adapter rmrks w)) in
  (forall n, ss58Format c = Some n <-> ss58 = Some n /\ n <> 0) /\
  (emitEmoteChanges c = true <-> emitEmote = Some true) /\
  (emitInteractionChanges c = true <-> emitInteraction = Some true).
Proof.
  intros Hnew c. subst c.
  destruct (consolidate_extends adapter rmrks w) as [_ [_ [_ [_ [H1 [H2 H3]]]]]].
  rewrite H1, H2, H3, Hnew. cbn [ss58Format emitEmoteChanges emitInteractionChanges new_Consolidator].
  split; [|split].
  - intro n. destruct ss58 as [m|]; [|split; [discriminate | intros [K _]; discriminate]].
    destruct (Z.eqb_spec m 0) as [E|E]; split.
    + discriminate.
    + intros [K Hn]. inversion K. congruence.
    + intro K. inversion K. subst. auto.
    + intros [K _]. exact K.
  - destruct emitEmote as [[|]|]; split; intro K; first [reflexivity | discriminate].
  - destruct emitInteraction as [[|]|]; split; intro K; first [reflexivity | discriminate].
Qed.

(** X11. With no remarks, [undefined] or the empty sequence, [consolidate]
    leaves the instance and the console as they are and calls the adapter
    for the two sets only; the snapshot, when the two reads complete, has
    the ledger and (if emitted) the change log that the instance had. *)
Theorem consolidate_nothing (w : World DB) :
  consolidate adapter None w = consolidate adapter (Some []) w /\
  let run := consolidate adapter None w in
  this (snd run) = this w /\ console (snd run) = console w /\
  (exists ms, calls (snd run) = calls w ++ ms /\ forallb bulk_reader ms = true) /\
  forall snap,
    fst run = Normal snap ->
    rt_invalid snap = invalidCalls (this w) /\
    rt_changes snap
    = (if emitInteractionChanges (this w) then Some (interactionChanges (this w)) else None).
Proof.
  split; [reflexivity|]. rewrite consolidate_unfold. cbn [remarks_of for_of].
  unfold read_all. run_handler;
    (split; [reflexivity|]; split; [reflexivity|];
     split; [eexists; split; [trace | reflexivity]|];
     intros snap K; inversion K; subst; cbn [rt_invalid rt_changes];
     repeat match goal with
            | H : emitInteractionChanges _ = _ |- _ => rewrite H
            end;
     auto).
Qed.

End Kinds.

(** *** One run or two *)

Section Calls.

Context {P : Rmrk} {DB : Type} (adapter : IConsolidatorAdapter DB).

Local Abbreviation ignores_calls := (@ignores_calls P DB).

Lemma apart_from_calls_refl (w : World DB) : apart_from_calls w w.
Proof. repeat split. Qed.

Lemma ignores_ret A (a : A) : ignores_calls (ret a).
Proof. intros w1 w2 H. split; [reflexivity | exact H]. Qed.

Lemma ignores_lift A (c : completion A) : ignores_calls (lift c).
Proof. intros w1 w2 H. split; [reflexivity | exact H]. Qed.

Lemma ignores_get A (f : Consolidator -> A) : ignores_calls (get f).
Proof.
  intros w1 w2 H. split; [|exact H]. destruct H as [H _]. simpl. rewrite H. reflexivity.
Qed.

Lemma ignores_update f : ignores_calls (update f).
Proof.
  intros w1 w2 [H1 [H2 H3]]. split; [reflexivity|].
  unfold apart_from_calls; simpl. rewrite H1. auto.
Qed.

Lemma ignores_console line : ignores_calls (console_error line).
Proof.
  intros w1 w2 [H1 [H2 H3]]. split; [reflexivity|].
  unfold apart_from_calls; simpl. rewrite H3. auto.
Qed.

Lemma ignores_call m : ignores_calls (dbAdapter adapter m).
Proof.
  intros w1 w2 [H1 [H2 H3]]. unfold dbAdapter. rewrite H2.
  destruct (invoke adapter m (store w2)) as [c d]. split; [reflexivity|].
  unfold apart_from_calls; simpl. auto.
Qed.

Lemma ignores_bind A B (m : M DB A) (k : A -> M DB B) :
  ignores_calls m -> (forall a, ignores_calls (k a)) -> ignores_calls (bind m k).
Proof.
  intros Hm Hk w1 w2 H. unfold bind. destruct (Hm w1 w2 H) as [Hc Hw].
  destruct (m w1) as [c1 v1], (m w2) as [c2 v2]. simpl in Hc, Hw. subst c2.
  destruct c1 as [a|e]; [apply Hk; exact Hw | split; [reflexivity | exact Hw]].
Qed.

Lemma ignores_try_catch A (m : M DB A) (k : string -> M DB A) :
  ignores_calls m -> (forall e, ignores_calls (k e)) -> ignores_calls (try_catch m k).
Proof.
  intros Hm Hk w1 w2 H. unfold try_catch. destruct (Hm w1 w2 H) as [Hc Hw].
  destruct (m w1) as [c1 v1], (m w2) as [c2 v2]. simpl in Hc, Hw. subst c2.
  destruct c1 as [a|e]; [split; [reflexivity | exact Hw] | apply Hk; exact Hw].
Qed.

Ltac ignores_step :=
  first
    [ apply ignores_ret
    | apply ignores_lift
    | apply ignores_get
    | apply ignores_update
    | apply ignores_console
    | apply ignores_call
    | apply ignores_bind; [ | intros ?]
    | apply ignores_try_catch; [ | intros ?]
    | match goal with
      | |- ignores_calls (match ?x with _ => _ end) => destruct x
      end ].

Ltac ignores :=
  unfold updateInvalidCalls, emitInteractionChange; cbv zeta; repeat ignores_step.

Lemma mint_ignores_calls rmk : ignores_calls (mint adapter rmk).
Proof. unfold mint. ignores. Qed.

Lemma mintNFT_ignores_calls rmk : ignores_calls (mintNFT adapter rmk).
Proof. unfold mintNFT. ignores. Qed.

Lemma send_ignores_calls rmk : ignores_calls (send adapter rmk).
Proof. unfold send. ignores. Qed.

Lemma list_ignores_calls rmk : ignores_calls (list_ adapter rmk).
Proof. unfold list_. ignores. Qed.

Lemma consume_ignores_calls rmk : ignores_calls (consume adapter rmk).
Proof. unfold consume. ignores. Qed.

Lemma buy_ignores_calls rmk : ignores_calls (buy adapter rmk).
Proof. unfold buy. ignores. Qed.

Lemma emote_ignores_calls rmk : ignores_calls (emote adapter rmk).
Proof. unfold emote. ignores. Qed.

Lemma changeIssuer_ignores_calls rmk : ignores_calls (changeIssuer adapter rmk).
Proof. unfold changeIssuer. ignores. Qed.

Lemma switch_ignores_calls rmk : ignores_calls (switch_interaction_type adapter rmk).
Proof.
  unfold switch_interaction_type. cbv zeta.
  repeat match goal with
         | |- ignores_calls (if ?c then _ else _) => destruct c
         end;
    (apply ignores_bind;
     [ first [ apply mint_ignores_calls | apply mintNFT_ignores_calls
             | apply send_ignores_calls | apply buy_ignores_calls
             | apply consume_ignores_calls | apply list_ignores_calls
             | apply emote_ignores_calls | apply changeIssuer_ignores_calls
             | apply ignores_console ]
     | intros ?; apply ignores_ret ]).
Qed.

Lemma for_of_ignores_calls remarks : ignores_calls (for_of adapter remarks).
Proof.
  induction remarks as [|rmk rest IH]; simpl.
  - apply ignores_ret.
  - apply ignores_bind; [apply switch_ignores_calls|]. intros []; exact IH.
Qed.

Lemma consolidate_ignores_calls rmrks : ignores_calls (consolidate adapter rmrks).
Proof.
  unfold consolidate. cbv zeta.
  apply ignores_bind; [apply for_of_ignores_calls|]. intros _.
  destruct (has_getAllNFTs adapter), (has_getAllCollections adapter); ignores.
Qed.

(** What [consolidate] did when it returned: the loop went through, and
    the bulk readers, which only read, left the world as the loop left it,
    the list of calls apart. *)
Lemma consolidate_returned rmrks w snap w1 :
  bulk_readers_only_read adapter ->
  consolidate adapter rmrks w = (Normal snap, w1) ->
  exists wa, for_of adapter (remarks_of rmrks) w = (Normal tt, wa) /\ apart_from_calls wa w1.
Proof.
  intros Hpure. rewrite consolidate_unfold. unfold bind at 1.
  destruct (for_of adapter (remarks_of rmrks) w) as [[[]|e] wa]; [|discriminate].
  intro H. exists wa. split; [reflexivity|]. revert H.
  destruct (Hpure (store wa)) as [Hn _].
  unfold read_all. run_handler; intro H; inversion H; subst;
    unfold apart_from_calls; cbn [this store console];
    repeat match goal with
           | K : invoke _ getAllNFTs ?db = (_, ?d) |- _ =>
               let E := fresh in
               pose proof (proj1 (Hpure db)) as E; rewrite K in E; cbn [snd] in E; subst d;
               clear K
           | K : invoke _ getAllCollections ?db = (_, ?d) |- _ =>
               let E := fresh in
               pose proof (proj2 (Hpure db)) as E; rewrite K in E; cbn [snd] in E; subst d;
               clear K
           end;
    auto.
Qed.

(** X12. Consolidating in two runs is consolidating in one: when the bulk
    readers of the adapter only read, a run over [remarks1] that returns,
    followed on the same instance by a run over [remarks2], ends as the
    single run over [remarks1 ++ remarks2] does: the same snapshot or the
    same error, the same instance, the same store, the same console. *)
Theorem two_runs_are_one_run
  (remarks1 remarks2 : list Remark) (w w1 : World DB) (snap1 : ConsolidatorReturnType) :
  bulk_readers_only_read adapter ->
  consolidate adapter (Some remarks1) w = (Normal snap1, w1) ->
  let second := consolidate adapter (Some remarks2) w1 in
  let single := consolidate adapter (Some (remarks1 ++ remarks2)) w in
  fst second = fst single /\
  this (snd second) = this (snd single) /\
  store (snd second) = store (snd single) /\
  console (snd second) = console (snd single).
Proof.
  intros Hpure Hfirst second single. subst second single.
  destruct (consolidate_returned (Some remarks1) w Hpure Hfirst) as [wa [Hloop Hsame]].
  cbn [remarks_of] in Hloop.
  assert (Hsingle : consolidate adapter (Some (remarks1 ++ remarks2)) w
                    = consolidate adapter (Some remarks2) wa).
  { rewrite !consolidate_unfold. unfold bind at 1. cbn [remarks_of].
    rewrite for_of_app, Hloop. reflexivity. }
  rewrite Hsingle.
  pose proof (consolidate_ignores_calls (Some remarks2)) as Hignores.
  destruct (Hignores w1 wa) as [Hc [Ht [Hs Ho]]]; [|auto].
  destruct Hsame as [A [B C]]. repeat split; symmetry; assumption.
Qed.

End Calls.

(** *** What stops a mint *)

Section MintIds.

Context {P : Rmrk} {DB : Type} (adapter : IConsolidatorAdapter DB).

Lemma length_substring n m s :
  String.length (String.substring n m s) = Nat.min m (String.length s - n).
Proof.
  revert n m. induction s as [|c s IH]; intros n m.
  - destruct n, m; reflexivity.
  - destruct n as [|n].
    + destruct m as [|m]; [reflexivity|]. simpl. rewrite IH. rewrite Nat.sub_0_r. reflexivity.
    + simpl. apply IH.
Qed.

(** X13. [validateMintIds] looks for the end of the id at the place where
    the key has its end: with a key of eight characters or more in
    hexadecimal, an id that is not as long as the key is never found to
    match, and the function throws nothing, whoever the caller is. *)
Theorem validateMintIds_accepts_ids_of_another_length
  (collection : Collection) (rmk : Remark) (pubkey : Uint8Array) (id : string) :
  decodeAddress (caller rmk) = Normal pubkey ->
  generateId (u8aToHex pubkey) (Collection_symbol collection) = Normal id ->
  8 <= JS.length (u8aToHex pubkey) ->
  JS.length id <> JS.length (u8aToHex pubkey) ->
  validateMintIds collection rmk = Normal tt.
Proof.
  intros Hkey Hid Hlong Hother.
  rewrite (validateMintIds_throws_on_agreement collection rmk Hkey Hid).
  unfold fragments_agree.
  destruct (String.eqb_spec
              (JS.substring (JS.length (u8aToHex pubkey) - 8) id)
              (JS.substring (JS.length (u8aToHex pubkey) - 8) (u8aToHex pubkey))) as [E|E];
    [|rewrite andb_false_r; reflexivity].
  exfalso. apply (f_equal String.length) in E. unfold JS.substring in E.
  rewrite !length_substring in E. unfold JS.length in *. lia.
Qed.

(** X14. What stops a MINT before the store is written ends in the ledger
    and goes no further.  A remark that does not parse is recorded with the
    parser's reason, on the text of the remark and without a call.  For a
    collection the store does not have, whatever [validateMintIds] throws is
    recorded on the collection's id, with no more call than the lookup; and
    [validateMintIds] throws what [decodeAddress] throws on the caller's
    address and what [generateId] throws. *)
Theorem mint_records_what_stops_it (rmk : Remark) (w : World DB) :
  (forall reason,
     Collection_fromRemark (remark rmk) (block rmk) = Dead reason ->
     mint adapter rmk w
     = (Normal true,
        mkWorld
          (push_invalidCalls
             (invalid_entry (op_value MINT) rmk (remark rmk)
                (template ["["; op_value MINT; "] Dead before instantiation: "; reason]))
             (this w))
          (store w) (calls w) (console w))) /\
  (forall collection db1 e,
     Collection_fromRemark (remark rmk) (block rmk) = Entity collection ->
     invoke adapter (getCollectionById (Collection_id collection)) (store w)
     = (Normal None, db1) ->
     validateMintIds collection rmk = Throw e ->
     mint adapter rmk w
     = (Normal true,
        mkWorld
          (push_invalidCalls (invalid_entry (op_value MINT) rmk (Collection_id collection) e)
             (this w))
          db1 (calls w ++ [getCollectionById (Collection_id collection)]) (console w))) /\
  (forall collection e,
     decodeAddress (caller rmk) = Throw e -> validateMintIds collection rmk = Throw e) /\
  (forall collection pubkey e,
     decodeAddress (caller rmk) = Normal pubkey ->
     generateId (u8aToHex pubkey) (Collection_symbol collection) = Throw e ->
     validateMintIds collection rmk = Throw e).
Proof.
  refine (conj _ (conj _ (conj _ _))).
  - intros reason Hdead. unfold mint, getCollectionFromRemark. rewrite Hdead. reflexivity.
  - intros collection db1 e Hparse Hget Hthrow.
    unfold mint, getCollectionFromRemark. rewrite Hparse. cbv zeta.
    step_engine. rewrite Hget. step_engine. rewrite Hthrow. reflexivity.
  - intros collection e Hkey. unfold validateMintIds. rewrite Hkey. reflexivity.
  - intros collection pubkey e Hkey Hid. unfold validateMintIds. rewrite Hkey, Hid.
    reflexivity.
Qed.

End MintIds.

(** *** What is written was validated *)

Section Validated.

Context {P : Rmrk} {DB : Type} (adapter : IConsolidatorAdapter DB).

Ltac show_validated :=
  unfold writes_what_was_validated, called;
  eexists; split; [split; [trace | cbn [snd store]; replay; reflexivity]|];
  cbn [this ss58Format emitEmoteChanges push_invalidCalls push_collections push_nfts
       push_interactionChanges];
  repeat match goal with
         | u : unit |- _ => destruct u
         end;
  repeat (apply Forall_cons || apply Forall_nil);
  cbn [validated];
  repeat match goal with
         | |- True => exact I
         | |- _ /\ _ => split
         | |- exists _, _ => eexists
         | |- _ = _ => first [reflexivity | eassumption]
         end.

Ltac handler_validated h := intros; unfold h; run_handler; show_validated.

Lemma mint_validated rmk w : writes_what_was_validated adapter rmk w (snd (mint adapter rmk w)).
Proof. handler_validated (@mint). Qed.

Lemma mintNFT_validated rmk w :
  writes_what_was_validated adapter rmk w (snd (mintNFT adapter rmk w)).
Proof. handler_validated (@mintNFT). Qed.

Lemma send_validated rmk w : writes_what_was_validated adapter rmk w (snd (send adapter rmk w)).
Proof. handler_validated (@send). Qed.

Lemma list_validated rmk w : writes_what_was_validated adapter rmk w (snd (list_ adapter rmk w)).
Proof. handler_validated (@list_). Qed.

Lemma consume_validated rmk w :
  writes_what_was_validated adapter rmk w (snd (consume adapter rmk w)).
Proof. handler_validated (@consume). Qed.

Lemma buy_validated rmk w : writes_what_was_validated adapter rmk w (snd (buy adapter rmk w)).
Proof. handler_validated (@buy). Qed.

Lemma emote_validated rmk w :
  writes_what_was_validated adapter rmk w (snd (emote adapter rmk w)).
Proof. handler_validated (@emote). Qed.

Lemma changeIssuer_validated rmk w :
  writes_what_was_validated adapter rmk w (snd (changeIssuer adapter rmk w)).
Proof. handler_validated (@changeIssuer). Qed.

Lemma switch_validated rmk w :
  writes_what_was_validated adapter rmk w (snd (switch_interaction_type adapter rmk w)).
Proof.
  unfold switch_interaction_type. cbv zeta.
  repeat match goal with
         | |- context [if ?c then _ else _] => destruct c
         end;
    rewrite ?snd_flag;
    auto using mint_validated, mintNFT_validated, send_validated, list_validated,
      consume_validated, buy_validated, emote_validated, changeIssuer_validated.
  step_engine. unfold console_error. show_validated.
Qed.

Lemma switch_extends rmk (w : World DB) :
  extends (this w) (this (snd (switch_interaction_type adapter rmk w))).
Proof.
  pose proof (for_of_extends adapter [rmk] w) as H. simpl in H. unfold bind, ret in H.
  destruct (switch_interaction_type adapter rmk w) as [[[]|e] w1]; exact H.
Qed.

Lemma writes_what_was_validated_one rmk rest w w' :
  writes_what_was_validated adapter rmk w w' ->
  writes_what_was_validated_of adapter (rmk :: rest) w w'.
Proof.
  intros [ms [Hc H]]. exists ms. split; [exact Hc|].
  eapply Forall_impl; [|exact H]. intros m Hm _. exists rmk. split; [left; reflexivity | exact Hm].
Qed.

Lemma writes_what_was_validated_then remarks1 remarks2 (a b c : World DB) :
  extends (this a) (this b) ->
  writes_what_was_validated_of adapter remarks1 a b ->
  writes_what_was_validated_of adapter remarks2 b c ->
  writes_what_was_validated_of adapter (remarks1 ++ remarks2) a c.
Proof.
  intros [_ [_ [_ [_ [Hformat [Hemote _]]]]]] [ms1 [[H1 H2] H3]] [ms2 [[K1 K2] K3]].
  rewrite Hformat, Hemote in K3.
  exists (ms1 ++ ms2). split; [split|].
  - rewrite K1, H1. symmetry. apply app_assoc.
  - rewrite K2, H2. symmetry. apply run_methods_app.
  - apply Forall_app. split; (eapply Forall_impl; [|eassumption]);
      intros m Hm Hu; destruct (Hm Hu) as [rmk [Hin Hv]]; exists rmk;
      (split; [apply in_or_app; auto | exact Hv]).
Qed.

Lemma for_of_validated remarks w :
  writes_what_was_validated_of adapter remarks w (snd (for_of adapter remarks w)).
Proof.
  revert w. induction remarks as [|rmk rest IH]; intro w.
  - exists []. split; [split; [symmetry; apply app_nil_r | reflexivity] | constructor].
  - pose proof (switch_validated rmk w) as H1. pose proof (switch_extends rmk w) as He.
    simpl. unfold bind.
    destruct (switch_interaction_type adapter rmk w) as [[f|e] w1]; cbn [snd] in H1, He.
    + assert (H : writes_what_was_validated_of adapter ([rmk] ++ rest) w
                    (snd (for_of adapter rest w1)))
        by exact (writes_what_was_validated_then He
                    (writes_what_was_validated_one [] H1) (IH w1)).
      destruct f; exact H.
    + exact (writes_what_was_validated_one rest H1).
Qed.

(** X15. The engine writes only what was validated: in any run of
    [consolidate], every update call is made for a remark of the input that
    parsed and that the validation accepted ([validateMintIds] for a
    collection, [validateMintNFT] for an item, the interaction's own
    function for the others, called with the instance's [ss58Format] or
    [emitEmoteChanges] where it takes one); the call carries the instance as
    the validation left it and, where it takes a block, the block of that
    remark. *)
Theorem only_validated_changes_are_written (rmrks : option (list Remark)) (w : World DB) :
  let w' := snd (consolidate adapter rmrks w) in
  exists ms,
    calls w' = calls w ++ ms /\
    store w' = run_methods adapter ms (store w) /\
    Forall
      (fun m =>
         is_update m = true ->
         exists rmk,
           In rmk (remarks_of rmrks) /\
           validated (ss58Format (this w)) (emitEmoteChanges (this w)) rmk m)
      ms.
Proof.
  intro w'. subst w'.
  assert (H : writes_what_was_validated_of adapter (remarks_of rmrks) w
                (snd (consolidate adapter rmrks w))).
  { pose proof (for_of_validated (remarks_of rmrks) w) as H1.
    pose proof (for_of_extends adapter (remarks_of rmrks) w) as He.
    rewrite consolidate_unfold. unfold bind at 1.
    destruct (for_of adapter (remarks_of rmrks) w) as [[[]|e] w1]; cbn [snd] in H1, He;
      [|exact H1].
    rewrite <- (app_nil_r (remarks_of rmrks)).
    refine (writes_what_was_validated_then He H1 _).
    unfold read_all. run_handler;
      (unfold writes_what_was_validated_of, called;
       eexists; split; [split; [trace | cbn [snd store]; replay; reflexivity]|];
       repeat (apply Forall_cons || apply Forall_nil); discriminate). }
  destruct H as [ms [[H1 H2] H3]]. exists ms. auto.
Qed.

End Validated.

(** *** What is rejected is recorded *)

Section Rejections.

Context {P : Rmrk} {DB : Type} (adapter : IConsolidatorAdapter DB).

Section NoThrow.

Hypothesis Htotal : adapter_never_throws adapter.

(** This branch of the run has the adapter throw, which it does not. *)
Ltac adapter_threw :=
  match goal with
  | H : invoke _ ?m ?db = (Throw _, _) |- _ =>
      let K := fresh in
      destruct (Htotal m db) as [? K]; rewrite H in K; discriminate K
  end.

(** What was read twice in this branch was read alike. *)
Ltac agree :=
  repeat match goal with
         | H : fst (_, _) = _ |- _ => cbn [fst] in H
         | H : Normal _ = Normal _ |- _ => inversion H; clear H; subst
         | H : Throw _ = Throw _ |- _ => inversion H; clear H; subst
         | H : (_, _) = (_, _) |- _ => inversion H; clear H; subst
         | H : ?x = _, K : ?x = _ |- _ => rewrite H in K
         end.

Ltac show_rejection :=
  agree;
  first
    [ adapter_threw
    | discriminate
    | congruence
    | split; [reflexivity|]; split; [reflexivity|]; eexists; split; [trace | reflexivity]
    | split; [eexists; reflexivity | reflexivity] ].

Ltac handler_rejection h :=
  intros; unfold records_rejection, rejection, refusal, dead_before_instantiation, handler, h;
  cbv zeta; run_handler; show_rejection.

Lemma mint_records_rejection rmk w : records_rejection adapter MINT rmk w (mint adapter rmk w).
Proof. handler_rejection (@mint). Qed.

Lemma mintNFT_records_rejection rmk w :
  records_rejection adapter MINTNFT rmk w (mintNFT adapter rmk w).
Proof. handler_rejection (@mintNFT). Qed.

Lemma send_records_rejection rmk w : records_rejection adapter SEND rmk w (send adapter rmk w).
Proof. handler_rejection (@send). Qed.

Lemma list_records_rejection rmk w : records_rejection adapter LIST rmk w (list_ adapter rmk w).
Proof. handler_rejection (@list_). Qed.

Lemma consume_records_rejection rmk w :
  records_rejection adapter CONSUME rmk w (consume adapter rmk w).
Proof. handler_rejection (@consume). Qed.

Lemma buy_records_rejection rmk w : records_rejection adapter BUY rmk w (buy adapter rmk w).
Proof. handler_rejection (@buy). Qed.

Lemma emote_records_rejection rmk w :
  records_rejection adapter EMOTE rmk w (emote adapter rmk w).
Proof. handler_rejection (@emote). Qed.

Lemma changeIssuer_records_rejection rmk w :
  records_rejection adapter CHANGEISSUER rmk w (changeIssuer adapter rmk w).
Proof. handler_rejection (@changeIssuer). Qed.

Lemma handler_records_rejection op rmk w :
  records_rejection adapter op rmk w (handler adapter op rmk w).
Proof.
  destruct op; cbn [handler];
    auto using mint_records_rejection, mintNFT_records_rejection, send_records_rejection,
      list_records_rejection, consume_records_rejection, buy_records_rejection,
      emote_records_rejection, changeIssuer_records_rejection.
Qed.

Lemma switch_by_kind rmk :
  switch_interaction_type adapter rmk
  = match kind_of rmk with
    | Some op => b <- handler adapter op rmk ;; ret (continue_if b)
    | None => console_error (wrong_type rmk) ;; ret Break
    end.
Proof.
  unfold switch_interaction_type, kind_of. cbv zeta.
  repeat match goal with
         | |- context [(interaction_type rmk =? ?v)%string] =>
             destruct (interaction_type rmk =? v)%string
         end;
    reflexivity.
Qed.

Lemma switch_rejected rmk w :
  invalidCalls (this (snd (switch_interaction_type adapter rmk w)))
  = invalidCalls (this w) ++ rejected adapter rmk w.
Proof.
  rewrite switch_by_kind. unfold rejected. destruct (kind_of rmk) as [op|].
  - rewrite snd_flag. pose proof (handler_records_rejection op rmk w) as H.
    unfold records_rejection in H.
    destruct (rejection adapter op rmk (this w) (store w)) as [[object_id message]|].
    + destruct H as [_ [H _]]. rewrite H. reflexivity.
    + destruct H as [_ H]. rewrite H. symmetry. apply app_nil_r.
  - symmetry. apply app_nil_r.
Qed.

Lemma for_of_rejections remarks w :
  invalidCalls (this (snd (for_of adapter remarks w)))
  = invalidCalls (this w) ++ rejections adapter remarks w.
Proof.
  revert w. induction remarks as [|rmk rest IH]; intro w.
  - symmetry. apply app_nil_r.
  - pose proof (switch_rejected rmk w) as Hstep.
    destruct (switch_returns Htotal rmk w) as [f Hf].
    simpl. unfold bind.
    destruct (switch_interaction_type adapter rmk w) as [c w1]. cbn [fst snd] in *. subst c.
    assert (H : invalidCalls (this (snd (for_of adapter rest w1)))
                = invalidCalls (this w) ++ rejected adapter rmk w
                  ++ rejections adapter rest w1)
      by (rewrite IH, Hstep, <- app_assoc; reflexivity).
    destruct f; exact H.
Qed.

End NoThrow.

(** C7. If no method of the storage adapter throws, [consolidate] throws
    nothing and returns a snapshot, whatever the remarks, also when every
    one of them is rejected; and so does the [switch].  What parsing and
    validation throw is caught and ends in the ledger: a handler given a
    remark that fails to parse or that the validation rejects answers
    [true], pushes the one entry of that failure (the kind, the block and
    the caller of the remark, the object id and the message of the failure)
    and changes nothing else of the instance, and calls no update; given a
    remark that has no such failure it leaves the ledger as it is.  So the
    snapshot's [invalid] is the ledger followed by the failures of the
    remarks, in the order of the remarks. *)
Theorem consolidate_never_throws :
  adapter_never_throws adapter ->
  (forall rmrks w,
     exists snap,
       fst (consolidate adapter rmrks w) = Normal snap /\
       rt_invalid snap = invalidCalls (this w) ++ rejections adapter (remarks_of rmrks) w) /\
  (forall rmk w, exists f, fst (switch_interaction_type adapter rmk w) = Normal f) /\
  (forall op rmk w,
     let run := handler adapter op rmk w in
     match rejection adapter op rmk (this w) (store w) with
     | Some (object_id, message) =>
         fst run = Normal true /\
         this (snd run)
         = push_invalidCalls (invalid_entry (op_value op) rmk object_id message) (this w) /\
         exists ms, calls (snd run) = calls w ++ ms /\ existsb is_update ms = false
     | None =>
         (exists b, fst run = Normal b) /\
         invalidCalls (this (snd run)) = invalidCalls (this w)
     end).
Proof.
  intro Htotal. refine (conj _ (conj _ _)).
  - intros rmrks w. destruct (consolidate_returns Htotal rmrks w) as [snap Hsnap].
    exists snap. split; [exact Hsnap|].
    destruct (consolidate adapter rmrks w) as [c w'] eqn:Hrun. simpl in Hsnap. subst c.
    destruct (consolidate_result adapter rmrks w Hrun) as [Hinv _].
    pose proof (consolidate_keeps_instance adapter rmrks w) as Hthis.
    rewrite Hrun in Hthis. cbn [snd] in Hthis.
    rewrite Hinv, Hthis. apply for_of_rejections. exact Htotal.
  - intros rmk w. apply switch_returns. exact Htotal.
  - intros op rmk w. exact (handler_records_rejection Htotal op rmk w).
Qed.

End Rejections.

(** ** The sample store keeps what it is given *)

Module SampleLaws.

Import Sample.

Lemma lookup_put_stays A (key : A -> string) (a : A) (l : list A) (id : string) :
  lookup key id l <> None -> lookup key id (put key a l) <> None.
Proof.
  unfold lookup, put. intro H.
  destruct (existsb (fun x => (key x =? key a)%string) l).
  - induction l as [|x l IH]; simpl in *; [exact H|].
    destruct (String.eqb_spec (key x) (key a)) as [E|E].
    + destruct (String.eqb_spec (key x) id) as [E'|E'].
      * rewrite <- E, E', String.eqb_refl. discriminate.
      * assert (Hk : (key a =? id)%string = false)
          by (apply String.eqb_neq; congruence).
        rewrite Hk. apply IH. exact H.
    + destruct (key x =? id)%string; [discriminate | apply IH; exact H].
  - induction l as [|x l IH]; simpl in *; [contradiction|].
    destruct (key x =? id)%string; [discriminate | apply IH; exact H].
Qed.

Lemma lookup_put_found A (key : A -> string) (a : A) (l : list A) :
  lookup key (key a) (put key a l) <> None.
Proof.
  destruct (existsb (fun x => (key x =? key a)%string) l) eqn:E.
  - apply lookup_put_stays. unfold lookup.
    induction l as [|x l IH]; simpl in *; [discriminate|].
    destruct (key x =? key a)%string; [discriminate | apply IH; exact E].
  - unfold put. rewrite E. unfold lookup. clear E.
    induction l as [|x l IH]; simpl.
    + rewrite String.eqb_refl. discriminate.
    + destruct (key x =? key a)%string; [discriminate | exact IH].
Qed.

Lemma found_collection db id :
  has_collection memory db id <-> find_collection id db <> None.
Proof.
  unfold has_collection. simpl. split.
  - intros [c H]. inversion H. congruence.
  - intro H. destruct (find_collection id db) as [c|]; [exists c; reflexivity | contradiction].
Qed.

Lemma found_item db id : has_nft memory db id <-> find_item id db <> None.
Proof.
  unfold has_nft. simpl. split.
  - intros [c H]. inversion H. congruence.
  - intro H. destruct (find_item id db) as [c|]; [exists c; reflexivity | contradiction].
Qed.

Lemma memory_never_throws : adapter_never_throws memory.
Proof. intros m db. destruct m; simpl; eexists; reflexivity. Qed.

Lemma memory_keeps_entities : keeps_entities memory.
Proof.
  constructor.
  - intros c db db' H. simpl in H. inversion H; subst. apply found_collection.
    unfold find_collection, put_collection. simpl. apply lookup_put_found.
  - intros n b db db' H. simpl in H. inversion H; subst. apply found_item.
    unfold find_item, put_item. simpl.
    apply (lookup_put_found (@nft_id Reactions unit unit) (stamped n b)).
  - intros m db id H. apply found_collection. apply found_collection in H.
    destruct m; simpl; try exact H;
      unfold find_collection, put_collection in *; simpl;
      apply lookup_put_stays; exact H.
  - intros m db id H. apply found_item. apply found_item in H.
    destruct m; simpl; try exact H;
      unfold find_item, put_item in *; simpl;
      apply lookup_put_stays; exact H.
Qed.

Lemma sample_validation_keeps_id : validation_keeps_id.
Proof.
  intros rmk nft collection. simpl. unfold validate_item.
  destruct collection as [c|]; [|reflexivity].
  destruct (caller rmk =? col_issuer c)%string; reflexivity.
Qed.

Lemma sample_kinds_differ : forall a b : OP_TYPES, a <> b -> op_value a <> op_value b.
Proof. intros a b H. destruct a, b; simpl; first [discriminate | contradiction]. Qed.

End SampleLaws.

(** ** The properties on sample runs *)

(** A run whose completion is known ended in the world it ended in. *)
Lemma run_returned (A W : Type) (run : completion A * W) (a : A) :
  fst run = Normal a -> run = (Normal a, snd run).
Proof. destruct run as [c w]. simpl. intro H. rewrite H. reflexivity. Qed.

Section Runs.

Import Sample SampleLaws.

(** C10 on a run of two remarks, on a new instance that emits the changes. *)
Lemma snapshot_lastBlock_and_changes_witness :
  let run :=
    consolidate memory (Some [mint_dlep; mint_garbled]) (fresh None (Some true)) in
  fst run = Normal garbled_snapshot /\
  rt_lastBlock garbled_snapshot = None /\
  (rt_changes garbled_snapshot <> None <-> Some true = Some true).
Proof.
  intro run.
  assert (Hrun : fst run = Normal garbled_snapshot) by vm_cast_no_check (eq_refl (fst run)).
  split; [exact Hrun|].
  exact (@snapshot_lastBlock_and_changes _ _ memory None None (Some true)
           (fresh None (Some true)) (Some [mint_dlep; mint_garbled])
           garbled_snapshot (snd run) eq_refl (run_returned run Hrun)).
Defined.

(** C9 on two runs of the same instance. *)
Lemma second_run_keeps_first_run_entries_witness :
  let w := fresh None (Some true) in
  let run1 := consolidate memory (Some [mint_garbled; mint_dlep]) w in
  let run2 := consolidate memory (Some [mint_dlep; mint_item1]) (snd run1) in
  fst run1 = Normal first_snapshot /\
  fst run2 = Normal second_snapshot /\
  (exists before, rt_invalid first_snapshot = invalidCalls (this w) ++ before) /\
  (exists more, rt_invalid second_snapshot = rt_invalid first_snapshot ++ more) /\
  (emitInteractionChanges (this w) = true ->
   exists changes1 more,
     rt_changes first_snapshot = Some changes1 /\
     rt_changes second_snapshot = Some (changes1 ++ more)).
Proof.
  intros w run1 run2.
  assert (Hrun1 : fst run1 = Normal first_snapshot) by vm_cast_no_check (eq_refl (fst run1)).
  assert (Hrun2 : fst run2 = Normal second_snapshot) by vm_cast_no_check (eq_refl (fst run2)).
  split; [exact Hrun1|]. split; [exact Hrun2|].
  exact (@second_run_keeps_first_run_entries _ _ memory
           (Some [mint_garbled; mint_dlep]) (Some [mint_dlep; mint_item1])
           w (snd run1) (snd run2) first_snapshot second_snapshot
           (run_returned run1 Hrun1) (run_returned run2 Hrun2)).
Defined.

(** C6 on the store without its bulk readers, and with them. *)
Lemma snapshot_sets_from_bulk_readers_witness :
  let w := fresh None (Some true) in
  let rmrks := Some [mint_dlep; mint_item1; mint_dlep] in
  let loop := for_of write_only (remarks_of rmrks) w in
  let loop' := for_of memory (remarks_of rmrks) w in
  fst loop = Normal tt /\
  fst loop' = Normal tt /\
  consolidate write_only rmrks w
  = (Normal (mkConsolidatorReturnType [] [] (invalidCalls (this (snd loop)))
               (if emitInteractionChanges (this (snd loop))
                then Some (interactionChanges (this (snd loop))) else None) None),
     snd loop) /\
  consolidate memory rmrks w
  = (Normal (mkConsolidatorReturnType (items (store (snd loop'))) (colls (store (snd loop')))
               (invalidCalls (this (snd loop')))
               (if emitInteractionChanges (this (snd loop'))
                then Some (interactionChanges (this (snd loop'))) else None) None),
     mkWorld (this (snd loop')) (store (snd loop'))
       (calls (snd loop') ++ [getAllNFTs; getAllCollections]) (console (snd loop'))).
Proof.
  intros w rmrks loop loop'.
  assert (Hloop : fst loop = Normal tt) by vm_cast_no_check (eq_refl (fst loop)).
  assert (Hloop' : fst loop' = Normal tt) by vm_cast_no_check (eq_refl (fst loop')).
  split; [exact Hloop|]. split; [exact Hloop'|]. split.
  - exact (proj1 (@snapshot_sets_from_bulk_readers _ _ write_only rmrks w (snd loop)
                    (run_returned loop Hloop))
             eq_refl eq_refl).
  - exact (proj2 (@snapshot_sets_from_bulk_readers _ _ memory rmrks w (snd loop')
                    (run_returned loop' Hloop'))
             eq_refl eq_refl
             (items (store (snd loop'))) (store (snd loop'))
             (colls (store (snd loop'))) (store (snd loop'))
             eq_refl eq_refl).
Defined.

(** C3 on a remark of kind RESADD. *)
Lemma unknown_type_is_skipped_witness :
  let w := fresh None None in
  let w' := mkWorld (this w) (store w) (calls w) (console w ++ [wrong_type resadd]) in
  (forall op, interaction_type resadd <> op_value op) /\
  switch_interaction_type memory resadd w = (Normal Break, w') /\
  for_of memory [resadd; mint_dlep] w = for_of memory [mint_dlep] w'.
Proof.
  intros w w'.
  assert (Hunknown : forall op, interaction_type resadd <> op_value op)
    by (intros []; discriminate).
  split; [exact Hunknown|].
  exact (@unknown_type_is_skipped _ _ memory resadd [mint_dlep] w Hunknown).
Defined.

(** C5 on Bob's reaction to the item, in a later block than its last change
    and in the same block. *)
Lemma emote_applies_when_block_differs_witness :
  let lookup := getNFTById (fst reaction) in
  let apply := updateNFTEmote dlep1_reacted dlep1 7 in
  let stored := mkStore (put_item dlep1_reacted 7 (items (store minted))) (colls (store minted)) in
  find_item (fst reaction) (store minted) = Some dlep1 /\
  Some 7 <> nft_updatedAtBlock dlep1 /\
  emote memory (emote_at 7) minted
  = (Normal false,
     mkWorld (with_change (EMOTE, getId dlep1_reacted) (this minted)) stored
       (calls minted ++ [lookup; apply]) (console minted)) /\
  Some 6 = nft_updatedAtBlock dlep1 /\
  emote memory (emote_at 6) minted
  = (Normal false, mkWorld (this minted) (store minted) (calls minted ++ [lookup]) (console minted)).
Proof.
  intros lookup apply stored.
  assert (Hfind : find_item (fst reaction) (store minted) = Some dlep1)
    by vm_cast_no_check (eq_refl (find_item (fst reaction) (store minted))).
  assert (Hget : invoke memory (getNFTById (Emote_id reaction)) (store minted)
                 = (Normal (Some dlep1), store minted))
    by exact (f_equal (fun found => (Normal found, store minted)) Hfind).
  assert (Hlater : Some 7 <> nft_updatedAtBlock dlep1) by discriminate.
  split; [exact Hfind|]. split; [exact Hlater|]. split.
  - exact (proj1 (@emote_applies_when_block_differs _ _ memory (emote_at 7) minted
                    reaction dlep1 (store minted) dlep1_reacted eq_refl Hget eq_refl)
             Hlater stored eq_refl).
  - split; [reflexivity|].
    exact (proj2 (@emote_applies_when_block_differs _ _ memory (emote_at 6) minted
                    reaction dlep1 (store minted) dlep1_reacted eq_refl Hget eq_refl)
             eq_refl).
Defined.

(** C1 on Alice's mint of the collection with the long symbol: the id is as
    long as the key, begins and ends as the key does, and the mint is
    recorded as invalid. *)
Lemma mint_rejects_matching_fragments_witness :
  let w := fresh None None in
  let lookup := getCollectionById long_id in
  let rejected :=
    {| ic_op_type := "MINT";
       ic_block := 5;
       ic_caller := alice;
       ic_object_id := long_id;
       ic_message := does_not_match alice_hex long_id |} in
  getCollectionFromRemark mint_long = Normal long_collection /\
  u8aToHex (bytes_of_hex alice_key) = alice_hex /\
  generateId alice_hex long_symbol = Normal long_id /\
  JS.length long_id = JS.length alice_hex /\
  JS.substr 0 8 long_id = JS.substr 2 8 alice_hex /\
  JS.substring (JS.length alice_hex - 8) long_id
  = JS.substring (JS.length alice_hex - 8) alice_hex /\
  fragments_agree alice_hex long_id = true /\
  mint memory mint_long w
  = (Normal true,
     mkWorld (push_invalidCalls rejected (this w)) (store w) (calls w ++ [lookup]) (console w)).
Proof.
  intros w lookup rejected.
  split; [vm_cast_no_check (eq_refl (getCollectionFromRemark mint_long))|].
  split; [vm_cast_no_check (eq_refl alice_hex)|].
  split; [vm_cast_no_check (eq_refl (generateId alice_hex long_symbol))|].
  split; [vm_cast_no_check (eq_refl (JS.length long_id))|].
  split; [vm_cast_no_check (eq_refl (JS.substr 0 8 long_id))|].
  split; [vm_cast_no_check (eq_refl (JS.substring (JS.length alice_hex - 8) long_id))|].
  split; [vm_cast_no_check (eq_refl true)|].
  exact (proj1 (@mint_rejects_matching_fragments _ _ memory mint_long w long_collection
                  (store w) (bytes_of_hex alice_key) long_id
                  ltac:(vm_cast_no_check (eq_refl (getCollectionFromRemark mint_long)))
                  eq_refl eq_refl
                  ltac:(vm_cast_no_check (eq_refl (generateId alice_hex long_symbol))))
           ltac:(vm_cast_no_check (eq_refl true))).
Defined.


(** [list] answers [true] when Alice, the owner, lists the item (nothing
    goes to the ledger) and when Bob tries (one entry goes to the ledger);
    [send] answers [false] for Alice and [true] for Bob. *)
Example list_and_send_flags :
  let outcome h := (fst (h minted), List.length (invalidCalls (this (snd (h minted))))) in
  outcome (list_ memory (list_by alice)) = (Normal true, 0%nat) /\
  outcome (list_ memory (list_by bob)) = (Normal true, 1%nat) /\
  outcome (send memory (send_by alice)) = (Normal false, 0%nat) /\
  outcome (send memory (send_by bob)) = (Normal true, 1%nat).
Proof.
  intro outcome.
  refine (conj _ (conj _ (conj _ _))).
  - vm_cast_no_check (eq_refl (outcome (list_ memory (list_by alice)))).
  - vm_cast_no_check (eq_refl (outcome (list_ memory (list_by bob)))).
  - vm_cast_no_check (eq_refl (outcome (send memory (send_by alice)))).
  - vm_cast_no_check (eq_refl (outcome (send memory (send_by bob)))).
Qed.

(** The mint of a collection with an ordinary symbol goes through: the id is
    shorter than the key, nothing of it lies at the offset where
    [validateMintIds] reads its end, so the two ends differ and nothing is
    thrown. *)
Example ordinary_mint_is_persisted :
  JS.substring (JS.length alice_hex - 8) (Collection_id dlep) = ""%string /\
  fragments_agree alice_hex (Collection_id dlep) = false /\
  validateMintIds dlep mint_dlep = Normal tt /\
  fst (mint memory mint_dlep (fresh None None)) = Normal false /\
  find_collection (Collection_id dlep) (store (snd (mint memory mint_dlep (fresh None None))))
  = Some dlep.
Proof.
  refine (conj _ (conj _ (conj _ (conj _ _)))).
  - vm_cast_no_check (eq_refl (JS.substring (JS.length alice_hex - 8) (Collection_id dlep))).
  - vm_cast_no_check (eq_refl (fragments_agree alice_hex (Collection_id dlep))).
  - vm_cast_no_check (eq_refl (validateMintIds dlep mint_dlep)).
  - vm_cast_no_check (eq_refl (fst (mint memory mint_dlep (fresh None None)))).
  - vm_cast_no_check
      (eq_refl (find_collection (Collection_id dlep)
                  (store (snd (mint memory mint_dlep (fresh None None)))))).
Qed.

End Runs.

(** ** More sample runs *)

(** A run whose completion is known to be an error ended in the world it
    ended in. *)
Lemma run_threw (A W : Type) (run : completion A * W) (e : string) :
  fst run = Throw e -> run = (Throw e, snd run).
Proof. destruct run as [c w]. simpl. intro H. rewrite H. reflexivity. Qed.

Section FaultyRuns.

Import Sample SampleLaws Faults Refusals.

Lemma memory_bulk_readers_only_read : bulk_readers_only_read memory.
Proof. intro db. split; reflexivity. Qed.

(** X7 on the MINT remark that does not parse: the adapter is not called
    and the remark is in the ledger. *)
Lemma known_kind_is_looked_up_or_recorded_witness :
  let w := fresh None None in
  let w' := snd (switch_interaction_type memory mint_garbled w) in
  interaction_type mint_garbled = op_value MINT /\
  console w' = console w /\
  ((exists m ms, calls w' = calls w ++ m :: ms /\ is_update m = false) \/
   (calls w' = calls w /\ store w' = store w /\
    exists message,
      invalidCalls (this w')
      = invalidCalls (this w)
        ++ [invalid_entry (interaction_type mint_garbled) mint_garbled (remark mint_garbled)
              message])).
Proof.
  intros w w'. split; [reflexivity|].
  exact (@known_kind_is_looked_up_or_recorded _ _ memory mint_garbled MINT w eq_refl).
Defined.

(** X8 on a sequence with two remarks of an unknown kind. *)
Lemma console_lists_unknown_kinds_witness :
  let w := fresh None None in
  let remarks := [resadd; mint_dlep; resadd] in
  let loop := for_of memory remarks w in
  fst loop = Normal tt /\
  console (snd loop)
  = console w ++ map wrong_type (filter (fun rmk => negb (known_kind rmk)) remarks).
Proof.
  intros w remarks loop.
  assert (Hloop : fst loop = Normal tt) by vm_cast_no_check (eq_refl (fst loop)).
  split; [exact Hloop|].
  exact (@console_lists_unknown_kinds _ _ memory remarks w (snd loop)
           (run_returned loop Hloop)).
Defined.

(** X9 on the store whose items cannot be looked up: the mint of the
    collection goes through, the mint of the item throws at its first
    lookup, and the remark after it is not looked at. *)
Lemma consolidate_stops_at_the_first_throw_witness :
  let w := fresh None None in
  let loop := for_of items_out_of_reach [mint_dlep] w in
  let step := switch_interaction_type items_out_of_reach mint_item1 (snd loop) in
  fst loop = Normal tt /\
  fst step = Throw "The items are out of reach" /\
  consolidate items_out_of_reach (Some ([mint_dlep] ++ mint_item1 :: [resadd])) w
  = (Throw "The items are out of reach", snd step) /\
  extends (this w) (this (snd step)) /\
  through_adapter items_out_of_reach w (snd step).
Proof.
  intros w loop step.
  assert (Hloop : fst loop = Normal tt) by vm_cast_no_check (eq_refl (fst loop)).
  assert (Hstep : fst step = Throw "The items are out of reach")
    by vm_cast_no_check (eq_refl (fst step)).
  split; [exact Hloop|]. split; [exact Hstep|].
  exact (@consolidate_stops_at_the_first_throw _ _ items_out_of_reach
           [mint_dlep] mint_item1 [resadd] w (snd loop) (snd step)
           "The items are out of reach" (run_returned loop Hloop) (run_threw step Hstep)).
Defined.

(** X10 on an instance constructed with [ss58Format] 0 and with the changes
    emitted. *)
Lemma options_are_fixed_at_construction_witness :
  let w := mkWorld (new_Consolidator (Some 0) None (Some true)) empty [] [] in
  let c := this (snd (consolidate memory (Some [mint_dlep; mint_item1]) w)) in
  this w = new_Consolidator (Some 0) None (Some true) /\
  (forall n, ss58Format c = Some n <-> Some 0 = Some n /\ n <> 0) /\
  (emitEmoteChanges c = true <-> None = Some true) /\
  (emitInteractionChanges c = true <-> Some true = Some true).
Proof.
  intros w c. split; [reflexivity|].
  exact (@options_are_fixed_at_construction _ _ memory (Some 0) None (Some true)
           (Some [mint_dlep; mint_item1]) w eq_refl).
Defined.

(** X12 on the two runs of the same instance. *)
Lemma two_runs_are_one_run_witness :
  let w := fresh None (Some true) in
  let first := consolidate memory (Some [mint_garbled; mint_dlep]) w in
  let second := consolidate memory (Some [mint_dlep; mint_item1]) (snd first) in
  let single :=
    consolidate memory (Some ([mint_garbled; mint_dlep] ++ [mint_dlep; mint_item1])) w in
  bulk_readers_only_read memory /\
  fst first = Normal first_snapshot /\
  fst second = fst single /\
  this (snd second) = this (snd single) /\
  store (snd second) = store (snd single) /\
  console (snd second) = console (snd single).
Proof.
  intros w first second single.
  assert (Hfirst : fst first = Normal first_snapshot)
    by vm_cast_no_check (eq_refl (fst first)).
  split; [exact memory_bulk_readers_only_read|]. split; [exact Hfirst|].
  exact (@two_runs_are_one_run _ _ memory [mint_garbled; mint_dlep] [mint_dlep; mint_item1]
           w (snd first) first_snapshot memory_bulk_readers_only_read
           (run_returned first Hfirst)).
Defined.

(** X13 on Alice's mint of the collection with the ordinary symbol: the id
    has 23 characters, the key in hexadecimal 66. *)
Lemma validateMintIds_accepts_ids_of_another_length_witness :
  decodeAddress (caller mint_dlep) = Normal (bytes_of_hex alice_key) /\
  generateId (u8aToHex (bytes_of_hex alice_key)) (Collection_symbol dlep)
  = Normal (Collection_id dlep) /\
  8 <= JS.length (u8aToHex (bytes_of_hex alice_key)) /\
  JS.length (Collection_id dlep) <> JS.length (u8aToHex (bytes_of_hex alice_key)) /\
  validateMintIds dlep mint_dlep = Normal tt.
Proof.
  assert (Hkey : decodeAddress (caller mint_dlep) = Normal (bytes_of_hex alice_key))
    by vm_cast_no_check (eq_refl (decodeAddress (caller mint_dlep))).
  assert (Hid : generateId (u8aToHex (bytes_of_hex alice_key)) (Collection_symbol dlep)
                = Normal (Collection_id dlep))
    by vm_cast_no_check
         (eq_refl (generateId (u8aToHex (bytes_of_hex alice_key)) (Collection_symbol dlep))).
  assert (Hlength : JS.length (u8aToHex (bytes_of_hex alice_key)) = 66)
    by vm_cast_no_check (eq_refl 66).
  assert (Hshort : JS.length (Collection_id dlep) = 23) by vm_cast_no_check (eq_refl 23).
  assert (Hlong : 8 <= JS.length (u8aToHex (bytes_of_hex alice_key)))
    by (rewrite Hlength; discriminate).
  assert (Hother : JS.length (Collection_id dlep)
                   <> JS.length (u8aToHex (bytes_of_hex alice_key)))
    by (rewrite Hlength, Hshort; discriminate).
  split; [exact Hkey|]. split; [exact Hid|]. split; [exact Hlong|]. split; [exact Hother|].
  exact (@validateMintIds_accepts_ids_of_another_length _ dlep mint_dlep
           (bytes_of_hex alice_key) (Collection_id dlep) Hkey Hid Hlong Hother).
Defined.

(** On the store that cannot be written the mint of the collection is
    caught and put in the ledger with what the update threw; on the store
    whose items cannot be looked up the mint of the item throws at its
    lookup, after the collection was persisted. *)
Example faulty_stores :
  let lookup := getCollectionById (Collection_id dlep) in
  let held := consolidate read_only (Some [mint_dlep]) (fresh None None) in
  let cut :=
    consolidate items_out_of_reach (Some [mint_dlep; mint_item1; resadd]) (fresh None None) in
  calls (snd held) = [lookup; updateCollectionMint dlep; getAllNFTs; getAllCollections] /\
  failed_update read_only (calls (snd held)) empty = Some "The store is read-only" /\
  reads_completed read_only (calls (snd held)) empty = true /\
  read_only_ledger
  = [invalid_entry "MINT" mint_dlep (Collection_id dlep) "The store is read-only"] /\
  fst cut = Throw "The items are out of reach" /\
  calls (snd cut)
  = [lookup; updateCollectionMint dlep; getNFTByIdUnique (getId dlep1_parsed)] /\
  reads_completed items_out_of_reach (calls (snd cut)) empty = false /\
  find_collection (Collection_id dlep) (store (snd cut)) = Some dlep.
Proof.
  intros lookup held cut.
  refine (conj _ (conj _ (conj _ (conj _ (conj _ (conj _ (conj _ _))))))).
  - vm_cast_no_check (eq_refl (calls (snd held))).
  - vm_cast_no_check (eq_refl (failed_update read_only (calls (snd held)) empty)).
  - vm_cast_no_check (eq_refl (reads_completed read_only (calls (snd held)) empty)).
  - reflexivity.
  - vm_cast_no_check (eq_refl (fst cut)).
  - vm_cast_no_check (eq_refl (calls (snd cut))).
  - vm_cast_no_check (eq_refl (reads_completed items_out_of_reach (calls (snd cut)) empty)).
  - vm_cast_no_check (eq_refl (find_collection (Collection_id dlep) (store (snd cut)))).
Qed.

(** C7 on the store kept in memory, which throws nothing, and on one remark
    of each kind, every one of which is rejected: the run returns a
    snapshot, the ledger of which has the eight failures in the order of
    the remarks, and the store stays empty. *)
Lemma consolidate_never_throws_witness :
  let w := fresh None None in
  let run := consolidate memory (Some all_refused) w in
  adapter_never_throws memory /\
  rejections memory all_refused w = refused_ledger /\
  map ic_op_type refused_ledger
  = ["MINT"; "MINTNFT"; "SEND"; "LIST"; "CONSUME"; "BUY"; "EMOTE"; "CHANGEISSUER"] /\
  map ic_message refused_ledger
  = ["[MINT] Dead before instantiation: Invalid remark - does not match the standard";
     "NFT referencing non-existant parent collection d43593c715a56da27d-DLEP";
     "[SEND] Attempting to use non-existant NFT 6-d43593c715a56da27d-DLEP-DLEP1-0000000000000001";
     "[LIST] Attempting to use non-existant NFT 6-d43593c715a56da27d-DLEP-DLEP1-0000000000000001";
     "[CONSUME] Attempting to use non-existant NFT 6-d43593c715a56da27d-DLEP-DLEP1-0000000000000001";
     "[BUY] Attempting to use non-existant NFT 6-d43593c715a56da27d-DLEP-DLEP1-0000000000000001";
     "[EMOTE] Attempting to use non-existant NFT 6-d43593c715a56da27d-DLEP-DLEP1-0000000000000001";
     "This CHANGEISSUER remark is invalid - no such collection with ID d43593c715a56da27d-DLEP found before block 9!"] /\
  store (snd run) = empty /\
  exists snap,
    fst run = Normal snap /\
    rt_invalid snap = invalidCalls (this w) ++ rejections memory (remarks_of (Some all_refused)) w.
Proof.
  intros w run.
  split; [exact memory_never_throws|].
  split; [vm_cast_no_check (eq_refl refused_ledger)|].
  split; [reflexivity|]. split; [reflexivity|].
  split; [vm_cast_no_check (eq_refl empty)|].
  exact (proj1 (@consolidate_never_throws _ _ memory memory_never_throws)
           (Some all_refused) w).
Defined.

End FaultyRuns.
